(** * The page-generation pipeline of the static site generator

    A shallow embedding of [scripts/build.mjs] (escaper, block markup
    renderer, template substitution, post loader, theme fragment builders)
    and of the click handler of [docs/assets/js/tag-filter.js], followed by
    the properties of these functions.

    Conventions of the embedding.
    - A JavaScript string is carried as the sequence of bytes of its UTF-8
      encoding, in Rocq's [string].  Every character the code looks for
      (newline, [#], [-], [.], digits, braces, [$], the four escaped
      characters, the comma) is ASCII, and an ASCII byte never occurs inside
      the encoding of another character, so searching, splitting and
      replacing act on the encoding exactly as on the string.  White space
      outside ASCII is recognised by its encoding ([ws_len]).
    - A JavaScript value is a [JsValue]: the values a parsed frontmatter
      block or a JSON document can hold. *)

From Stdlib Require Import ZArith String Ascii List DecimalString Sorted Permutation
  OrderedTypeEx.
From stdpp Require Import gmap strings list.

Set Warnings "-register-all".

Open Scope string_scope.
Open Scope Z_scope.

(* ===================================================================== *)
(** ** Strings *)
(* ===================================================================== *)

(** The line feed and the double quote. *)
Definition LF : ascii := "010"%char.
Definition DQ : ascii := "034"%char.
Definition nl : string := String LF EmptyString.
Definition dq : string := String DQ EmptyString.

(** The constant HTML fragments of the source hold many double quotes and no
    apostrophe; they are written below with an apostrophe wherever the
    source has a double quote, and [q] puts the double quotes back. *)
Fixpoint q (s : string) : string :=
  match s with
  | EmptyString => EmptyString
  | String c r => String (if Ascii.eqb c "'" then DQ else c) (q r)
  end.

(** [s] without its first [n] bytes: [s.slice(n)] when the first [n]
    characters of [s] are ASCII, and the text after a match of [n] bytes. *)
Fixpoint drop_chars (n : nat) (s : string) : string :=
  match n, s with
  | O, _ => s
  | S k, String _ r => drop_chars k r
  | S _, EmptyString => EmptyString
  end.

(** [s.startsWith(p)]. *)
Definition startsWith (s p : string) : bool := String.prefix p s.

(** [l.join(sep)] on a list of strings. *)
Fixpoint join (sep : string) (l : list string) : string :=
  match l with
  | [] => EmptyString
  | [x] => x
  | x :: r => x ++ sep ++ join sep r
  end.

(** [s.split(sep)] for a one-character separator: the pieces between the
    separators, the empty string giving one empty piece. *)
Fixpoint split_on (sep : ascii) (s : string) : list string :=
  match s with
  | EmptyString => [EmptyString]
  | String c r =>
      if Ascii.eqb c sep then EmptyString :: split_on sep r
      else match split_on sep r with
           | piece :: pieces => String c piece :: pieces
           | [] => [String c EmptyString]
           end
  end.

(** The number of bytes of the white-space character (the [\s] of a regular
    expression, the characters [trim] removes) that [s] starts with, or [0]
    when it starts with none: U+0009..U+000D, U+0020, U+00A0, U+1680,
    U+2000..U+200A, U+2028, U+2029, U+202F, U+205F, U+3000, U+FEFF. *)
Definition ws_len (s : string) : nat :=
  match s with
  | EmptyString => O
  | String a r =>
      let x := N_of_ascii a in
      if ((9 <=? x) && (x <=? 13) || (x =? 32))%N then 1%nat
      else match r with
           | EmptyString => O
           | String b r2 =>
               let y := N_of_ascii b in
               if ((x =? 194) && (y =? 160))%N then 2%nat
               else match r2 with
                    | EmptyString => O
                    | String c _ =>
                        let z := N_of_ascii c in
                        if ((x =? 225) && (y =? 154) && (z =? 128)
                            || (x =? 226) && (y =? 128)
                               && ((128 <=? z) && (z <=? 138)
                                   || (z =? 168) || (z =? 169) || (z =? 175))
                            || (x =? 226) && (y =? 129) && (z =? 159)
                            || (x =? 227) && (y =? 128) && (z =? 128)
                            || (x =? 239) && (y =? 187) && (z =? 191))%N
                        then 3%nat else O
                    end
           end
  end.

(** [s.trim() === ''] : [s] is made of white space only.  [pending] counts
    the bytes still to pass of the character being read. *)
Fixpoint blank_from (pending : nat) (s : string) : bool :=
  match s with
  | EmptyString => true
  | String _ r =>
      match pending with
      | S k => blank_from k r
      | O => match ws_len s with
             | O => false
             | S k => blank_from k r
             end
      end
  end.

Definition is_blank (s : string) : bool := blank_from 0 s.

Definition is_digit (c : ascii) : bool :=
  let x := N_of_ascii c in ((48 <=? x) && (x <=? 57))%N.

Fixpoint skip_digits (s : string) : string :=
  match s with
  | String c r => if is_digit c then skip_digits r else s
  | EmptyString => EmptyString
  end.

(** The match of [/^\d+\.\s/] at the start of [line]: [None] when
    [/^\d+\.\s/.test(line)] is false, otherwise
    [line.replace(/^\d+\.\s/, '')], the line without the matched prefix. *)
Definition ol_marker (line : string) : option string :=
  match line with
  | String c _ =>
      if is_digit c then
        match skip_digits line with
        | String d r =>
            if Ascii.eqb d "." then
              match ws_len r with
              | O => None
              | S k => Some (drop_chars (S k) r)
              end
            else None
        | EmptyString => None
        end
      else None
  | EmptyString => None
  end.

(** The number of places of [s] at which [p] starts. *)
Fixpoint count_occ (p s : string) : nat :=
  match s with
  | EmptyString => O
  | String _ r => ((if String.prefix p s then 1 else 0) + count_occ p r)%nat
  end.

(** [s] holds the character [c]. *)
Fixpoint has_char (c : ascii) (s : string) : bool :=
  match s with
  | EmptyString => false
  | String d r => Ascii.eqb d c || has_char c r
  end.

(* ===================================================================== *)
(** ** Values *)
(* ===================================================================== *)

(** Numbers are the integers (printed in decimal, as JavaScript prints an
    integer below 10^21 in magnitude) and NaN; [JObj repr] is an object
    other than an array, such as a date, whose conversion to a string gives
    [repr]. *)
Inductive JsValue : Type :=
  | JUndefined
  | JNull
  | JBool (b : bool)
  | JNum (z : Z)
  | JNaN
  | JStr (s : string)
  | JArr (l : list JsValue)
  | JObj (repr : string).

(** [!!v]. *)
Definition truthy (v : JsValue) : bool :=
  match v with
  | JUndefined | JNull | JNaN => false
  | JBool b => b
  | JNum z => negb (z =? 0)
  | JStr s => negb (String.eqb s EmptyString)
  | JArr _ | JObj _ => true
  end.

(** [v === 0]. *)
Definition is_zero (v : JsValue) : bool :=
  match v with
  | JNum z => z =? 0
  | _ => false
  end.

Definition Number_toString (z : Z) : string :=
  NilZero.string_of_int (Z.to_int z).

(** [String(v)]; an array is its elements joined by commas, [null] and
    [undefined] elements giving nothing. *)
Fixpoint ToString (v : JsValue) : string :=
  match v with
  | JUndefined => "undefined"
  | JNull => "null"
  | JBool true => "true"
  | JBool false => "false"
  | JNum z => Number_toString z
  | JNaN => "NaN"
  | JStr s => s
  | JArr l =>
      join ","
        (List.map (fun e => match e with
                            | JUndefined | JNull => EmptyString
                            | _ => ToString e
                            end) l)
  | JObj repr => repr
  end.

(** [arr.join(sep)] on an array of values. *)
Definition Array_join (sep : string) (l : list JsValue) : string :=
  join sep
    (List.map (fun e => match e with
                        | JUndefined | JNull => EmptyString
                        | _ => ToString e
                        end) l).

(* ===================================================================== *)
(** ** Replacing: [String.prototype.replaceAll] and [replace] with [/c/g] *)
(* ===================================================================== *)

(** GetSubstitution of the language specification for a match without
    capture groups: in the replacement text [$$] stands for a dollar sign,
    [$&] for the matched text, [$`] for the text before the match and [$']
    for the text after it; any other [$] (also before a digit or [<], there
    being no captures) stands for itself. *)
Fixpoint GetSubstitution (matched before after template : string) : string :=
  match template with
  | EmptyString => EmptyString
  | String c rest =>
      if Ascii.eqb c "$" then
        match rest with
        | EmptyString => String c EmptyString
        | String d rest' =>
            if Ascii.eqb d "$" then
              String "$" (GetSubstitution matched before after rest')
            else if Ascii.eqb d "&" then
              matched ++ GetSubstitution matched before after rest'
            else if Ascii.eqb d "`" then
              before ++ GetSubstitution matched before after rest'
            else if Ascii.eqb d "'" then
              after ++ GetSubstitution matched before after rest'
            else String c (GetSubstitution matched before after rest)
        end
      else String c (GetSubstitution matched before after rest)
  end.

(** The scan of [replaceAll] for a pattern that is not empty: [before] is
    the text already passed, [s] the text still to read, [skip] the number
    of characters of the last match still to pass.  Matches are taken from
    left to right and do not overlap; the text put in place of a match is
    not read again. *)
Fixpoint replaceAll_scan (pat repl before s : string) (skip : nat) : string :=
  match s with
  | EmptyString => EmptyString
  | String c r =>
      match skip with
      | S k => replaceAll_scan pat repl (before ++ String c EmptyString) r k
      | O =>
          if String.prefix pat s then
            GetSubstitution pat before (drop_chars (String.length pat) s) repl
            ++ replaceAll_scan pat repl (before ++ String c EmptyString) r
                 (String.length pat - 1)
          else
            String c (replaceAll_scan pat repl (before ++ String c EmptyString) r O)
      end
  end.

(** The empty pattern matches before every character and at the end. *)
Fixpoint replaceAll_empty (repl before s : string) : string :=
  GetSubstitution EmptyString before s repl
  ++ match s with
     | EmptyString => EmptyString
     | String c r => String c (replaceAll_empty repl (before ++ String c EmptyString) r)
     end.

(** [s.replaceAll(pat, repl)] for strings [pat] and [repl]; also
    [s.replace(/c/g, repl)] for a pattern of one literal character. *)
Definition replaceAll (s pat repl : string) : string :=
  match pat with
  | EmptyString => replaceAll_empty repl EmptyString s
  | String _ _ => replaceAll_scan pat repl EmptyString s O
  end.

(* ===================================================================== *)
(** ** The escaper *)
(* ===================================================================== *)

(** [esc(str)]. *)
Definition esc (str : JsValue) : string :=
  if negb (truthy str) && negb (is_zero str) then EmptyString
  else
    replaceAll
      (replaceAll
         (replaceAll
            (replaceAll (ToString str) "&" "&amp;")
            "<" "&lt;")
         ">" "&gt;")
      dq "&quot;".

(* ===================================================================== *)
(** ** The block markup renderer *)
(* ===================================================================== *)

(** The variables of [renderMarkdown]: the text built so far and the two
    open-list flags. *)
Record MdState : Type := mkMd { html : string; inOl : bool; inUl : bool }.

(** [html += text]. *)
Definition emit (st : MdState) (text : string) : MdState :=
  mkMd (html st ++ text) (inOl st) (inUl st).

(** [if (inOl) { html += '</ol>\n'; inOl = false; }]. *)
Definition closeOl (st : MdState) : MdState :=
  if inOl st then mkMd (html st ++ "</ol>" ++ nl) false (inUl st) else st.

(** [if (inUl) { html += '</ul>\n'; inUl = false; }]. *)
Definition closeUl (st : MdState) : MdState :=
  if inUl st then mkMd (html st ++ "</ul>" ++ nl) (inOl st) false else st.

(** The local function [close]. *)
Definition close (st : MdState) : MdState := closeUl (closeOl st).

(** [if (!inOl) { html += '<ol>\n'; inOl = true; }]. *)
Definition openOl (st : MdState) : MdState :=
  if inOl st then st else mkMd (html st ++ "<ol>" ++ nl) true (inUl st).

(** [if (!inUl) { html += '<ul>\n'; inUl = true; }]. *)
Definition openUl (st : MdState) : MdState :=
  if inUl st then st else mkMd (html st ++ "<ul>" ++ nl) (inOl st) true.

(** The body of the loop over the lines. *)
Definition md_line (st : MdState) (line : string) : MdState :=
  if startsWith line "### " then
    emit (close st) ("<h3>" ++ esc (JStr (drop_chars 4 line)) ++ "</h3>" ++ nl)
  else if startsWith line "## " then
    emit (close st) ("<h2>" ++ esc (JStr (drop_chars 3 line)) ++ "</h2>" ++ nl)
  else if startsWith line "# " then
    emit (close st) ("<h1>" ++ esc (JStr (drop_chars 2 line)) ++ "</h1>" ++ nl)
  else
    match ol_marker line with
    | Some item =>
        emit (openOl (closeUl st)) ("  <li>" ++ esc (JStr item) ++ "</li>" ++ nl)
    | None =>
        if startsWith line "- " then
          emit (openUl (closeOl st))
            ("  <li>" ++ esc (JStr (drop_chars 2 line)) ++ "</li>" ++ nl)
        else if is_blank line then
          emit (close st) nl
        else
          emit (close st) ("<p>" ++ esc (JStr line) ++ "</p>" ++ nl)
    end.

(** [renderMarkdown(content)]. *)
Definition renderMarkdown (content : string) : string :=
  if String.eqb content EmptyString then EmptyString
  else
    html (close (fold_left md_line (split_on LF content)
                   (mkMd EmptyString false false))).

(* ===================================================================== *)
(** ** The template substitution engine *)
(* ===================================================================== *)

(** The token [{{key}}]. *)
Definition placeholder (key : string) : string := "{{" ++ key ++ "}}".

(** [val ?? '']. *)
Definition or_empty (val : JsValue) : JsValue :=
  match val with
  | JUndefined | JNull => JStr EmptyString
  | _ => val
  end.

(** [render(templateStr, vars)]; [vars] is given by [Object.entries(vars)],
    the pairs of the mapping in the order in which the loop meets them. *)
Definition render (templateStr : string) (vars : list (string * JsValue)) : string :=
  fold_left
    (fun result entry =>
       replaceAll result (placeholder (fst entry)) (ToString (or_empty (snd entry))))
    vars templateStr.

(* ===================================================================== *)
(** ** The post loader *)
(* ===================================================================== *)

(** A post, as [loadPosts] builds it.  [title], [author] and [excerpt] are
    the values of the frontmatter as they come; [slug] and [date] are
    strings by construction. *)
Record Post : Type := mkPost {
  slug : string;
  title : JsValue;
  date : string;
  author : JsValue;
  excerpt : JsValue;
  tags : list JsValue;
  content : string
}.

(** What the frontmatter parser returns: [parsed.data] and
    [parsed.content]. *)
Record Parsed : Type := mkParsed {
  parsed_data : gmap string JsValue;
  parsed_content : string
}.

(** [o.key] : the property, [undefined] when the object has none. *)
Definition prop (o : gmap string JsValue) (key : string) : JsValue :=
  default JUndefined (o !! key).

(** The file system as the loader reads it: what is found at each path. *)
Inductive Node : Type :=
  | File (text : string)
  | Dir (names : list string).

(** How a call ends: with a value, with [console.error(message)] followed by
    [process.exit(code)], or with an exception of the file system or of the
    parser, which nothing in the loader catches. *)
Inductive Outcome (A : Type) : Type :=
  | Done (a : A)
  | Exit (code : Z) (message : string)
  | Throw.
Arguments Done {A} a.
Arguments Exit {A} code message.
Arguments Throw {A}.

(** Sequencing: the first call that does not return ends the whole.  The
    notation [x ← m; k] of stdpp runs [m] and then [k] on its value. *)
#[global] Instance Outcome_bind : MBind Outcome :=
  fun A B (k : A -> Outcome B) (m : Outcome A) =>
    match m with
    | Done a => k a
    | Exit code message => Exit code message
    | Throw => Throw
    end.

(** [fs.existsSync(p)]. *)
Definition existsSync (fs : gmap string Node) (p : string) : bool :=
  match fs !! p with
  | Some _ => true
  | None => false
  end.

(** [fs.readdirSync(p)]. *)
Definition readdirSync (fs : gmap string Node) (p : string) : Outcome (list string) :=
  match fs !! p with
  | Some (Dir names) => Done names
  | _ => Throw
  end.

(** [fs.readFileSync(p, 'utf-8')]. *)
Definition readFileSync (fs : gmap string Node) (p : string) : Outcome string :=
  match fs !! p with
  | Some (File text) => Done text
  | _ => Throw
  end.

(** [s.endsWith(suffix)]. *)
Fixpoint endsWith (s suffix : string) : bool :=
  String.eqb s suffix
  || match s with
     | EmptyString => false
     | String _ r => endsWith r suffix
     end.

(** [file.replace(/\.md$/, '')]. *)
Fixpoint strip_md (file : string) : string :=
  match file with
  | EmptyString => EmptyString
  | String c r => if String.eqb file ".md" then EmptyString else String c (strip_md r)
  end.

(** [s.slice(0, n)]: the first [n] UTF-16 code units of [s].  A character
    of one, two or three bytes is one code unit, one of four bytes is two;
    [pending] counts the bytes still to copy of the character being read.
    (Where JavaScript would cut a four-byte character in two, the character
    is left out.) *)
Fixpoint slice0 (n pending : nat) (s : string) : string :=
  match s with
  | EmptyString => EmptyString
  | String c r =>
      match pending with
      | S k => String c (slice0 n k r)
      | O =>
          let x := N_of_ascii c in
          let units := if (240 <=? x)%N then 2%nat else 1%nat in
          let bytes := if (240 <=? x)%N then 4%nat
                       else if (224 <=? x)%N then 3%nat
                       else if (192 <=? x)%N then 2%nat else 1%nat in
          if (units <=? n)%nat then String c (slice0 (n - units) (bytes - 1) r)
          else EmptyString
      end
  end.

(** [Array.prototype.sort(comparefn)].  The language leaves the sequence of
    comparisons to the implementation; the model inserts the elements one
    by one from the left, each moving towards the front past the elements
    [t] with [comparefn(t, x) > 0].  [insert_sorted] works on the part
    already sorted, held last element first. *)
Fixpoint insert_sorted {A : Type} (comparefn : A -> A -> Z) (x : A) (rev_sorted : list A)
  : list A :=
  match rev_sorted with
  | [] => [x]
  | t :: r =>
      if 0 <? comparefn t x then t :: insert_sorted comparefn x r
      else x :: t :: r
  end.

Definition Array_sort {A : Type} (comparefn : A -> A -> Z) (l : list A) : list A :=
  rev (fold_left (fun acc x => insert_sorted comparefn x acc) l []).

(** [(a, b) => (a.date < b.date ? 1 : -1)].  The order of [<] on strings is
    the bytewise order of the encodings, that is the order of the code
    points (it is the order of the UTF-16 code units except between a
    character above U+FFFF and one of U+E000..U+FFFF). *)
Definition by_date_desc (a b : Post) : Z :=
  if String.ltb (date a) (date b) then 1 else -1.

(** The object that [loadPosts] pushes on [posts] for the file [file]. *)
Definition post_of (file : string) (parsed : Parsed) : Post :=
  let fm := parsed_data parsed in
  {| slug := strip_md file;
     title := prop fm "title";
     date := slice0 10 0 (ToString (prop fm "date"));
     author := prop fm "author";
     excerpt := if truthy (prop fm "excerpt") then prop fm "excerpt" else JStr EmptyString;
     tags := match prop fm "tags" with
             | JArr l => l
             | _ => []
             end;
     content := parsed_content parsed |}.

Section Loader.

(** [path.join] of Node.js and the constant [CONTENT], which the script
    computes from the working directory of the process. *)
Variable path_join : list string -> string.
Variable CONTENT : string.

(** The file system and the two arguments of [loadPosts]; the parser
    either returns or throws. *)
Variable fs : gmap string Node.
Variable blogSlug : string.
Variable matter : string -> Outcome Parsed.

Definition postsDir : string := path_join [CONTENT; "blogs"; blogSlug; "posts"].

(** The names pushed on [missing]. *)
Definition missing_fields (fm : gmap string JsValue) : list string :=
  ((if truthy (prop fm "title") then [] else ["title"])
   ++ (if truthy (prop fm "date") then [] else ["date"])
   ++ (if truthy (prop fm "author") then [] else ["author"]))%list.

(** One turn of the loop over the directory: [posts] is the array built
    so far. *)
Definition loadFile (file : string) (posts : list Post) : Outcome (list Post) :=
  if negb (endsWith file ".md") then Done posts
  else
    raw ← readFileSync fs (path_join [postsDir; file]);
    parsed ← matter raw;
    let fm := parsed_data parsed in
    let missing := missing_fields fm in
    if negb (Nat.eqb (List.length missing) 0) then
      Exit 1 ("❌ Frontmatter必須項目不足: " ++ blogSlug ++ "/posts/" ++ file
              ++ " (不足: " ++ join ", " missing ++ ")")
    else if truthy (prop fm "draft") then Done posts
    else
      Done (posts ++ [post_of file parsed])%list.

(** The loop over the names of the directory. *)
Fixpoint loadFiles (files : list string) (posts : list Post) : Outcome (list Post) :=
  match files with
  | [] => Done posts
  | file :: rest => posts' ← loadFile file posts; loadFiles rest posts'
  end.

(** [loadPosts(blogSlug, matter)]. *)
Definition loadPosts : Outcome (list Post) :=
  if negb (existsSync fs postsDir) then Done []
  else
    files ← readdirSync fs postsDir;
    posts ← loadFiles files [];
    Done (Array_sort by_date_desc posts).

End Loader.

(* ===================================================================== *)
(** ** The theme fragment builders *)
(* ===================================================================== *)

(** [theme === 'name']. *)
Definition is_theme (theme : JsValue) (name : string) : bool :=
  match theme with
  | JStr s => String.eqb s name
  | _ => false
  end.

(** The themes that have a branch of their own in the builders; any other
    value takes the last branch, written for [word-retro], the theme that
    [build] chooses for a blog without one ([blog.theme || 'word-retro']). *)
Definition named_themes : list string :=
  ["retro-cosmic"; "gym-log"; "love-column"; "izakaya"; "onsen-cosmos";
   "comedy-zine"; "academy-log"; "terminal"; "kawase-blog"; "sake-modern"].

Definition default_theme : JsValue := JStr "word-retro".

(** The equality of the elements of a [Set] (SameValueZero).  An array or
    an object is equal to itself only, and the elements met here come from
    different places of a parsed document. *)
Definition same_value_zero (a b : JsValue) : bool :=
  match a, b with
  | JUndefined, JUndefined => true
  | JNull, JNull => true
  | JBool x, JBool y => Bool.eqb x y
  | JNum x, JNum y => x =? y
  | JNaN, JNaN => true
  | JStr x, JStr y => String.eqb x y
  | _, _ => false
  end.

(** [[...new Set(l)]]: the elements of [l] without repetition, in the order
    of their first occurrence; [seen] holds the elements already kept. *)
Fixpoint uniq (seen l : list JsValue) : list JsValue :=
  match l with
  | [] => []
  | x :: r =>
      if existsb (same_value_zero x) seen then uniq seen r
      else x :: uniq (x :: seen) r
  end.

(** The card of one post: the function given to [posts.map].  Each
    template literal of the source starts with a line feed, which [.trim()]
    removes, and ends with [</a>], where it removes nothing. *)
Definition postCard (theme : JsValue) (post : Post) : string :=
  let tags_csv := Array_join "," (tags post) in
  if is_theme theme "retro-cosmic" then
    q "<a href='posts/" ++ esc (JStr (slug post)) ++ q ".html' class='cosmic-post-card' data-post-tags='" ++ esc (JStr tags_csv) ++ q "'>
  <div style='display:flex;justify-content:space-between;align-items:start;margin-bottom:6px'>
    <div class='cosmic-card-title'>" ++ esc (title post) ++ q "</div>
    <span style='font-size:0.85rem;color:#666;white-space:nowrap;margin-left:12px'>📅 " ++ esc (JStr (date post)) ++ q "</span>
  </div>
  <p class='cosmic-card-excerpt'>" ++ esc (excerpt post) ++ q "</p>
  <div style='display:flex;justify-content:space-between;align-items:center;margin-top:8px'>
    <span class='cosmic-card-meta'>✍️ " ++ esc (author post) ++ "</span>
    <div>" ++ join EmptyString (List.map (fun t => q "<span class='cosmic-tag'>#" ++ esc t ++ "</span>") (tags post)) ++ "</div>
  </div>
</a>"
  else if is_theme theme "gym-log" then
    q "<a href='posts/" ++ esc (JStr (slug post)) ++ q ".html' class='gym-post-card' data-post-tags='" ++ esc (JStr tags_csv) ++ q "'>
  <div style='display:flex;justify-content:space-between;align-items:start;margin-bottom:6px'>
    <div class='gym-card-title'>" ++ esc (title post) ++ q "</div>
    <span class='gym-card-date'>📅 " ++ esc (JStr (date post)) ++ q "</span>
  </div>
  <p class='gym-card-excerpt'>" ++ esc (excerpt post) ++ q "</p>
  <div style='display:flex;justify-content:space-between;align-items:center;margin-top:8px'>
    <span class='gym-card-meta'>✍️ " ++ esc (author post) ++ "</span>
    <div>" ++ join EmptyString (List.map (fun t => q "<span class='gym-tag'>#" ++ esc t ++ "</span>") (tags post)) ++ "</div>
  </div>
</a>"
  else if is_theme theme "love-column" then
    q "<a href='posts/" ++ esc (JStr (slug post)) ++ q ".html' class='love-post-card' data-post-tags='" ++ esc (JStr tags_csv) ++ q "'>
  <div style='display:flex;justify-content:space-between;align-items:start;margin-bottom:6px'>
    <div class='love-card-title'>" ++ esc (title post) ++ q "</div>
    <span class='love-card-date'>📅 " ++ esc (JStr (date post)) ++ q "</span>
  </div>
  <p class='love-card-excerpt'>" ++ esc (excerpt post) ++ q "</p>
  <div style='display:flex;justify-content:space-between;align-items:center;margin-top:8px'>
    <span class='love-card-meta'>✍️ " ++ esc (author post) ++ "</span>
    <div>" ++ join EmptyString (List.map (fun t => q "<span class='love-tag'>#" ++ esc t ++ "</span>") (tags post)) ++ "</div>
  </div>
</a>"
  else if is_theme theme "izakaya" then
    q "<a href='posts/" ++ esc (JStr (slug post)) ++ q ".html' class='izakaya-post-card' data-post-tags='" ++ esc (JStr tags_csv) ++ q "'>
  <div style='display:flex;justify-content:space-between;align-items:start;margin-bottom:6px'>
    <div class='izakaya-card-title'>" ++ esc (title post) ++ q "</div>
    <span class='izakaya-card-date'>📅 " ++ esc (JStr (date post)) ++ q "</span>
  </div>
  <p class='izakaya-card-excerpt'>" ++ esc (excerpt post) ++ q "</p>
  <div style='display:flex;justify-content:space-between;align-items:center;margin-top:8px'>
    <span class='izakaya-card-meta'>✍️ " ++ esc (author post) ++ "</span>
    <div>" ++ join EmptyString (List.map (fun t => q "<span class='izakaya-tag'>#" ++ esc t ++ "</span>") (tags post)) ++ "</div>
  </div>
</a>"
  else if is_theme theme "onsen-cosmos" then
    q "<a href='posts/" ++ esc (JStr (slug post)) ++ q ".html' class='onsen-post-card' data-post-tags='" ++ esc (JStr tags_csv) ++ q "'>
  <div style='display:flex;justify-content:space-between;align-items:start;margin-bottom:6px'>
    <div class='onsen-card-title'>" ++ esc (title post) ++ q "</div>
    <span class='onsen-card-date'>🌙 " ++ esc (JStr (date post)) ++ q "</span>
  </div>
  <p class='onsen-card-excerpt'>" ++ esc (excerpt post) ++ q "</p>
  <div style='display:flex;justify-content:space-between;align-items:center;margin-top:8px'>
    <span class='onsen-card-meta'>✍️ " ++ esc (author post) ++ "</span>
    <div>" ++ join EmptyString (List.map (fun t => q "<span class='onsen-tag'>#" ++ esc t ++ "</span>") (tags post)) ++ "</div>
  </div>
</a>"
  else if is_theme theme "comedy-zine" then
    q "<a href='posts/" ++ esc (JStr (slug post)) ++ q ".html' class='zine-post-card' data-post-tags='" ++ esc (JStr tags_csv) ++ q "'>
  <div style='display:flex;justify-content:space-between;align-items:start;margin-bottom:6px'>
    <div class='zine-card-title'>" ++ esc (title post) ++ q "</div>
    <span class='zine-card-date'>" ++ esc (JStr (date post)) ++ q "</span>
  </div>
  <p class='zine-card-excerpt'>" ++ esc (excerpt post) ++ q "</p>
  <div style='display:flex;justify-content:space-between;align-items:center;margin-top:8px'>
    <span class='zine-card-meta'>✍️ " ++ esc (author post) ++ "</span>
    <div>" ++ join EmptyString (List.map (fun t => q "<span class='zine-tag'>#" ++ esc t ++ "</span>") (tags post)) ++ "</div>
  </div>
</a>"
  else if is_theme theme "academy-log" then
    q "<a href='posts/" ++ esc (JStr (slug post)) ++ q ".html' class='academy-post-card' data-post-tags='" ++ esc (JStr tags_csv) ++ q "'>
  <div style='display:flex;justify-content:space-between;align-items:start;margin-bottom:6px'>
    <div class='academy-card-title'>" ++ esc (title post) ++ q "</div>
    <span class='academy-card-date'>📅 " ++ esc (JStr (date post)) ++ q "</span>
  </div>
  <p class='academy-card-excerpt'>" ++ esc (excerpt post) ++ q "</p>
  <div style='display:flex;justify-content:space-between;align-items:center;margin-top:8px'>
    <span class='academy-card-meta'>✍️ " ++ esc (author post) ++ "</span>
    <div>" ++ join EmptyString (List.map (fun t => q "<span class='academy-tag'>#" ++ esc t ++ "</span>") (tags post)) ++ "</div>
  </div>
</a>"
  else if is_theme theme "terminal" then
    q "<a href='posts/" ++ esc (JStr (slug post)) ++ q ".html' class='term-post-entry' data-post-tags='" ++ esc (JStr tags_csv) ++ q "'>
  <span class='term-post-date'>" ++ esc (JStr (date post)) ++ q "</span>
  <span class='term-post-author'>" ++ esc (author post) ++ q "</span>
  <span class='term-post-title'>" ++ esc (title post) ++ q "</span>
  <div class='term-post-excerpt'>" ++ esc (excerpt post) ++ q "</div>
  <div class='term-post-tags'>" ++ join EmptyString (List.map (fun t => q "<span class='term-tag'>#" ++ esc t ++ "</span>") (tags post)) ++ "</div>
</a>"
  else if is_theme theme "kawase-blog" then
    q "<a href='posts/" ++ esc (JStr (slug post)) ++ q ".html' class='kawase-post-card' data-post-tags='" ++ esc (JStr tags_csv) ++ q "'>
  <div class='kawase-card-date'>📅 " ++ esc (JStr (date post)) ++ q "</div>
  <div class='kawase-card-title'>" ++ esc (title post) ++ q "</div>
  <p class='kawase-card-excerpt'>" ++ esc (excerpt post) ++ q "</p>
  <div class='kawase-card-footer'>
    <span class='kawase-card-meta'>✍️ " ++ esc (author post) ++ q "</span>
    <div class='kawase-card-tags'>" ++ join EmptyString (List.map (fun t => q "<span class='kawase-tag'>#" ++ esc t ++ "</span>") (tags post)) ++ "</div>
  </div>
</a>"
  else if is_theme theme "sake-modern" then
    q "<a href='posts/" ++ esc (JStr (slug post)) ++ q ".html' class='sake-post-card' data-post-tags='" ++ esc (JStr tags_csv) ++ q "'>
  <div class='sake-card-date'>📅 " ++ esc (JStr (date post)) ++ q "</div>
  <div class='sake-card-title'>" ++ esc (title post) ++ q "</div>
  <p class='sake-card-excerpt'>" ++ esc (excerpt post) ++ q "</p>
  <div class='sake-card-footer'>
    <span class='sake-card-meta'>✍️ " ++ esc (author post) ++ q "</span>
    <div class='sake-card-tags'>" ++ join EmptyString (List.map (fun t => q "<span class='sake-tag'>#" ++ esc t ++ "</span>") (tags post)) ++ "</div>
  </div>
</a>"
  else
    q "<a href='posts/" ++ esc (JStr (slug post)) ++ q ".html' class='word-blog-entry' data-post-tags='" ++ esc (JStr tags_csv) ++ q "'>
  <div style='display:flex;justify-content:space-between;align-items:start;margin-bottom:6px'>
    <div class='word-blog-entry-title'>" ++ esc (title post) ++ q "</div>
    <span style='font-size:0.85rem;color:#666;white-space:nowrap;margin-left:12px'>📅 " ++ esc (JStr (date post)) ++ q "</span>
  </div>
  <p class='word-blog-excerpt' style='margin-bottom:8px'>" ++ esc (excerpt post) ++ q "</p>
  <div style='display:flex;justify-content:space-between;align-items:center;flex-wrap:wrap;gap:8px'>
    <span style='font-size:0.85rem;color:#666'>✍️ " ++ esc (author post) ++ "</span>
    <div>" ++ join EmptyString (List.map (fun t => q "<span class='word-tag'>#" ++ esc t ++ "</span>") (tags post)) ++ "</div>
  </div>
</a>".

(** [buildPostListHtml(posts, blogSlug, theme)]. *)
Definition buildPostListHtml (posts : list Post) (blogSlug : string) (theme : JsValue)
  : string :=
  if Nat.eqb (List.length posts) 0 then
    q "<p style='color:#999;padding:20px 0'>記事がまだありません</p>"
  else join nl (List.map (postCard theme) posts).

(** [buildTagFilterHtml(posts, theme)]. *)
Definition buildTagFilterHtml (posts : list Post) (theme : JsValue) : string :=
  let allTags := uniq [] (flat_map tags posts) in
  if Nat.eqb (List.length allTags) 0 then EmptyString
  else
    if is_theme theme "retro-cosmic" then
      let allBtn := q "<button data-tag-btn='__all__' class='cosmic-tag cosmic-tag-active'>すべて</button>" in
      let tagBtns := join EmptyString (List.map (fun t => q "<button data-tag-btn='" ++ esc t ++ q "' class='cosmic-tag'>#" ++ esc t ++ "</button>") allTags) in
      q "<div class='cosmic-tag-filter'>
  <div class='cosmic-tag-filter-heading'>🏷️ タグで絞り込み</div>
  <div style='display:flex;gap:6px;flex-wrap:wrap'>" ++ allBtn ++ tagBtns ++ q "</div>
</div>
<div class='retro-separator'></div>"
    else if is_theme theme "gym-log" then
      let allBtn := q "<button data-tag-btn='__all__' class='gym-tag' style='border-color:#ff4400;color:#ff4400'>ALL</button>" in
      let tagBtns := join EmptyString (List.map (fun t => q "<button data-tag-btn='" ++ esc t ++ q "' class='gym-tag'>#" ++ esc t ++ "</button>") allTags) in
      q "<div class='gym-tag-filter'>
  <div class='gym-tag-filter-heading'>◆ FILTER BY TAG</div>
  <div style='display:flex;gap:6px;flex-wrap:wrap'>" ++ allBtn ++ tagBtns ++ "</div>
</div>"
    else if is_theme theme "love-column" then
      let allBtn := q "<button data-tag-btn='__all__' class='love-tag' style='background:#ff8fab;border-color:#ff8fab;color:white'>すべて ♥</button>" in
      let tagBtns := join EmptyString (List.map (fun t => q "<button data-tag-btn='" ++ esc t ++ q "' class='love-tag'>#" ++ esc t ++ "</button>") allTags) in
      q "<div class='love-tag-filter'>
  <div class='love-tag-filter-heading'>♥ タグで絞り込み</div>
  <div style='display:flex;gap:6px;flex-wrap:wrap;justify-content:center'>" ++ allBtn ++ tagBtns ++ "</div>
</div>"
    else if is_theme theme "izakaya" then
      let allBtn := q "<button data-tag-btn='__all__' class='izakaya-tag' style='border-color:#d4a058;color:#f0b830'>すべて</button>" in
      let tagBtns := join EmptyString (List.map (fun t => q "<button data-tag-btn='" ++ esc t ++ q "' class='izakaya-tag'>#" ++ esc t ++ "</button>") allTags) in
      q "<div class='izakaya-tag-filter'>
  <div class='izakaya-tag-filter-heading'>〔 種類で絞り込む 〕</div>
  <div style='display:flex;gap:6px;flex-wrap:wrap'>" ++ allBtn ++ tagBtns ++ "</div>
</div>"
    else if is_theme theme "onsen-cosmos" then
      let allBtn := q "<button data-tag-btn='__all__' class='onsen-tag' style='border-color:#c8a060;color:#f0d090'>すべて ✦</button>" in
      let tagBtns := join EmptyString (List.map (fun t => q "<button data-tag-btn='" ++ esc t ++ q "' class='onsen-tag'>#" ++ esc t ++ "</button>") allTags) in
      q "<div class='onsen-tag-filter'>
  <div class='onsen-tag-filter-heading'>✦ タグで絞り込み</div>
  <div style='display:flex;gap:6px;flex-wrap:wrap;justify-content:center'>" ++ allBtn ++ tagBtns ++ "</div>
</div>"
    else if is_theme theme "comedy-zine" then
      let allBtn := q "<button data-tag-btn='__all__' class='zine-tag' style='background:#111;color:#ffe600;border-color:#111'>ALL</button>" in
      let tagBtns := join EmptyString (List.map (fun t => q "<button data-tag-btn='" ++ esc t ++ q "' class='zine-tag'>#" ++ esc t ++ "</button>") allTags) in
      q "<div class='zine-tag-filter'>
  <div class='zine-tag-filter-heading'>◆ FILTER BY TAG</div>
  <div style='display:flex;gap:6px;flex-wrap:wrap'>" ++ allBtn ++ tagBtns ++ "</div>
</div>"
    else if is_theme theme "academy-log" then
      let allBtn := q "<button data-tag-btn='__all__' class='academy-tag' style='border-color:#4a9eff;color:#7ac8ff'>ALL</button>" in
      let tagBtns := join EmptyString (List.map (fun t => q "<button data-tag-btn='" ++ esc t ++ q "' class='academy-tag'>#" ++ esc t ++ "</button>") allTags) in
      q "<div class='academy-tag-filter'>
  <div class='academy-tag-filter-heading'>◆ FILTER BY TAG</div>
  <div style='display:flex;gap:6px;flex-wrap:wrap'>" ++ allBtn ++ tagBtns ++ "</div>
</div>"
    else if is_theme theme "terminal" then
      let allBtn := q "<button data-tag-btn='__all__' class='term-tag term-tag-active'>*</button>" in
      let tagBtns := join EmptyString (List.map (fun t => q "<button data-tag-btn='" ++ esc t ++ q "' class='term-tag'>#" ++ esc t ++ "</button>") allTags) in
      q "<div class='term-tag-filter term-block' style='padding:10px'>
  <span class='term-prompt-mini'>$</span> grep --tag:
  <div style='display:flex;gap:6px;flex-wrap:wrap;margin-top:8px'>" ++ allBtn ++ tagBtns ++ "</div>
</div>"
    else if is_theme theme "kawase-blog" then
      let allBtn := q "<button data-tag-btn='__all__' class='kawase-tag kawase-tag-active'>すべて</button>" in
      let tagBtns := join EmptyString (List.map (fun t => q "<button data-tag-btn='" ++ esc t ++ q "' class='kawase-tag'>#" ++ esc t ++ "</button>") allTags) in
      q "<div class='kawase-tag-filter'>
  <div class='kawase-tag-filter-heading'>✦ タグで絞り込み</div>
  <div class='kawase-tag-filter-wrap'>" ++ allBtn ++ tagBtns ++ "</div>
</div>"
    else if is_theme theme "sake-modern" then
      let allBtn := q "<button data-tag-btn='__all__' class='sake-tag sake-tag-active'>すべて</button>" in
      let tagBtns := join EmptyString (List.map (fun t => q "<button data-tag-btn='" ++ esc t ++ q "' class='sake-tag'>#" ++ esc t ++ "</button>") allTags) in
      q "<div class='sake-tag-filter'>
  <div class='sake-tag-filter-heading'>✦ タグで絞り込み</div>
  <div class='sake-tag-filter-wrap'>" ++ allBtn ++ tagBtns ++ "</div>
</div>"
    else
      let allBtn := q "<button data-tag-btn='__all__' class='word-tag word-tag-active'>すべて</button>" in
      let tagBtns := join EmptyString (List.map (fun t => q "<button data-tag-btn='" ++ esc t ++ q "' class='word-tag'>#" ++ esc t ++ "</button>") allTags) in
      q "<div class='word-section'>
  <div class='word-section-heading'>🏷️ タグで絞り込み</div>
  <div style='display:flex;gap:6px;flex-wrap:wrap'>" ++ allBtn ++ tagBtns ++ q "</div>
</div>
<div class='word-section-break'></div>".

(** [buildNavCard(post, label, blogSlug, theme)]; [None] is an absent
    neighbour ([null]). *)
Definition buildNavCard (post : option Post) (label blogSlug : string) (theme : JsValue)
  : string :=
  match post with
  | None => "<div></div>"
  | Some post =>
      if is_theme theme "retro-cosmic" then
        q "<a href='" ++ esc (JStr (slug post)) ++ q ".html' class='cosmic-nav-card'>
  <div class='cosmic-nav-label'>" ++ esc (JStr label) ++ q "</div>
  <div class='cosmic-nav-title'>" ++ esc (title post) ++ q "</div>
  <div class='cosmic-nav-date'>" ++ esc (JStr (date post)) ++ "</div>
</a>"
      else if is_theme theme "gym-log" then
        q "<a href='" ++ esc (JStr (slug post)) ++ q ".html' class='gym-nav-card'>
  <div class='gym-nav-label'>" ++ esc (JStr label) ++ q "</div>
  <div class='gym-nav-title'>" ++ esc (title post) ++ q "</div>
  <div class='gym-nav-date'>" ++ esc (JStr (date post)) ++ "</div>
</a>"
      else if is_theme theme "love-column" then
        q "<a href='" ++ esc (JStr (slug post)) ++ q ".html' class='love-nav-card'>
  <div class='love-nav-label'>" ++ esc (JStr label) ++ q "</div>
  <div class='love-nav-title'>" ++ esc (title post) ++ q "</div>
  <div class='love-nav-date'>" ++ esc (JStr (date post)) ++ "</div>
</a>"
      else if is_theme theme "izakaya" then
        q "<a href='" ++ esc (JStr (slug post)) ++ q ".html' class='izakaya-nav-card'>
  <div class='izakaya-nav-label'>" ++ esc (JStr label) ++ q "</div>
  <div class='izakaya-nav-title'>" ++ esc (title post) ++ q "</div>
  <div class='izakaya-nav-date'>" ++ esc (JStr (date post)) ++ "</div>
</a>"
      else if is_theme theme "onsen-cosmos" then
        q "<a href='" ++ esc (JStr (slug post)) ++ q ".html' class='onsen-nav-card'>
  <div class='onsen-nav-label'>" ++ esc (JStr label) ++ q "</div>
  <div class='onsen-nav-title'>" ++ esc (title post) ++ q "</div>
  <div class='onsen-nav-date'>" ++ esc (JStr (date post)) ++ "</div>
</a>"
      else if is_theme theme "comedy-zine" then
        q "<a href='" ++ esc (JStr (slug post)) ++ q ".html' class='zine-nav-card'>
  <div class='zine-nav-label'>" ++ esc (JStr label) ++ q "</div>
  <div class='zine-nav-title'>" ++ esc (title post) ++ q "</div>
  <div class='zine-nav-date'>" ++ esc (JStr (date post)) ++ "</div>
</a>"
      else if is_theme theme "academy-log" then
        q "<a href='" ++ esc (JStr (slug post)) ++ q ".html' class='academy-nav-card'>
  <div class='academy-nav-label'>" ++ esc (JStr label) ++ q "</div>
  <div class='academy-nav-title'>" ++ esc (title post) ++ q "</div>
  <div class='academy-nav-date'>" ++ esc (JStr (date post)) ++ "</div>
</a>"
      else if is_theme theme "terminal" then
        q "<a href='" ++ esc (JStr (slug post)) ++ q ".html' class='term-nav-card'>
  <div class='term-nav-label'>" ++ esc (JStr label) ++ q "</div>
  <div class='term-nav-title'>" ++ esc (title post) ++ q "</div>
  <div class='term-nav-date'>" ++ esc (JStr (date post)) ++ "</div>
</a>"
      else if is_theme theme "kawase-blog" then
        q "<a href='" ++ esc (JStr (slug post)) ++ q ".html' class='kawase-nav-card'>
  <div class='kawase-nav-label'>" ++ esc (JStr label) ++ q "</div>
  <div class='kawase-nav-title'>" ++ esc (title post) ++ q "</div>
  <div class='kawase-nav-date'>" ++ esc (JStr (date post)) ++ "</div>
</a>"
      else if is_theme theme "sake-modern" then
        q "<a href='" ++ esc (JStr (slug post)) ++ q ".html' class='sake-nav-card'>
  <div class='sake-nav-label'>" ++ esc (JStr label) ++ q "</div>
  <div class='sake-nav-title'>" ++ esc (title post) ++ q "</div>
  <div class='sake-nav-date'>" ++ esc (JStr (date post)) ++ "</div>
</a>"
      else
        q "<a href='" ++ esc (JStr (slug post)) ++ q ".html' class='word-blog-card' style='padding:12px'>
  <div style='font-size:0.8rem;color:#666;margin-bottom:6px'>" ++ esc (JStr label) ++ q "</div>
  <div class='word-bold word-text-blue' style='font-size:0.9rem'>" ++ esc (title post) ++ q "</div>
  <div style='font-size:0.8rem;color:#666;margin-top:4px'>" ++ esc (JStr (date post)) ++ "</div>
</a>"
  end.

(** [buildTagsHtml(tags, theme)], for an array [tags]. *)
Definition buildTagsHtml (tags : list JsValue) (theme : JsValue) : string :=
  if Nat.eqb (List.length tags) 0 then EmptyString
  else
    if is_theme theme "retro-cosmic" then
      join EmptyString (List.map (fun t => q "<span class='cosmic-tag'>#" ++ esc t ++ "</span>") tags)
    else if is_theme theme "terminal" then
      join EmptyString (List.map (fun t => q "<span class='term-tag'>#" ++ esc t ++ "</span>") tags)
    else if is_theme theme "gym-log" then
      join EmptyString (List.map (fun t => q "<span class='gym-tag'>#" ++ esc t ++ "</span>") tags)
    else if is_theme theme "love-column" then
      join EmptyString (List.map (fun t => q "<span class='love-tag'>#" ++ esc t ++ "</span>") tags)
    else if is_theme theme "izakaya" then
      join EmptyString (List.map (fun t => q "<span class='izakaya-tag'>#" ++ esc t ++ "</span>") tags)
    else if is_theme theme "onsen-cosmos" then
      join EmptyString (List.map (fun t => q "<span class='onsen-tag'>#" ++ esc t ++ "</span>") tags)
    else if is_theme theme "comedy-zine" then
      join EmptyString (List.map (fun t => q "<span class='zine-tag'>#" ++ esc t ++ "</span>") tags)
    else if is_theme theme "academy-log" then
      join EmptyString (List.map (fun t => q "<span class='academy-tag'>#" ++ esc t ++ "</span>") tags)
    else if is_theme theme "kawase-blog" then
      join EmptyString (List.map (fun t => q "<span class='kawase-tag'>#" ++ esc t ++ "</span>") tags)
    else if is_theme theme "sake-modern" then
      join EmptyString (List.map (fun t => q "<span class='sake-tag'>#" ++ esc t ++ "</span>") tags)
    else
      join EmptyString (List.map (fun t => q "<span class='word-tag'>#" ++ esc t ++ "</span>") tags).

(* ===================================================================== *)
(** ** The tag filter of the generated pages *)
(* ===================================================================== *)

(** The part of the document that the script of the page reads and writes:
    the elements with a [data-tag-btn] attribute, with their class lists,
    and the elements with a [data-post-tags] attribute, with the [display]
    property of their style. *)
Record Button : Type := mkButton { data_tag_btn : string; classList : list string }.
Record Card : Type := mkCard { data_post_tags : string; display : string }.
Record Document : Type := mkDocument { tagButtons : list Button; postCards : list Card }.

(** [classList.contains(c)], [classList.remove(...cs)], [classList.add(c)]. *)
Definition classList_contains (b : Button) (c : string) : bool :=
  existsb (String.eqb c) (classList b).

Definition classList_remove (cs : list string) (b : Button) : Button :=
  mkButton (data_tag_btn b)
    (List.filter (fun c => negb (existsb (String.eqb c) cs)) (classList b)).

Definition classList_add (c : string) (b : Button) : Button :=
  if classList_contains b c then b else mkButton (data_tag_btn b) (classList b ++ [c])%list.

(** [tags.includes(tag)] on an array of strings. *)
Definition includes (l : list string) (s : string) : bool :=
  existsb (String.eqb s) l.

(** The class that the handler adds to the clicked button. *)
Definition active_class (btn : Button) : string :=
  if classList_contains btn "cosmic-tag" then "cosmic-tag-active"
  else if classList_contains btn "term-tag" then "term-tag-active"
  else "word-tag-active".

(** The handler of a click on the button of index [i] (no handler exists
    for an index that is no button). *)
Definition click (doc : Document) (i : nat) : Document :=
  match tagButtons doc !! i with
  | None => doc
  | Some btn =>
      let selectedTag := data_tag_btn btn in
      let cleared :=
        List.map (classList_remove ["word-tag-active"; "cosmic-tag-active"; "term-tag-active"])
          (tagButtons doc) in
      let buttons := alter (fun b => classList_add (active_class b) b) i cleared in
      let cards :=
        List.map
          (fun card =>
             let tags := split_on "," (data_post_tags card) in
             if String.eqb selectedTag "__all__" || includes tags selectedTag
             then mkCard (data_post_tags card) EmptyString
             else mkCard (data_post_tags card) "none")
          (postCards doc) in
      mkDocument buttons cards
  end.

(** The text that [esc(v)] writes in escaped form, which is the value that
    the markup declares for the attribute or the text. *)
Definition written_text (v : JsValue) : string :=
  if negb (truthy v) && negb (is_zero v) then EmptyString else ToString v.

(** The class attribute of the button for all posts and of the button of a
    tag in the markup of [buildTagFilterHtml], per theme. *)
Definition all_button_classes (theme : JsValue) : list string :=
  if is_theme theme "retro-cosmic" then ["cosmic-tag"; "cosmic-tag-active"]
  else if is_theme theme "gym-log" then ["gym-tag"]
  else if is_theme theme "love-column" then ["love-tag"]
  else if is_theme theme "izakaya" then ["izakaya-tag"]
  else if is_theme theme "onsen-cosmos" then ["onsen-tag"]
  else if is_theme theme "comedy-zine" then ["zine-tag"]
  else if is_theme theme "academy-log" then ["academy-tag"]
  else if is_theme theme "terminal" then ["term-tag"; "term-tag-active"]
  else if is_theme theme "kawase-blog" then ["kawase-tag"; "kawase-tag-active"]
  else if is_theme theme "sake-modern" then ["sake-tag"; "sake-tag-active"]
  else ["word-tag"; "word-tag-active"].

Definition tag_button_classes (theme : JsValue) : list string :=
  if is_theme theme "retro-cosmic" then ["cosmic-tag"]
  else if is_theme theme "gym-log" then ["gym-tag"]
  else if is_theme theme "love-column" then ["love-tag"]
  else if is_theme theme "izakaya" then ["izakaya-tag"]
  else if is_theme theme "onsen-cosmos" then ["onsen-tag"]
  else if is_theme theme "comedy-zine" then ["zine-tag"]
  else if is_theme theme "academy-log" then ["academy-tag"]
  else if is_theme theme "terminal" then ["term-tag"]
  else if is_theme theme "kawase-blog" then ["kawase-tag"]
  else if is_theme theme "sake-modern" then ["sake-tag"]
  else ["word-tag"].

(** The buttons and the cards that the two fragments declare, read off the
    return values of [buildTagFilterHtml] and [buildPostListHtml] with
    every attribute value as the text that was escaped, no card being
    hidden.  It is the document of the two fragments taken by themselves,
    not that of the page that [build] writes: there the fragments are
    values of a template that [render] fills, which can change or repeat
    them (a replacement pattern in a tag, the token of a later key in a
    title), and a browser reads a carriage return in an attribute as a
    line feed. *)
Definition page_document (posts : list Post) (theme : JsValue) : Document :=
  let allTags := uniq [] (flat_map tags posts) in
  mkDocument
    (if Nat.eqb (List.length allTags) 0 then []
     else mkButton "__all__" (all_button_classes theme)
          :: List.map (fun t => mkButton (written_text t) (tag_button_classes theme)) allTags)
    (List.map (fun post => mkCard (written_text (JStr (Array_join "," (tags post)))) EmptyString)
       posts).


(* ===================================================================== *)
(** ** The page assembler: the neighbours of a post *)
(* ===================================================================== *)

(** In the loop of [build] over the posts of a blog, for the post of index
    [i]: [i < posts.length - 1 ? posts[i + 1] : null]. *)
Definition prevPost (posts : list Post) (i : nat) : option Post :=
  if Z.of_nat i <? Z.of_nat (List.length posts) - 1 then posts !! (i + 1)%nat else None.

(** [i > 0 ? posts[i - 1] : null]. *)
Definition nextPost (posts : list Post) (i : nat) : option Post :=
  if 0 <? Z.of_nat i then posts !! (i - 1)%nat else None.
(* ===================================================================== *)
(** ** Definitions used to state the properties *)
(* ===================================================================== *)

(** *** Escaping *)

(** The entity that stands for a character in escaped text: one of the four
    entities for the four characters that HTML reads as markup, the
    character itself for any other. *)
Definition entity (c : ascii) : string :=
  if Ascii.eqb c "&" then "&amp;"
  else if Ascii.eqb c "<" then "&lt;"
  else if Ascii.eqb c ">" then "&gt;"
  else if Ascii.eqb c DQ then "&quot;"
  else String c EmptyString.

(** Escaping as the specification words it: every character of the text
    replaced by its entity, once. *)
Fixpoint escape_chars (s : string) : string :=
  match s with
  | EmptyString => EmptyString
  | String c r => entity c ++ escape_chars r
  end.

(** [s] holds one of the four characters. *)
Fixpoint has_sensitive (s : string) : bool :=
  match s with
  | EmptyString => false
  | String c r =>
      Ascii.eqb c "&" || Ascii.eqb c "<" || Ascii.eqb c ">" || Ascii.eqb c DQ
      || has_sensitive r
  end.

(** The replacement of every [c] of a text by [r], taken literally. *)
Fixpoint subst_char (c : ascii) (r s : string) : string :=
  match s with
  | EmptyString => EmptyString
  | String x s' => (if Ascii.eqb x c then r else String x EmptyString) ++ subst_char c r s'
  end.

(** The scan of [replaceAll_scan] for a replacement taken literally. *)
Fixpoint subst_scan (pat r s : string) (skip : nat) : string :=
  match s with
  | EmptyString => EmptyString
  | String c s' =>
      match skip with
      | S k => subst_scan pat r s' k
      | O =>
          if String.prefix pat s then r ++ subst_scan pat r s' (String.length pat - 1)
          else String c (subst_scan pat r s' O)
      end
  end.

(** The four passes of [esc], each taken literally. *)
Definition esc_passes (s : string) : string :=
  subst_char DQ "&quot;"
    (subst_char ">" "&gt;" (subst_char "<" "&lt;" (subst_char "&" "&amp;" s))).

(** *** List tags *)

(** The opening and closing tags of the two kinds of list; their
    occurrences in a text are counted by [count_occ]. *)
Definition list_tags : list string := ["<ol>"; "</ol>"; "<ul>"; "</ul>"].

(** No list tag of [s ++ rest] lies across the end of [s]. *)
Definition splits (s : string) : Prop :=
  forall p, In p list_tags ->
  forall rest, count_occ p (s ++ rest) = (count_occ p s + count_occ p rest)%nat.

(** [s] splits and holds no list tag. *)
Definition plain (s : string) : Prop :=
  splits s /\ forall p, In p list_tags -> count_occ p s = O.

(** The text built so far has one opening tag more than closing tags for
    each list that is open, and as many for the other. *)
Definition balanced (st : MdState) : Prop :=
  splits (html st)
  /\ count_occ "<ol>" (html st)
     = (count_occ "</ol>" (html st) + (if inOl st then 1 else 0))%nat
  /\ count_occ "<ul>" (html st)
     = (count_occ "</ul>" (html st) + (if inUl st then 1 else 0))%nat.

(** *** Templates *)

(** A template seen as a sequence of pieces: text, and placeholders
    [{{name}}]. *)
Inductive Piece : Type :=
  | Text (s : string)
  | Hole (name : string).

Definition piece_text (p : Piece) : string :=
  match p with
  | Text s => s
  | Hole name => placeholder name
  end.

(** The template string that the pieces make. *)
Fixpoint template_of (ps : list Piece) : string :=
  match ps with
  | [] => EmptyString
  | p :: r => piece_text p ++ template_of r
  end.

(** The value of a key in the pairs of a mapping. *)
Fixpoint lookup_entry (key : string) (vars : list (string * JsValue)) : option JsValue :=
  match vars with
  | [] => None
  | e :: r => if String.eqb key (fst e) then Some (snd e) else lookup_entry key r
  end.

(** The string form of a value of the mapping, [null] and [undefined]
    giving the empty string. *)
Definition value_text (v : JsValue) : string := ToString (or_empty v).

(** Substitution as the specification words it: every placeholder whose
    name is a key becomes the string form of the value, every other piece
    stays. *)
Definition fill (vars : list (string * JsValue)) (p : Piece) : Piece :=
  match p with
  | Text s => Text s
  | Hole name =>
      match lookup_entry name vars with
      | Some v => Text (value_text v)
      | None => Hole name
      end
  end.

Definition substitute (vars : list (string * JsValue)) (ps : list Piece) : string :=
  template_of (List.map (fill vars) ps).

(** One pass: the placeholders of one key become the text [r]. *)
Definition pass (key r : string) (p : Piece) : Piece :=
  match p with
  | Text s => Text s
  | Hole name => if String.eqb name key then Text r else Hole name
  end.

(** [s] holds no brace. *)
Definition brace_free (s : string) : bool :=
  negb (has_char "{" s) && negb (has_char "}" s).

(** Text without an opening brace, placeholder names without braces. *)
Definition wf_piece (p : Piece) : bool :=
  match p with
  | Text s => negb (has_char "{" s)
  | Hole name => brace_free name
  end.

(** Keys without braces, values whose string form has neither an opening
    brace nor a dollar sign. *)
Definition wf_entry (e : string * JsValue) : bool :=
  brace_free (fst e)
  && negb (has_char "{" (value_text (snd e)))
  && negb (has_char "$" (value_text (snd e))).

(** A mapping whose values are given piece by piece: the entry of [render]
    for a key and the pieces of its value. *)
Definition entry_of (e : string * list Piece) : string * JsValue :=
  (fst e, JStr (template_of (snd e))).

(** One pass, on pieces: the placeholders of [key] become the pieces [rs]. *)
Definition bind_piece (key : string) (rs : list Piece) (p : Piece) : list Piece :=
  match p with
  | Text s => [Text s]
  | Hole name => if String.eqb name key then rs else [Hole name]
  end.

(** [s] holds one of the replacement patterns [$$], [$&], [$`] and [$'],
    the only texts that [replaceAll] does not take as they are in a
    replacement when the pattern is a string. *)
Fixpoint has_pattern (s : string) : bool :=
  match s with
  | EmptyString => false
  | String c r =>
      (Ascii.eqb c "$"
       && match r with
          | String d _ =>
              Ascii.eqb d "$" || Ascii.eqb d "&" || Ascii.eqb d "`" || Ascii.eqb d "'"
          | EmptyString => false
          end)
      || has_pattern r
  end.

(** The number of placeholders of [key] among the pieces. *)
Definition count_holes (key : string) (ps : list Piece) : nat :=
  List.length
    (List.filter (fun p => match p with
                           | Hole name => String.eqb name key
                           | Text _ => false
                           end) ps).

(** What the passes of the keys of [entries], one after another, make of a
    piece: the pass of a key turns a placeholder of the key into the pieces
    of its value, and these pieces are read by the passes of the keys that
    follow, and by no other. *)
Fixpoint resolve (entries : list (string * list Piece)) (p : Piece) : list Piece :=
  match entries with
  | [] => [p]
  | e :: rest => flat_map (resolve rest) (bind_piece (fst e) (snd e) p)
  end.

(** At the pass of every key, the token of the key starts, in the text
    reached so far, at the placeholders of the key among the pieces and
    nowhere else: no text holds it and none lies across two pieces. *)
Fixpoint tokens_at_holes (entries : list (string * list Piece)) (ps : list Piece) : bool :=
  match entries with
  | [] => true
  | e :: rest =>
      Nat.eqb (count_occ (placeholder (fst e)) (template_of ps)) (count_holes (fst e) ps)
      && tokens_at_holes rest (flat_map (bind_piece (fst e) (snd e)) ps)
  end.

(** The entry of a key whose value is read as one text. *)
Definition text_entry (e : string * JsValue) : string * list Piece :=
  (fst e, [Text (value_text (snd e))]).

(** *** Posts *)

(** [a] comes before [b] in a list sorted by descending date. *)
Definition newer (a b : Post) : Prop := String.ltb (date b) (date a) = true.

(** The order of the part already sorted, which [insert_sorted] holds last
    element first: dates ascending. *)
Definition older (a b : Post) : Prop := String.ltb (date a) (date b) = true.

(** The message of the loader for the file [file] of the blog [blogSlug]
    and the names [missing]. *)
Definition missing_message (blogSlug file : string) (missing : list string) : string :=
  "❌ Frontmatter必須項目不足: " ++ blogSlug ++ "/posts/" ++ file
  ++ " (不足: " ++ join ", " missing ++ ")".

(** A [path.join] for the examples: the parts with a slash between them. *)
Definition join_slash (parts : list string) : string := join "/" parts.

Fixpoint lookup_parsed (raw : string) (table : list (string * Parsed)) : option Parsed :=
  match table with
  | [] => None
  | e :: r => if String.eqb raw (fst e) then Some (snd e) else lookup_parsed raw r
  end.

(** A parser given by a table from the text of a file to what it parses
    to; it throws on any other text. *)
Definition matter_of (table : list (string * Parsed)) (raw : string) : Outcome Parsed :=
  match lookup_parsed raw table with
  | Some parsed => Done parsed
  | None => Throw
  end.

(** The frontmatter of a file with the given properties. *)
Definition frontmatter (fields : list (string * JsValue)) : Parsed :=
  mkParsed (list_to_map fields) "body".

(** Three blogs: [moon] with posts dated 2024-01-01, 2024-03-01 and
    2024-02-01 and a file that is no post; [draft] with two posts and a
    draft that has all its fields; [broken] with a post and a draft without
    author. *)
Definition example_fs : gmap string Node :=
  list_to_map
    [("content/blogs/moon/posts", Dir ["a.md"; "b.md"; "c.md"; "notes.txt"]);
     ("content/blogs/moon/posts/a.md", File "A");
     ("content/blogs/moon/posts/b.md", File "B");
     ("content/blogs/moon/posts/c.md", File "C");
     ("content/blogs/draft/posts", Dir ["a.md"; "d.md"; "b.md"]);
     ("content/blogs/draft/posts/a.md", File "A");
     ("content/blogs/draft/posts/b.md", File "B");
     ("content/blogs/draft/posts/d.md", File "D");
     ("content/blogs/broken/posts", Dir ["a.md"; "e.md"]);
     ("content/blogs/broken/posts/a.md", File "A");
     ("content/blogs/broken/posts/e.md", File "E")].

(** What the parser makes of the texts of these files. *)
Definition example_matter : string -> Outcome Parsed :=
  matter_of
    [("A", frontmatter [("title", JStr "First"); ("date", JStr "2024-01-01");
                        ("author", JStr "mizuki")]);
     ("B", frontmatter [("title", JStr "Second"); ("date", JStr "2024-03-01");
                        ("author", JStr "mizuki"); ("tags", JArr [JStr "moon"])]);
     ("C", frontmatter [("title", JStr "Third"); ("date", JStr "2024-02-01");
                        ("author", JStr "mizuki")]);
     ("D", frontmatter [("title", JStr "Draft"); ("date", JStr "2024-04-01");
                        ("author", JStr "mizuki"); ("draft", JBool true)]);
     ("E", frontmatter [("title", JStr "Draft"); ("date", JStr "2024-04-01");
                        ("draft", JBool true)])].

(** *** Themes and the tag filter *)

(** [theme] is one of the themes with a branch of their own. *)
Definition known_theme (theme : JsValue) : bool :=
  existsb (is_theme theme) named_themes.

(** A post with one tag, for the examples of the tag filter. *)
Definition moon_post : Post :=
  mkPost "landing" (JStr "Landing") "2024-03-01" (JStr "mizuki") (JStr EmptyString)
    [JStr "moon"] "body".

(** A card is shown when its [display] is not [none]. *)
Definition shown (card : Card) : bool := negb (String.eqb (display card) "none").

(** [x] occurs in [s]. *)
Definition occurs (x s : string) : Prop := exists pre post, s = pre ++ x ++ post.

(** The start of the markup of a filter button: its two attributes, the
    value of the first in escaped form. *)
Definition button_markup (b : Button) : string :=
  q "<button data-tag-btn='" ++ escape_chars (data_tag_btn b)
  ++ q "' class='" ++ join " " (classList b) ++ dq.

(** The attribute of the markup of a card that holds its tags. *)
Definition card_markup (card : Card) : string :=
  q " data-post-tags='" ++ escape_chars (data_post_tags card) ++ dq.

(** The first [n] characters of [s]. *)
Fixpoint take_chars (n : nat) (s : string) : string :=
  match n, s with
  | S k, String c r => String c (take_chars k r)
  | _, _ => EmptyString
  end.

(* ===================================================================== *)
(** ** Definitions used to state further properties *)
(* ===================================================================== *)

(** *** The tags of the block markup renderer *)

(** The list tags of a text, in the order in which they occur. *)
Inductive ListTag : Type := OpenOl | CloseOl | OpenUl | CloseUl.

Definition list_tag_at (s : string) : list ListTag :=
  if String.prefix "<ol>" s then [OpenOl]
  else if String.prefix "</ol>" s then [CloseOl]
  else if String.prefix "<ul>" s then [OpenUl]
  else if String.prefix "</ul>" s then [CloseUl]
  else [].

Fixpoint list_tag_seq (s : string) : list ListTag :=
  match s with
  | EmptyString => []
  | String _ r => (list_tag_at s ++ list_tag_seq r)%list
  end.

(** A sequence of list tags made of complete lists, one after the other:
    each opening tag is followed at once by the closing tag of its kind. *)
Fixpoint paired (l : list ListTag) : bool :=
  match l with
  | [] => true
  | OpenOl :: CloseOl :: r => paired r
  | OpenUl :: CloseUl :: r => paired r
  | _ => false
  end.

(** The list tag still open, if any. *)
Definition pending (st : MdState) : list ListTag :=
  if inOl st then [OpenOl] else if inUl st then [OpenUl] else [].

(** No list tag of [s ++ rest] lies across the end of [s], for the
    sequence of tags. *)
Definition seq_splits (s : string) : Prop :=
  forall rest, list_tag_seq (s ++ rest) = (list_tag_seq s ++ list_tag_seq rest)%list.

(** The lists closed so far are complete and at most one list is open. *)
Definition well_paired (st : MdState) : Prop :=
  seq_splits (html st)
  /\ inOl st && inUl st = false
  /\ exists complete,
       paired complete = true
       /\ list_tag_seq (html st) = (complete ++ pending st)%list.

(** The tags that the renderer writes. *)
Definition md_tags : list string :=
  ["<h1>"; "</h1>"; "<h2>"; "</h2>"; "<h3>"; "</h3>"; "<ol>"; "</ol>";
   "<ul>"; "</ul>"; "<li>"; "</li>"; "<p>"; "</p>"].

(** Every [<] of [s] starts one of the [tags]. *)
Fixpoint only_tags (tags : list string) (s : string) : bool :=
  match s with
  | EmptyString => true
  | String c r =>
      (if Ascii.eqb c "<" then existsb (fun t => String.prefix t s) tags else true)
      && only_tags tags r
  end.

(** [s] holds no list tag, and none lies across its end. *)
Definition seq_plain (s : string) : Prop :=
  forall rest, list_tag_seq (s ++ rest) = list_tag_seq rest.

(** Every [<] of [s] starts a tag of the renderer and [s] holds no double
    quote. *)
Definition md_clean (s : string) : Prop :=
  only_tags md_tags s = true /\ has_char DQ s = false.

(** The state [st] reached after the text [h] instead of the empty text. *)
Definition prepend (h : string) (st : MdState) : MdState :=
  mkMd (h ++ html st) (inOl st) (inUl st).

(** *** Templates *)

(** [key] is a key of the mapping. *)
Definition is_key (key : string) (vars : list (string * JsValue)) : bool :=
  existsb (fun e => String.eqb key (fst e)) vars.

(** No piece is the placeholder of [key]. *)
Definition no_hole (key : string) (ps : list Piece) : bool :=
  forallb (fun p => match p with
                    | Hole name => negb (String.eqb name key)
                    | Text _ => true
                    end) ps.

(** *** Posts *)

(** The posts that one file of the directory gives, when its turn of the
    loop ends well: none for a file that is no post or a draft, one for a
    post. *)
Definition posts_of_file (path_join : list string -> string) (CONTENT : string)
    (fs : gmap string Node) (blogSlug : string) (matter : string -> Outcome Parsed)
    (file : string) : list Post :=
  match loadFile path_join CONTENT fs blogSlug matter file [] with
  | Done posts => posts
  | _ => []
  end.

(** The turn of the loop for the file ends well. *)
Definition file_ok (path_join : list string -> string) (CONTENT : string)
    (fs : gmap string Node) (blogSlug : string) (matter : string -> Outcome Parsed)
    (file : string) : Prop :=
  exists posts, loadFile path_join CONTENT fs blogSlug matter file [] = Done posts.

(** A post of the slug [s] dated [d], to state examples. *)
Definition dated (s d : string) : Post :=
  mkPost s (JStr s) d (JStr "mizuki") (JStr EmptyString) [] "body".

(** *** Markup *)

(** The characters that delimit a tag or the value of an attribute in the
    markup that the builders write. *)
Definition is_delimiter (c : ascii) : bool :=
  Ascii.eqb c "<" || Ascii.eqb c ">" || Ascii.eqb c DQ.

(** The delimiters of [s], in their order. *)
Fixpoint delimiters (s : string) : string :=
  match s with
  | EmptyString => EmptyString
  | String c r => if is_delimiter c then String c (delimiters r) else delimiters r
  end.

(** *** The tag filter *)

(** The classes that the handler of a click removes from every button. *)
Definition handler_classes : list string :=
  ["word-tag-active"; "cosmic-tag-active"; "term-tag-active"].

(** The classes of a button that are among those of the handler. *)
Definition handler_classes_of (b : Button) : list string :=
  List.filter (fun c => existsb (String.eqb c) handler_classes) (classList b).

(** The active class of the filter of a theme, for the themes whose
    active class is one that the handler moves. *)
Definition moved_active_class (theme : JsValue) : option string :=
  if is_theme theme "retro-cosmic" then Some "cosmic-tag-active"
  else if is_theme theme "terminal" then Some "term-tag-active"
  else if existsb (is_theme theme) named_themes then None
  else Some "word-tag-active".

(* ===================================================================== *)
(** ** Properties of the escaper *)
(* ===================================================================== *)

(** *** Strings *)

Lemma append_cons (c : ascii) (a b : string) : String c a ++ b = String c (a ++ b).
Proof. reflexivity. Qed.

Lemma append_nil_l (s : string) : EmptyString ++ s = s.
Proof. reflexivity. Qed.

Lemma append_nil_r (s : string) : s ++ EmptyString = s.
Proof.
  induction s as [|c s IH]; [reflexivity |].
  now rewrite append_cons, IH.
Qed.

Lemma append_assoc (a b c : string) : (a ++ b) ++ c = a ++ (b ++ c).
Proof.
  induction a as [|x a IH]; [reflexivity |].
  now rewrite !append_cons, IH.
Qed.

Lemma length_append (a b : string) :
  String.length (a ++ b) = (String.length a + String.length b)%nat.
Proof.
  induction a as [|x a IH]; [reflexivity |].
  rewrite append_cons. simpl. now rewrite IH.
Qed.

Lemma has_char_append (c : ascii) (a b : string) :
  has_char c (a ++ b) = has_char c a || has_char c b.
Proof.
  induction a as [|x a IH]; [reflexivity |].
  rewrite append_cons. simpl. rewrite IH. now rewrite orb_assoc.
Qed.

Lemma prefix_nil (s : string) : String.prefix EmptyString s = true.
Proof. now destruct s. Qed.

Lemma prefix_cons (a b : ascii) (p s : string) :
  String.prefix (String a p) (String b s) = Ascii.eqb a b && String.prefix p s.
Proof.
  simpl. destruct (ascii_dec a b) as [->|n].
  - now rewrite Ascii.eqb_refl.
  - apply Ascii.eqb_neq in n. now rewrite n.
Qed.

(** *** The replacement text *)

Lemma GetSubstitution_plain (m b a r : string) :
  has_char "$" r = false -> GetSubstitution m b a r = r.
Proof.
  induction r as [|c r IH]; simpl; [reflexivity |].
  intros H. apply orb_false_elim in H as [Hc Hr].
  rewrite Hc. now rewrite IH.
Qed.

Lemma replaceAll_scan_plain (pat r : string) :
  has_char "$" r = false ->
  forall s before skip, replaceAll_scan pat r before s skip = subst_scan pat r s skip.
Proof.
  intros Hr. induction s as [|c s IH]; intros before skip; [reflexivity |].
  cbn [replaceAll_scan subst_scan].
  rewrite GetSubstitution_plain by exact Hr.
  destruct skip; now rewrite ?IH.
Qed.

Lemma subst_scan_char (c : ascii) (r s : string) :
  subst_scan (String c EmptyString) r s O = subst_char c r s.
Proof.
  induction s as [|x s IH]; [reflexivity |].
  cbn [subst_scan subst_char]. rewrite prefix_cons, prefix_nil, andb_true_r.
  rewrite (Ascii.eqb_sym c x). cbn [String.length Nat.sub].
  destruct (Ascii.eqb x c); rewrite IH; reflexivity.
Qed.

Lemma replaceAll_char (s : string) (c : ascii) (r : string) :
  has_char "$" r = false ->
  replaceAll s (String c EmptyString) r = subst_char c r s.
Proof.
  intros Hr. unfold replaceAll.
  now rewrite replaceAll_scan_plain, subst_scan_char.
Qed.

Lemma subst_char_append (c : ascii) (r a b : string) :
  subst_char c r (a ++ b) = subst_char c r a ++ subst_char c r b.
Proof.
  induction a as [|x a IH]; [reflexivity |].
  rewrite append_cons. simpl. now rewrite IH, append_assoc.
Qed.

(** *** The escaper *)

Lemma esc_passes_char (c : ascii) :
  esc_passes (String c EmptyString) = entity c.
Proof.
  destruct c as [[] [] [] [] [] [] [] []]; reflexivity.
Qed.

Lemma esc_passes_escape (s : string) : esc_passes s = escape_chars s.
Proof.
  induction s as [|c s IH]; [reflexivity |].
  change (String c s) with (String c EmptyString ++ s).
  unfold esc_passes in *. rewrite !subst_char_append.
  fold (esc_passes (String c EmptyString)). rewrite esc_passes_char.
  now rewrite IH.
Qed.

Lemma esc_truthy (v : JsValue) :
  negb (truthy v) && negb (is_zero v) = false ->
  esc v = escape_chars (ToString v).
Proof.
  intros H. unfold esc. rewrite H.
  rewrite <- esc_passes_escape. unfold esc_passes, dq.
  now rewrite !replaceAll_char.
Qed.

Lemma esc_JStr (s : string) : esc (JStr s) = escape_chars s.
Proof.
  destruct s as [|c s]; [reflexivity |].
  now apply esc_truthy.
Qed.

Lemma entity_not_nil (c : ascii) : entity c <> EmptyString.
Proof.
  unfold entity. repeat (destruct (Ascii.eqb c _); [discriminate |]). discriminate.
Qed.

Lemma escape_chars_nil (s : string) : escape_chars s = EmptyString -> s = EmptyString.
Proof.
  destruct s as [|c s]; [reflexivity |]. simpl. intros H.
  destruct (entity c) eqn:E; [now apply entity_not_nil in E | discriminate].
Qed.

Lemma entity_clean (c : ascii) :
  has_char "<" (entity c) = false /\ has_char ">" (entity c) = false
  /\ has_char DQ (entity c) = false.
Proof.
  destruct c as [[] [] [] [] [] [] [] []]; repeat split; reflexivity.
Qed.

Lemma escape_chars_clean (s : string) :
  has_char "<" (escape_chars s) = false /\ has_char ">" (escape_chars s) = false
  /\ has_char DQ (escape_chars s) = false.
Proof.
  induction s as [|c s (IH1 & IH2 & IH3)]; [repeat split; reflexivity |].
  simpl. rewrite !has_char_append, IH1, IH2, IH3.
  destruct (entity_clean c) as (-> & -> & ->). repeat split; reflexivity.
Qed.

Lemma esc_clean (v : JsValue) :
  has_char "<" (esc v) = false /\ has_char ">" (esc v) = false
  /\ has_char DQ (esc v) = false.
Proof.
  destruct (negb (truthy v) && negb (is_zero v)) eqn:E.
  - unfold esc. rewrite E. repeat split; reflexivity.
  - rewrite (esc_truthy v E). apply escape_chars_clean.
Qed.

(** C1 (as amended).  [esc] gives the empty string for every falsy value
    other than the number 0, that is for [null], [undefined], [false], NaN
    and the empty string; for any other value, the number 0 included, it
    gives the string form of the value with each of the four characters
    replaced by its entity, each character once, so that no entity is
    escaped again; the result is empty only in the first case or when the
    string form is empty, and holds none of [<], [>] and the double quote. *)
Theorem esc_spec (v : JsValue) :
  (truthy v = false -> is_zero v = false -> esc v = EmptyString)
  /\ (truthy v = true \/ is_zero v = true -> esc v = escape_chars (ToString v))
  /\ (esc v = EmptyString <->
      (truthy v = false /\ is_zero v = false) \/ ToString v = EmptyString)
  /\ has_char "<" (esc v) = false /\ has_char ">" (esc v) = false
  /\ has_char DQ (esc v) = false.
Proof.
  assert (Hfalsy : truthy v = false -> is_zero v = false -> esc v = EmptyString).
  { intros Ht Hz. unfold esc. now rewrite Ht, Hz. }
  assert (Hother : truthy v = true \/ is_zero v = true ->
                   esc v = escape_chars (ToString v)).
  { intros H. apply esc_truthy. destruct H as [-> | ->]; [reflexivity |].
    now rewrite andb_false_r. }
  split; [exact Hfalsy |]. split; [exact Hother |]. split; [| apply esc_clean].
  split.
  - intros He. destruct (truthy v) eqn:Ht; destruct (is_zero v) eqn:Hz.
    + right. apply escape_chars_nil. rewrite <- Hother by now left. exact He.
    + right. apply escape_chars_nil. rewrite <- Hother by now left. exact He.
    + right. apply escape_chars_nil. rewrite <- Hother by now right. exact He.
    + now left.
  - intros [[Ht Hz] | Hs]; [now apply Hfalsy |].
    destruct (truthy v) eqn:Ht; destruct (is_zero v) eqn:Hz;
      try (rewrite Hother by first [now left | now right]; now rewrite Hs).
    now apply Hfalsy.
Qed.

Lemma esc_spec_witness :
  esc (JBool false) = EmptyString
  /\ esc (JNum 0) = "0"
  /\ esc (JStr "a<b & c") = "a&lt;b &amp; c".
Proof.
  split; [| split].
  - apply (proj1 (esc_spec (JBool false))); reflexivity.
  - rewrite (proj1 (proj2 (esc_spec (JNum 0)))); [reflexivity | right; reflexivity].
  - rewrite (proj1 (proj2 (esc_spec (JStr "a<b & c")))); [reflexivity | left; reflexivity].
Defined.

(** C1, as stated, fails: [false] is neither [null] nor [undefined], its
    string form is not empty, and [esc] gives the empty string for it. *)
Lemma esc_false_is_empty :
  esc (JBool false) = EmptyString
  /\ JBool false <> JNull /\ JBool false <> JUndefined
  /\ ToString (JBool false) = "false".
Proof. repeat split; discriminate. Qed.

(** *** Escaping twice *)

Lemma entity_length (c : ascii) : (1 <= String.length (entity c))%nat.
Proof. destruct c as [[] [] [] [] [] [] [] []]; simpl; lia. Qed.

Lemma escape_chars_length (s : string) :
  (String.length s <= String.length (escape_chars s))%nat.
Proof.
  induction s as [|c s IH]; [reflexivity |].
  simpl. rewrite length_append. pose proof (entity_length c). lia.
Qed.

Lemma entity_amp (c : ascii) :
  has_sensitive (String c EmptyString) = true ->
  has_char "&" (entity c) = true /\ (2 <= String.length (entity c))%nat.
Proof.
  destruct c as [[] [] [] [] [] [] [] []]; simpl; try discriminate; intros _; split;
    (reflexivity || lia).
Qed.

Lemma has_sensitive_cons (c : ascii) (s : string) :
  has_sensitive (String c s) = has_sensitive (String c EmptyString) || has_sensitive s.
Proof. simpl. now rewrite orb_false_r. Qed.

Lemma escape_chars_amp (s : string) :
  has_sensitive s = true -> has_char "&" (escape_chars s) = true.
Proof.
  induction s as [|c s IH]; [discriminate |].
  rewrite has_sensitive_cons. cbn [escape_chars]. rewrite has_char_append.
  intros H. apply orb_true_iff in H as [H | H].
  - now rewrite (proj1 (entity_amp c H)).
  - rewrite (IH H). apply orb_true_r.
Qed.

Lemma escape_chars_longer (s : string) :
  has_sensitive s = true -> (String.length s < String.length (escape_chars s))%nat.
Proof.
  induction s as [|c s IH]; [discriminate |].
  rewrite has_sensitive_cons. cbn [escape_chars]. rewrite length_append.
  cbn [String.length]. pose proof (escape_chars_length s) as Ls.
  pose proof (entity_length c) as Lc.
  intros H. apply orb_true_iff in H as [H | H].
  - pose proof (proj2 (entity_amp c H)). lia.
  - specialize (IH H). lia.
Qed.

Lemma has_char_amp_sensitive (s : string) :
  has_char "&" s = true -> has_sensitive s = true.
Proof.
  induction s as [|c s IH]; [discriminate |]. simpl.
  destruct (Ascii.eqb c "&"); [reflexivity |]. simpl. intros H.
  rewrite (IH H). now rewrite !orb_true_r.
Qed.

(** C9.  Escaping is not idempotent: escaping once more any string that
    holds one of the four characters gives a different, longer string, the
    ampersands of the entities being escaped again; [<] is such a string. *)
Theorem esc_not_idempotent :
  (exists s : string, esc (JStr (esc (JStr s))) <> esc (JStr s))
  /\ (forall s : string,
        has_sensitive s = true -> esc (JStr (esc (JStr s))) <> esc (JStr s))
  /\ esc (JStr "<") = "&lt;" /\ esc (JStr (esc (JStr "<"))) = "&amp;lt;".
Proof.
  assert (H : forall s : string,
             has_sensitive s = true -> esc (JStr (esc (JStr s))) <> esc (JStr s)).
  { intros s Hs. rewrite !esc_JStr. intros E.
    pose proof (escape_chars_longer (escape_chars s)
                  (has_char_amp_sensitive _ (escape_chars_amp s Hs))) as L.
    rewrite E in L. lia. }
  split; [| split; [exact H | split; reflexivity]].
  exists "<". now apply H.
Qed.

Lemma esc_not_idempotent_witness :
  has_sensitive "a & b" = true
  /\ esc (JStr (esc (JStr "a & b"))) <> esc (JStr "a & b").
Proof.
  split; [reflexivity |].
  apply (proj1 (proj2 esc_not_idempotent)). reflexivity.
Defined.

(* ===================================================================== *)
(** ** Further properties of the escaper *)
(* ===================================================================== *)

(** *** Escaping and the text it comes from *)

Lemma entity_cases (c : ascii) :
  (c = "&"%char /\ entity c = "&amp;") \/ (c = "<"%char /\ entity c = "&lt;")
  \/ (c = ">"%char /\ entity c = "&gt;") \/ (c = DQ /\ entity c = "&quot;")
  \/ (entity c = String c EmptyString /\ Ascii.eqb c "&" = false
      /\ has_sensitive (String c EmptyString) = false).
Proof.
  unfold entity. cbn [has_sensitive].
  destruct (Ascii.eqb c "&") eqn:E1; [apply Ascii.eqb_eq in E1; auto |].
  destruct (Ascii.eqb c "<") eqn:E2; [apply Ascii.eqb_eq in E2; auto |].
  destruct (Ascii.eqb c ">") eqn:E3; [apply Ascii.eqb_eq in E3; auto |].
  destruct (Ascii.eqb c DQ) eqn:E4; [apply Ascii.eqb_eq in E4; auto 6 |].
  auto 10.
Qed.

Lemma escape_chars_append (a b : string) :
  escape_chars (a ++ b) = escape_chars a ++ escape_chars b.
Proof.
  induction a as [|c a IH]; [reflexivity |].
  rewrite append_cons. cbn [escape_chars]. now rewrite IH, append_assoc.
Qed.

Lemma escape_chars_plain (s : string) :
  has_sensitive s = false -> escape_chars s = s.
Proof.
  induction s as [|c s IH]; [reflexivity |].
  rewrite has_sensitive_cons. intros H. apply orb_false_elim in H as [Hc Hs].
  cbn [escape_chars]. rewrite (IH Hs).
  destruct (entity_cases c) as [[-> _] | [[-> _] | [[-> _] | [[-> _] | [-> _]]]]];
    (discriminate || reflexivity).
Qed.

(** No entity starts another one followed by anything: the escaped form
    of a character tells the character. *)
Lemma entity_prefix_free (c d : ascii) (a b : string) :
  entity c ++ a = entity d ++ b -> c = d /\ a = b.
Proof.
  destruct (entity_cases c) as [[-> ->] | [[-> ->] | [[-> ->] | [[-> ->] | (-> & Hc & _)]]]];
    destruct (entity_cases d) as [[-> ->] | [[-> ->] | [[-> ->] | [[-> ->] | (-> & Hd & _)]]]];
    cbv [String.append]; intros H;
    try discriminate;
    try (injection H as H; now split);
    try (injection H as H _; subst; discriminate).
Qed.

Lemma escape_chars_injective (a b : string) :
  escape_chars a = escape_chars b -> a = b.
Proof.
  revert b. induction a as [|c a IH]; intros [|d b] H.
  - reflexivity.
  - symmetry in H. now apply escape_chars_nil in H.
  - now apply escape_chars_nil in H.
  - cbn [escape_chars] in H. apply entity_prefix_free in H as [-> H].
    f_equal. now apply IH.
Qed.

(** X1.  A text that holds none of [&], [<], [>] and the double quote is
    returned as it is, and no other text is. *)
Theorem esc_unchanged_iff_plain (s : string) :
  esc (JStr s) = s <-> has_sensitive s = false.
Proof.
  rewrite esc_JStr. split.
  - intros H. destruct (has_sensitive s) eqn:E; [| reflexivity].
    pose proof (escape_chars_longer s E) as L. rewrite H in L. lia.
  - apply escape_chars_plain.
Qed.

(** X2.  Two different texts never have the same escaped form: the text
    can be read back from what [esc] writes. *)
Theorem esc_injective (a b : string) : a <> b -> esc (JStr a) <> esc (JStr b).
Proof. rewrite !esc_JStr. intros Hne H. now apply Hne, escape_chars_injective. Qed.

Lemma esc_injective_witness :
  esc (JStr "<") = "&lt;" /\ esc (JStr "<") <> esc (JStr "&lt;").
Proof.
  split; [reflexivity |]. apply (esc_injective "<" "&lt;"). discriminate.
Defined.

(** X3.  Escaping two texts and joining the results is escaping the joined
    text. *)
Theorem esc_append (a b : string) :
  esc (JStr (a ++ b)) = esc (JStr a) ++ esc (JStr b).
Proof. rewrite !esc_JStr. apply escape_chars_append. Qed.

(* ===================================================================== *)
(** ** Properties of the block markup renderer *)
(* ===================================================================== *)

Ltac each_tag H :=
  unfold list_tags in H; simpl in H;
  repeat (destruct H as [<- | H]); [.. | destruct H].

Lemma splits_nil : splits EmptyString.
Proof. intros p _ rest. reflexivity. Qed.

Lemma splits_append (a b : string) : splits a -> splits b -> splits (a ++ b).
Proof.
  intros Ha Hb p Hp rest.
  rewrite append_assoc, (Ha p Hp), (Hb p Hp), (Ha p Hp). lia.
Qed.

Lemma plain_append (a b : string) : plain a -> plain b -> plain (a ++ b).
Proof.
  intros [Ha Za] [Hb Zb]. split; [now apply splits_append |].
  intros p Hp. rewrite (Ha p Hp), (Za p Hp), (Zb p Hp). reflexivity.
Qed.

Lemma count_occ_no_lt (p' e rest : string) :
  has_char "<" e = false ->
  count_occ (String "<" p') (e ++ rest) = count_occ (String "<" p') rest.
Proof.
  induction e as [|x e IH]; [reflexivity |].
  cbn [has_char]. intros H. apply orb_false_elim in H as [Hx He].
  rewrite append_cons. cbn [count_occ]. rewrite prefix_cons.
  rewrite Ascii.eqb_sym, Hx. simpl. now apply IH.
Qed.

Lemma plain_no_lt (e : string) : has_char "<" e = false -> plain e.
Proof.
  intros He.
  assert (Z : forall p, In p list_tags -> forall rest,
                count_occ p (e ++ rest) = count_occ p rest).
  { intros p Hp rest. each_tag Hp; now apply count_occ_no_lt. }
  assert (Z0 : forall p, In p list_tags -> count_occ p e = O).
  { intros p Hp. rewrite <- (append_nil_r e). now rewrite (Z p Hp). }
  split; [| exact Z0].
  intros p Hp rest. now rewrite (Z p Hp), (Z0 p Hp).
Qed.

Lemma plain_esc (v : JsValue) : plain (esc v).
Proof. apply plain_no_lt. apply esc_clean. Qed.

Ltac plain_literal :=
  let p := fresh "p" in
  let Hp := fresh "Hp" in
  let rest := fresh "rest" in
  split; [intros p Hp rest | intros p Hp]; each_tag Hp; reflexivity.

Lemma plain_nl : plain nl.                       Proof. plain_literal. Qed.
Lemma plain_h3 : plain "<h3>".                   Proof. plain_literal. Qed.
Lemma plain_h3_end : plain ("</h3>" ++ nl).      Proof. plain_literal. Qed.
Lemma plain_h2 : plain "<h2>".                   Proof. plain_literal. Qed.
Lemma plain_h2_end : plain ("</h2>" ++ nl).      Proof. plain_literal. Qed.
Lemma plain_h1 : plain "<h1>".                   Proof. plain_literal. Qed.
Lemma plain_h1_end : plain ("</h1>" ++ nl).      Proof. plain_literal. Qed.
Lemma plain_li : plain "  <li>".                 Proof. plain_literal. Qed.
Lemma plain_li_end : plain ("</li>" ++ nl).      Proof. plain_literal. Qed.
Lemma plain_p : plain "<p>".                     Proof. plain_literal. Qed.
Lemma plain_p_end : plain ("</p>" ++ nl).        Proof. plain_literal. Qed.

Lemma splits_literal_tags :
  splits ("<ol>" ++ nl) /\ splits ("</ol>" ++ nl)
  /\ splits ("<ul>" ++ nl) /\ splits ("</ul>" ++ nl).
Proof.
  repeat split; intros p Hp rest; each_tag Hp; reflexivity.
Qed.

Create HintDb md.
#[local] Hint Resolve plain_append plain_esc plain_nl plain_h3 plain_h3_end plain_h2
  plain_h2_end plain_h1 plain_h1_end plain_li plain_li_end plain_p plain_p_end : md.

Lemma balanced_emit (st : MdState) (text : string) :
  balanced st -> plain text -> balanced (emit st text).
Proof.
  intros (S & Ho & Hu) [St Zt]. unfold balanced, emit. cbn [html inOl inUl].
  split; [now apply splits_append |].
  rewrite !S, !Zt by (simpl; tauto). lia.
Qed.

Ltac tag_op :=
  let S := fresh "S" in
  let Ho := fresh "Ho" in
  let Hu := fresh "Hu" in
  intros (S & Ho & Hu); cbn [html inOl inUl] in *;
  split; [apply splits_append; [exact S | apply splits_literal_tags] |];
  rewrite !S by (simpl; tauto);
  change (count_occ "<ol>" ("<ol>" ++ nl)) with 1%nat;
  change (count_occ "</ol>" ("<ol>" ++ nl)) with 0%nat;
  change (count_occ "<ul>" ("<ol>" ++ nl)) with 0%nat;
  change (count_occ "</ul>" ("<ol>" ++ nl)) with 0%nat;
  change (count_occ "<ol>" ("</ol>" ++ nl)) with 0%nat;
  change (count_occ "</ol>" ("</ol>" ++ nl)) with 1%nat;
  change (count_occ "<ul>" ("</ol>" ++ nl)) with 0%nat;
  change (count_occ "</ul>" ("</ol>" ++ nl)) with 0%nat;
  change (count_occ "<ol>" ("<ul>" ++ nl)) with 0%nat;
  change (count_occ "</ol>" ("<ul>" ++ nl)) with 0%nat;
  change (count_occ "<ul>" ("<ul>" ++ nl)) with 1%nat;
  change (count_occ "</ul>" ("<ul>" ++ nl)) with 0%nat;
  change (count_occ "<ol>" ("</ul>" ++ nl)) with 0%nat;
  change (count_occ "</ol>" ("</ul>" ++ nl)) with 0%nat;
  change (count_occ "<ul>" ("</ul>" ++ nl)) with 0%nat;
  change (count_occ "</ul>" ("</ul>" ++ nl)) with 1%nat;
  lia.

Lemma balanced_closeOl (st : MdState) : balanced st -> balanced (closeOl st).
Proof.
  destruct st as [h [] u]; unfold closeOl, balanced; cbn [inOl]; [tag_op | trivial].
Qed.

Lemma balanced_closeUl (st : MdState) : balanced st -> balanced (closeUl st).
Proof.
  destruct st as [h o []]; unfold closeUl, balanced; cbn [inUl]; [tag_op | trivial].
Qed.

Lemma balanced_openOl (st : MdState) : balanced st -> balanced (openOl st).
Proof.
  destruct st as [h [] u]; unfold openOl, balanced; cbn [inOl]; [trivial | tag_op].
Qed.

Lemma balanced_openUl (st : MdState) : balanced st -> balanced (openUl st).
Proof.
  destruct st as [h o []]; unfold openUl, balanced; cbn [inUl]; [trivial | tag_op].
Qed.

Lemma balanced_close (st : MdState) : balanced st -> balanced (close st).
Proof. intros H. now apply balanced_closeUl, balanced_closeOl. Qed.

Lemma close_flags (st : MdState) : inOl (close st) = false /\ inUl (close st) = false.
Proof. destruct st as [h [] []]; split; reflexivity. Qed.

#[local] Hint Resolve balanced_emit balanced_closeOl balanced_closeUl balanced_openOl
  balanced_openUl balanced_close : md.

Lemma balanced_md_line (st : MdState) (line : string) :
  balanced st -> balanced (md_line st line).
Proof.
  intros H. unfold md_line.
  repeat match goal with
         | |- context [if ?b then _ else _] => destruct b
         | |- context [match ol_marker ?l with _ => _ end] => destruct (ol_marker l)
         end; auto 10 with md.
Qed.

Lemma balanced_lines (lines : list string) (st : MdState) :
  balanced st -> balanced (fold_left md_line lines st).
Proof.
  revert st. induction lines as [|line lines IH]; intros st H; [exact H |].
  cbn [fold_left]. now apply IH, balanced_md_line.
Qed.

Lemma balanced_start : balanced (mkMd EmptyString false false).
Proof. split; [apply splits_nil | split; reflexivity]. Qed.

(** C2.  In the HTML that [renderMarkdown] returns, whatever the body and
    also when it ends inside a list, the closing tags of each kind of list
    are as many as its opening tags; so are the closing and the opening
    list tags taken together. *)
Theorem renderMarkdown_lists_balanced (content : string) :
  count_occ "<ol>" (renderMarkdown content) = count_occ "</ol>" (renderMarkdown content)
  /\ count_occ "<ul>" (renderMarkdown content) = count_occ "</ul>" (renderMarkdown content)
  /\ (count_occ "</ol>" (renderMarkdown content)
       + count_occ "</ul>" (renderMarkdown content)
      = count_occ "<ol>" (renderMarkdown content)
        + count_occ "<ul>" (renderMarkdown content))%nat.
Proof.
  unfold renderMarkdown. destruct (String.eqb content EmptyString).
  - repeat split.
  - set (st := fold_left md_line (split_on LF content) (mkMd EmptyString false false)).
    assert (B : balanced (close st)).
    { apply balanced_close, balanced_lines, balanced_start. }
    destruct B as (_ & Ho & Hu). destruct (close_flags st) as [Fo Fu].
    rewrite Fo in Ho. rewrite Fu in Hu. lia.
Qed.

(** The example of the specification, and a body that ends inside a list. *)
Example renderMarkdown_example :
  renderMarkdown (join nl ["# A"; "- one"; "- two"; ""; "para"])
  = join nl ["<h1>A</h1>"; "<ul>"; "  <li>one</li>"; "  <li>two</li>"; "</ul>";
             ""; "<p>para</p>"; ""]
  /\ renderMarkdown (join nl ["1. a"; "- b"])
     = join nl ["<ol>"; "  <li>a</li>"; "</ol>"; "<ul>"; "  <li>b</li>"; "</ul>"; ""].
Proof. split; reflexivity. Qed.

(* ===================================================================== *)
(** ** Further properties of the block markup renderer *)
(* ===================================================================== *)

(** *** The order of the list tags *)

Lemma seq_splits_nil : seq_splits EmptyString.
Proof. intros rest. reflexivity. Qed.

Lemma seq_splits_append (a b : string) :
  seq_splits a -> seq_splits b -> seq_splits (a ++ b).
Proof.
  intros Ha Hb rest. rewrite append_assoc, Ha, Hb, Ha. now rewrite app_assoc.
Qed.

Lemma seq_plain_nil (s : string) : seq_plain s -> list_tag_seq s = [].
Proof. intros H. rewrite <- (append_nil_r s). now rewrite H. Qed.

Lemma seq_plain_splits (s : string) : seq_plain s -> seq_splits s.
Proof. intros H rest. now rewrite H, (seq_plain_nil s H). Qed.

Lemma seq_plain_append (a b : string) : seq_plain a -> seq_plain b -> seq_plain (a ++ b).
Proof. intros Ha Hb rest. now rewrite append_assoc, Ha, Hb. Qed.

Lemma list_tag_at_no_lt (c : ascii) (s : string) :
  Ascii.eqb c "<" = false -> list_tag_at (String c s) = [].
Proof.
  intros H. unfold list_tag_at. rewrite !prefix_cons, (Ascii.eqb_sym "<" c), H.
  reflexivity.
Qed.

Lemma seq_plain_no_lt (e : string) : has_char "<" e = false -> seq_plain e.
Proof.
  intros He rest. induction e as [|x e IH]; [reflexivity |].
  cbn [has_char] in He. apply orb_false_elim in He as [Hx He].
  rewrite append_cons. cbn [list_tag_seq]. rewrite list_tag_at_no_lt by exact Hx.
  now apply IH.
Qed.

Lemma seq_plain_esc (v : JsValue) : seq_plain (esc v).
Proof. apply seq_plain_no_lt, esc_clean. Qed.

Ltac seq_literal := let rest := fresh "rest" in intros rest; reflexivity.

Lemma seq_plain_nl : seq_plain nl.                    Proof. seq_literal. Qed.
Lemma seq_plain_h3 : seq_plain "<h3>".                Proof. seq_literal. Qed.
Lemma seq_plain_h3_end : seq_plain ("</h3>" ++ nl).   Proof. seq_literal. Qed.
Lemma seq_plain_h2 : seq_plain "<h2>".                Proof. seq_literal. Qed.
Lemma seq_plain_h2_end : seq_plain ("</h2>" ++ nl).   Proof. seq_literal. Qed.
Lemma seq_plain_h1 : seq_plain "<h1>".                Proof. seq_literal. Qed.
Lemma seq_plain_h1_end : seq_plain ("</h1>" ++ nl).   Proof. seq_literal. Qed.
Lemma seq_plain_li : seq_plain "  <li>".              Proof. seq_literal. Qed.
Lemma seq_plain_li_end : seq_plain ("</li>" ++ nl).   Proof. seq_literal. Qed.
Lemma seq_plain_p : seq_plain "<p>".                  Proof. seq_literal. Qed.
Lemma seq_plain_p_end : seq_plain ("</p>" ++ nl).     Proof. seq_literal. Qed.

Lemma seq_literal_tags :
  (forall rest, list_tag_seq (("<ol>" ++ nl) ++ rest) = OpenOl :: list_tag_seq rest)
  /\ (forall rest, list_tag_seq (("</ol>" ++ nl) ++ rest) = CloseOl :: list_tag_seq rest)
  /\ (forall rest, list_tag_seq (("<ul>" ++ nl) ++ rest) = OpenUl :: list_tag_seq rest)
  /\ (forall rest, list_tag_seq (("</ul>" ++ nl) ++ rest) = CloseUl :: list_tag_seq rest).
Proof. repeat split. Qed.

Create HintDb mdseq.
#[local] Hint Resolve seq_plain_append seq_plain_esc seq_plain_nl seq_plain_h3
  seq_plain_h3_end seq_plain_h2 seq_plain_h2_end seq_plain_h1 seq_plain_h1_end
  seq_plain_li seq_plain_li_end seq_plain_p seq_plain_p_end : mdseq.

Lemma paired_app (a b : list ListTag) :
  paired a = true -> paired b = true -> paired (a ++ b)%list = true.
Proof.
  revert a. fix IH 1. intros [|[] [|[] a]]; cbn [paired app]; intros Ha Hb;
    try discriminate; try exact Hb; now apply IH.
Qed.

(** Appending a text with one list tag, or with none, to the text built. *)
Lemma seq_append_tag (h chunk : string) (t : ListTag) :
  seq_splits h ->
  (forall rest, list_tag_seq (chunk ++ rest) = t :: list_tag_seq rest) ->
  seq_splits (h ++ chunk)
  /\ list_tag_seq (h ++ chunk) = (list_tag_seq h ++ [t])%list.
Proof.
  intros Hh Hc.
  assert (E : list_tag_seq chunk = [t]).
  { rewrite <- (append_nil_r chunk). now rewrite Hc. }
  split.
  - apply seq_splits_append; [exact Hh |]. intros rest. now rewrite Hc, E.
  - now rewrite Hh, E.
Qed.

Lemma well_paired_emit (st : MdState) (text : string) :
  well_paired st -> seq_plain text -> well_paired (emit st text).
Proof.
  intros (S & X & complete & Hp & Hs) Ht. unfold well_paired, emit.
  cbn [html inOl inUl]. split; [| split; [exact X |]].
  - apply seq_splits_append; [exact S | now apply seq_plain_splits].
  - exists complete. split; [exact Hp |].
    rewrite S, (seq_plain_nil text Ht), app_nil_r. exact Hs.
Qed.

Ltac split_tags := destruct seq_literal_tags as (Too & Tco & Tou & Tcu).

Lemma well_paired_closeOl (st : MdState) :
  well_paired st -> well_paired (closeOl st) /\ inOl (closeOl st) = false.
Proof.
  split_tags. destruct st as [h [] u]; unfold closeOl, well_paired, pending;
    cbn [html inOl inUl]; [| now intros H].
  intros (S & X & complete & Hp & Hs). cbn [andb] in X. subst u.
  destruct (seq_append_tag h ("</ol>" ++ nl) CloseOl S Tco) as [S' E].
  split; [| reflexivity]. split; [exact S' |]. split; [reflexivity |].
  exists (complete ++ [OpenOl; CloseOl])%list. split.
  - now apply paired_app.
  - rewrite E, Hs, app_nil_r. now rewrite <- app_assoc.
Qed.

Lemma well_paired_closeUl (st : MdState) :
  well_paired st -> well_paired (closeUl st) /\ inUl (closeUl st) = false.
Proof.
  split_tags. destruct st as [h o []]; unfold closeUl, well_paired, pending;
    cbn [html inOl inUl]; [| now intros H].
  intros (S & X & complete & Hp & Hs). rewrite andb_true_r in X. subst o.
  destruct (seq_append_tag h ("</ul>" ++ nl) CloseUl S Tcu) as [S' E].
  split; [| reflexivity]. split; [exact S' |]. split; [reflexivity |].
  exists (complete ++ [OpenUl; CloseUl])%list. split.
  - now apply paired_app.
  - rewrite E, Hs, app_nil_r. now rewrite <- app_assoc.
Qed.

Lemma well_paired_close (st : MdState) : well_paired st -> well_paired (close st).
Proof. intros H. now apply well_paired_closeUl, well_paired_closeOl. Qed.

(** A list is opened only when the other is closed. *)
Lemma well_paired_openOl (st : MdState) :
  well_paired st -> inUl st = false -> well_paired (openOl st).
Proof.
  split_tags. destruct st as [h [] u]; unfold openOl, well_paired, pending;
    cbn [html inOl inUl]; [now intros H |].
  intros (S & X & complete & Hp & Hs) ->. rewrite app_nil_r in Hs.
  destruct (seq_append_tag h ("<ol>" ++ nl) OpenOl S Too) as [S' E].
  split; [exact S' |]. split; [reflexivity |].
  exists complete. split; [exact Hp |]. now rewrite E, Hs.
Qed.

Lemma well_paired_openUl (st : MdState) :
  well_paired st -> inOl st = false -> well_paired (openUl st).
Proof.
  split_tags. destruct st as [h o []]; unfold openUl, well_paired, pending;
    cbn [html inOl inUl]; [now intros H |].
  intros (S & X & complete & Hp & Hs) ->. rewrite app_nil_r in Hs.
  destruct (seq_append_tag h ("<ul>" ++ nl) OpenUl S Tou) as [S' E].
  split; [exact S' |]. split; [reflexivity |].
  exists complete. split; [exact Hp |]. now rewrite E, Hs.
Qed.

Lemma well_paired_next_ol (st : MdState) :
  well_paired st -> well_paired (openOl (closeUl st)).
Proof. intros H. now apply well_paired_openOl; apply well_paired_closeUl. Qed.

Lemma well_paired_next_ul (st : MdState) :
  well_paired st -> well_paired (openUl (closeOl st)).
Proof. intros H. now apply well_paired_openUl; apply well_paired_closeOl. Qed.

#[local] Hint Resolve well_paired_emit well_paired_close well_paired_next_ol
  well_paired_next_ul : mdseq.

Lemma well_paired_md_line (st : MdState) (line : string) :
  well_paired st -> well_paired (md_line st line).
Proof.
  intros H. unfold md_line.
  repeat match goal with
         | |- context [if ?b then _ else _] => destruct b
         | |- context [match ol_marker ?l with _ => _ end] => destruct (ol_marker l)
         end; auto 10 with mdseq.
Qed.

Lemma well_paired_lines (lines : list string) (st : MdState) :
  well_paired st -> well_paired (fold_left md_line lines st).
Proof.
  revert st. induction lines as [|line lines IH]; intros st H; [exact H |].
  cbn [fold_left]. now apply IH, well_paired_md_line.
Qed.

Lemma well_paired_start : well_paired (mkMd EmptyString false false).
Proof.
  split; [apply seq_splits_nil |]. split; [reflexivity |]. now exists [].
Qed.

(** X4.  In the HTML of [renderMarkdown] the list tags come as complete
    lists one after the other: every opening tag is followed, before any
    other list tag, by the closing tag of its kind; no list lies inside
    another and none is closed before it is opened. *)
Theorem renderMarkdown_lists_paired (content : string) :
  paired (list_tag_seq (renderMarkdown content)) = true.
Proof.
  unfold renderMarkdown. destruct (String.eqb content EmptyString); [reflexivity |].
  set (st := fold_left md_line (split_on LF content) (mkMd EmptyString false false)).
  assert (W : well_paired (close st)).
  { apply well_paired_close, well_paired_lines, well_paired_start. }
  destruct W as (_ & _ & complete & Hp & Hs).
  destruct (close_flags st) as [Fo Fu]. unfold pending in Hs.
  rewrite Fo, Fu, app_nil_r in Hs. now rewrite Hs.
Qed.

(** *** No markup from the text of the body *)

Lemma prefix_append (t x b : string) :
  String.prefix t x = true -> String.prefix t (x ++ b) = true.
Proof.
  revert x. induction t as [|c t IH]; intros x H; [apply prefix_nil |].
  destruct x as [|d x]; [discriminate |].
  rewrite append_cons, prefix_cons in *. apply andb_true_iff in H as [-> H].
  now apply IH.
Qed.

Lemma only_tags_append (tags : list string) (a b : string) :
  only_tags tags a = true -> only_tags tags b = true -> only_tags tags (a ++ b) = true.
Proof.
  intros Ha Hb. induction a as [|c a IH]; [exact Hb |].
  rewrite append_cons. cbn [only_tags] in *. apply andb_true_iff in Ha as [Hc Ha].
  rewrite (IH Ha), andb_true_r. destruct (Ascii.eqb c "<"); [| reflexivity].
  apply existsb_exists in Hc as (t & Hin & Ht). apply existsb_exists. exists t.
  split; [exact Hin |]. rewrite <- append_cons. now apply prefix_append.
Qed.

Lemma only_tags_no_lt (tags : list string) (e : string) :
  has_char "<" e = false -> only_tags tags e = true.
Proof.
  induction e as [|c e IH]; [reflexivity |].
  cbn [has_char only_tags]. intros H. apply orb_false_elim in H as [Hc He].
  now rewrite Hc, IH.
Qed.

Lemma md_clean_append (a b : string) : md_clean a -> md_clean b -> md_clean (a ++ b).
Proof.
  intros [Ha Qa] [Hb Qb]. split; [now apply only_tags_append |].
  now rewrite has_char_append, Qa, Qb.
Qed.

Lemma md_clean_esc (v : JsValue) : md_clean (esc v).
Proof. split; [apply only_tags_no_lt |]; apply esc_clean. Qed.

Lemma md_clean_literals :
  md_clean nl /\ md_clean "<h3>" /\ md_clean ("</h3>" ++ nl) /\ md_clean "<h2>"
  /\ md_clean ("</h2>" ++ nl) /\ md_clean "<h1>" /\ md_clean ("</h1>" ++ nl)
  /\ md_clean "  <li>" /\ md_clean ("</li>" ++ nl) /\ md_clean "<p>"
  /\ md_clean ("</p>" ++ nl) /\ md_clean ("<ol>" ++ nl) /\ md_clean ("</ol>" ++ nl)
  /\ md_clean ("<ul>" ++ nl) /\ md_clean ("</ul>" ++ nl).
Proof. repeat split. Qed.

Lemma md_clean_md_line (st : MdState) (line : string) :
  md_clean (html st) -> md_clean (html (md_line st line)).
Proof.
  destruct md_clean_literals
    as (? & ? & ? & ? & ? & ? & ? & ? & ? & ? & ? & ? & ? & ? & ?).
  pose proof md_clean_esc as He. pose proof md_clean_append as Ha.
  intros Hst. unfold md_line, close, closeOl, closeUl, openOl, openUl, emit.
  destruct st as [h o u]. cbn [html inOl inUl] in *.
  repeat match goal with
         | |- context [if ?b then _ else _] => destruct b; cbn [html inOl inUl]
         | |- context [match ol_marker ?l with _ => _ end] => destruct (ol_marker l)
         end; cbn [html]; auto 12.
Qed.

Lemma md_clean_close (st : MdState) : md_clean (html st) -> md_clean (html (close st)).
Proof.
  destruct md_clean_literals
    as (? & ? & ? & ? & ? & ? & ? & ? & ? & ? & ? & ? & ? & ? & ?).
  pose proof md_clean_append as Ha.
  intros Hst. destruct st as [h [] []]; cbn [close closeOl closeUl html inOl inUl]; auto.
Qed.

Lemma md_clean_lines (lines : list string) (st : MdState) :
  md_clean (html st) -> md_clean (html (fold_left md_line lines st)).
Proof.
  revert st. induction lines as [|line lines IH]; intros st H; [exact H |].
  cbn [fold_left]. now apply IH, md_clean_md_line.
Qed.

(** X5.  Whatever the body, every [<] of the HTML of [renderMarkdown]
    starts one of the tags that the renderer writes (h1, h2, h3, ol, ul,
    li, p and their closing tags) and the HTML holds no double quote: the
    text of the body opens no tag and closes no attribute. *)
Theorem renderMarkdown_only_own_tags (content : string) :
  only_tags md_tags (renderMarkdown content) = true
  /\ has_char DQ (renderMarkdown content) = false.
Proof.
  unfold renderMarkdown. destruct (String.eqb content EmptyString); [now split |].
  apply md_clean_close, md_clean_lines. now split.
Qed.

(** *** Bodies joined by an empty line *)

Lemma split_on_not_nil (sep : ascii) (s : string) : split_on sep s <> [].
Proof.
  destruct s as [|c s]; [discriminate |]. cbn [split_on].
  destruct (Ascii.eqb c sep); [discriminate |].
  now destruct (split_on sep s).
Qed.

Lemma split_on_append_sep (sep : ascii) (a b : string) :
  split_on sep (a ++ String sep b) = (split_on sep a ++ split_on sep b)%list.
Proof.
  induction a as [|c a IH].
  - rewrite append_nil_l. cbn [split_on]. now rewrite Ascii.eqb_refl.
  - rewrite append_cons. cbn [split_on]. rewrite IH.
    destruct (Ascii.eqb c sep); [reflexivity |].
    pose proof (split_on_not_nil sep a) as Hn. now destruct (split_on sep a).
Qed.

Lemma prepend_emit (h : string) (st : MdState) (text : string) :
  emit (prepend h st) text = prepend h (emit st text).
Proof. unfold emit, prepend. cbn [html inOl inUl]. now rewrite append_assoc. Qed.

Lemma prepend_closeOl (h : string) (st : MdState) :
  closeOl (prepend h st) = prepend h (closeOl st).
Proof.
  destruct st as [x [] u]; unfold closeOl, prepend; cbn [html inOl inUl];
    now rewrite ?append_assoc.
Qed.

Lemma prepend_closeUl (h : string) (st : MdState) :
  closeUl (prepend h st) = prepend h (closeUl st).
Proof.
  destruct st as [x o []]; unfold closeUl, prepend; cbn [html inOl inUl];
    now rewrite ?append_assoc.
Qed.

Lemma prepend_openOl (h : string) (st : MdState) :
  openOl (prepend h st) = prepend h (openOl st).
Proof.
  destruct st as [x [] u]; unfold openOl, prepend; cbn [html inOl inUl];
    now rewrite ?append_assoc.
Qed.

Lemma prepend_openUl (h : string) (st : MdState) :
  openUl (prepend h st) = prepend h (openUl st).
Proof.
  destruct st as [x o []]; unfold openUl, prepend; cbn [html inOl inUl];
    now rewrite ?append_assoc.
Qed.

Lemma prepend_close (h : string) (st : MdState) :
  close (prepend h st) = prepend h (close st).
Proof. unfold close. now rewrite prepend_closeOl, prepend_closeUl. Qed.

(** A line adds to the text built the same text whatever was built
    before: what it does depends on the two flags only. *)
Lemma prepend_md_line (h : string) (st : MdState) (line : string) :
  md_line (prepend h st) line = prepend h (md_line st line).
Proof.
  unfold md_line.
  repeat match goal with
         | |- context [if ?b then _ else _] => destruct b
         | |- context [match ol_marker ?l with _ => _ end] => destruct (ol_marker l)
         end;
    now rewrite ?prepend_close, ?prepend_closeOl, ?prepend_closeUl, ?prepend_openOl,
      ?prepend_openUl, ?prepend_emit.
Qed.

Lemma prepend_lines (h : string) (lines : list string) (st : MdState) :
  fold_left md_line lines (prepend h st) = prepend h (fold_left md_line lines st).
Proof.
  revert st. induction lines as [|line lines IH]; intros st; [reflexivity |].
  cbn [fold_left]. now rewrite prepend_md_line, IH.
Qed.

Lemma append_not_nil (a : string) (c : ascii) (b : string) :
  String.eqb (a ++ String c b) EmptyString = false.
Proof. now destruct a. Qed.

(** X6.  The HTML of two bodies joined by an empty line is the HTML of the
    first, an empty line and the HTML of the second: the empty line closes
    any list of the first body, and the second starts afresh. *)
Theorem renderMarkdown_blank_line (a b : string) :
  a <> EmptyString -> b <> EmptyString ->
  renderMarkdown (a ++ nl ++ nl ++ b) = renderMarkdown a ++ nl ++ renderMarkdown b.
Proof.
  intros Ha Hb. unfold renderMarkdown.
  apply String.eqb_neq in Ha, Hb. rewrite Ha, Hb.
  change (a ++ nl ++ nl ++ b) with (a ++ String LF (String LF b)).
  rewrite append_not_nil, split_on_append_sep, fold_left_app.
  set (sa := fold_left md_line (split_on LF a) (mkMd EmptyString false false)).
  change (split_on LF (String LF b)) with (EmptyString :: split_on LF b).
  cbn [fold_left]. change (md_line sa EmptyString) with (emit (close sa) nl).
  assert (E : emit (close sa) nl
              = prepend (html (close sa) ++ nl) (mkMd EmptyString false false)).
  { destruct (close_flags sa) as [Fo Fu]. unfold emit, prepend. cbn [html inOl inUl].
    now rewrite Fo, Fu, append_nil_r. }
  rewrite E, prepend_lines, prepend_close. unfold prepend. cbn [html].
  now rewrite append_assoc.
Qed.

Lemma renderMarkdown_blank_line_witness :
  renderMarkdown (join nl ["1. one"; ""; "- two"])
  = join nl ["<ol>"; "  <li>one</li>"; "</ol>"; ""; "<ul>"; "  <li>two</li>"; "</ul>"; ""].
Proof.
  change (join nl ["1. one"; ""; "- two"]) with ("1. one" ++ nl ++ nl ++ "- two").
  rewrite (renderMarkdown_blank_line "1. one" "- two"); [reflexivity | discriminate ..].
Defined.

(* ===================================================================== *)
(** ** Properties of the template substitution engine *)
(* ===================================================================== *)

(** *** The scan over text and placeholders *)

Lemma placeholder_cons (key : string) :
  placeholder key = String "{" (String "{" (key ++ "}}")).
Proof. reflexivity. Qed.

Lemma prefix_append_self (p s : string) : String.prefix p (p ++ s) = true.
Proof.
  induction p as [|c p IH]; [apply prefix_nil |].
  rewrite append_cons, prefix_cons, Ascii.eqb_refl. exact IH.
Qed.

Lemma subst_scan_skip (pat r a b : string) :
  subst_scan pat r (a ++ b) (String.length a) = subst_scan pat r b O.
Proof.
  induction a as [|c a IH]; [reflexivity |].
  rewrite append_cons. cbn [String.length subst_scan]. exact IH.
Qed.

Lemma subst_scan_match (c : ascii) (pat' r b : string) :
  subst_scan (String c pat') r (String c pat' ++ b) O
  = r ++ subst_scan (String c pat') r b O.
Proof.
  rewrite append_cons at 1. cbn [subst_scan].
  rewrite <- append_cons, prefix_append_self.
  cbn [String.length Nat.sub]. rewrite Nat.sub_0_r.
  now rewrite subst_scan_skip.
Qed.

Lemma subst_scan_text (pat' r a b : string) :
  has_char "{" a = false ->
  subst_scan (String "{" pat') r (a ++ b) O = a ++ subst_scan (String "{" pat') r b O.
Proof.
  induction a as [|x a IH]; [reflexivity |].
  cbn [has_char]. intros H. apply orb_false_elim in H as [Hx Ha].
  rewrite !append_cons. cbn [subst_scan]. rewrite prefix_cons.
  rewrite Ascii.eqb_sym, Hx. cbn [andb]. now rewrite IH.
Qed.

Lemma brace_free_cons (c : ascii) (s : string) :
  brace_free (String c s) = true ->
  Ascii.eqb c "{" = false /\ Ascii.eqb c "}" = false /\ brace_free s = true.
Proof.
  unfold brace_free. cbn [has_char]. intros H.
  apply andb_true_iff in H as [H1 H2].
  apply negb_true_iff, orb_false_elim in H1 as [H1 H1'].
  apply negb_true_iff, orb_false_elim in H2 as [H2 H2'].
  now rewrite H1, H2, H1', H2'.
Qed.

Lemma brace_free_open (s : string) : brace_free s = true -> has_char "{" s = false.
Proof.
  unfold brace_free. intros H. apply andb_true_iff in H as [H _].
  now apply negb_true_iff in H.
Qed.

(** Two names without braces, each followed by the closing braces: the one
    starts the other only if they are equal. *)
Lemma prefix_names (k k' b : string) :
  brace_free k = true -> brace_free k' = true ->
  String.prefix (k ++ "}}") (k' ++ "}}" ++ b) = true -> k = k'.
Proof.
  revert k'. induction k as [|y k IH]; intros [|x k'] Hk Hk'.
  - reflexivity.
  - apply brace_free_cons in Hk' as (_ & Hx & _).
    rewrite append_nil_l, append_cons.
    change "}}" with (String "}" "}"). rewrite prefix_cons.
    rewrite Ascii.eqb_sym, Hx. discriminate.
  - apply brace_free_cons in Hk as (_ & Hy & _).
    rewrite append_nil_l, append_cons.
    change ("}}" ++ b) with (String "}" (String "}" b)). rewrite prefix_cons.
    rewrite Hy. discriminate.
  - apply brace_free_cons in Hk as (_ & _ & Hk).
    apply brace_free_cons in Hk' as (_ & _ & Hk').
    rewrite !append_cons, prefix_cons. intros H.
    apply andb_true_iff in H as [E H]. apply Ascii.eqb_eq in E. subst x.
    f_equal. now apply IH.
Qed.

(** After a name without braces and the closing braces no opening brace
    comes first. *)
Lemma prefix_brace_name (p k' b : string) :
  brace_free k' = true -> String.prefix (String "{" p) (k' ++ "}}" ++ b) = false.
Proof.
  destruct k' as [|x k']; intros H.
  - reflexivity.
  - apply brace_free_cons in H as (Hx & _ & _).
    rewrite append_cons, prefix_cons, Ascii.eqb_sym, Hx. reflexivity.
Qed.

Lemma subst_scan_other (k k' r b : string) :
  brace_free k = true -> brace_free k' = true -> String.eqb k' k = false ->
  subst_scan (placeholder k) r (placeholder k' ++ b) O
  = placeholder k' ++ subst_scan (placeholder k) r b O.
Proof.
  intros Hk Hk' Hne. rewrite !placeholder_cons, !append_cons, append_assoc.
  cbn [subst_scan].
  rewrite prefix_cons, Ascii.eqb_refl, andb_true_l.
  rewrite prefix_cons, Ascii.eqb_refl, andb_true_l.
  destruct (String.prefix (k ++ "}}") (k' ++ "}}" ++ b)) eqn:E.
  { apply prefix_names in E; [| assumption ..]. subst k'.
    now rewrite String.eqb_refl in Hne. }
  rewrite prefix_cons, Ascii.eqb_refl, andb_true_l.
  rewrite prefix_brace_name by exact Hk'.
  rewrite <- append_assoc, subst_scan_text; [reflexivity |].
  rewrite has_char_append, (brace_free_open _ Hk'). reflexivity.
Qed.

Lemma subst_scan_pieces (k r : string) (ps : list Piece) :
  brace_free k = true -> forallb wf_piece ps = true ->
  subst_scan (placeholder k) r (template_of ps) O = template_of (List.map (pass k r) ps).
Proof.
  intros Hk. induction ps as [|p ps IH]; [reflexivity |].
  cbn [forallb List.map template_of]. intros H.
  apply andb_true_iff in H as [Hp Hps]. specialize (IH Hps).
  destruct p as [s | k']; cbn [piece_text pass wf_piece] in *.
  - apply negb_true_iff in Hp. rewrite placeholder_cons in *.
    now rewrite subst_scan_text, IH.
  - destruct (String.eqb k' k) eqn:E.
    + apply String.eqb_eq in E. subst k'. cbn [piece_text].
      rewrite placeholder_cons in *. now rewrite subst_scan_match, IH.
    + cbn [piece_text]. now rewrite subst_scan_other, IH.
Qed.

(** One pass of [render] over a template of well-formed pieces. *)
Lemma replaceAll_pieces (k r : string) (ps : list Piece) :
  brace_free k = true -> forallb wf_piece ps = true -> has_char "$" r = false ->
  replaceAll (template_of ps) (placeholder k) r = template_of (List.map (pass k r) ps).
Proof.
  intros Hk Hps Hr.
  change (replaceAll (template_of ps) (placeholder k) r)
    with (replaceAll_scan (placeholder k) r EmptyString (template_of ps) O).
  now rewrite replaceAll_scan_plain, subst_scan_pieces.
Qed.

(** *** The passes of [render] *)

Lemma render_cons (t : string) (e : string * JsValue) (vars : list (string * JsValue)) :
  render t (e :: vars) = render (replaceAll t (placeholder (fst e)) (value_text (snd e))) vars.
Proof. reflexivity. Qed.

Lemma render_snoc (t : string) (vars : list (string * JsValue)) (e : string * JsValue) :
  render t (vars ++ [e])%list
  = replaceAll (render t vars) (placeholder (fst e)) (value_text (snd e)).
Proof. unfold render. now rewrite fold_left_app. Qed.

Lemma wf_pass (k r : string) (ps : list Piece) :
  has_char "{" r = false -> forallb wf_piece ps = true ->
  forallb wf_piece (List.map (pass k r) ps) = true.
Proof.
  intros Hr. induction ps as [|p ps IH]; [reflexivity |].
  cbn [forallb List.map]. intros H. apply andb_true_iff in H as [Hp Hps].
  rewrite (IH Hps), andb_true_r.
  destruct p as [s | k']; cbn [pass]; [exact Hp |].
  destruct (String.eqb k' k); [| exact Hp]. cbn [wf_piece]. now rewrite Hr.
Qed.

Lemma wf_entry_parts (e : string * JsValue) :
  wf_entry e = true ->
  brace_free (fst e) = true /\ has_char "{" (value_text (snd e)) = false
  /\ has_char "$" (value_text (snd e)) = false.
Proof.
  unfold wf_entry. intros H.
  apply andb_true_iff in H as [H H3]. apply andb_true_iff in H as [H1 H2].
  apply negb_true_iff in H2, H3. now rewrite H1, H2, H3.
Qed.

Lemma fill_pass (e : string * JsValue) (vars : list (string * JsValue)) (p : Piece) :
  fill vars (pass (fst e) (value_text (snd e)) p) = fill (e :: vars) p.
Proof.
  destruct p as [s | k']; [reflexivity |].
  cbn [pass fill lookup_entry]. now destruct (String.eqb k' (fst e)).
Qed.

Lemma render_wf (vars : list (string * JsValue)) :
  forallb wf_entry vars = true ->
  forall ps, forallb wf_piece ps = true ->
  render (template_of ps) vars = substitute vars ps.
Proof.
  induction vars as [|e vars IH]; intros Hv ps Hps.
  - unfold substitute. cbn [render fold_left].
    f_equal. induction ps as [|[s | k'] ps IHps]; cbn [List.map fill lookup_entry];
      [reflexivity | ..]; (rewrite <- IHps; [reflexivity |]);
      cbn [forallb] in Hps; now apply andb_true_iff in Hps as [_ Hps].
  - cbn [forallb] in Hv. apply andb_true_iff in Hv as [He Hv].
    destruct (wf_entry_parts e He) as (Hk & Hb & Hd).
    rewrite render_cons, replaceAll_pieces by assumption.
    rewrite IH by (try apply wf_pass; assumption).
    unfold substitute. rewrite List.map_map. f_equal.
    apply List.map_ext. intros p. apply fill_pass.
Qed.

Lemma template_of_text (s : string) : template_of [Text s] = s.
Proof. cbn [template_of piece_text]. apply append_nil_r. Qed.

(** *** Values that hold placeholders *)

Lemma template_of_app (a b : list Piece) :
  template_of (a ++ b)%list = template_of a ++ template_of b.
Proof.
  induction a as [|p a IH]; [reflexivity |].
  cbn [app template_of]. now rewrite IH, append_assoc.
Qed.

Lemma template_of_bind (k : string) (rs ps : list Piece) :
  template_of (List.map (pass k (template_of rs)) ps)
  = template_of (flat_map (bind_piece k rs) ps).
Proof.
  induction ps as [|p ps IH]; [reflexivity |].
  cbn [List.map flat_map template_of]. rewrite template_of_app, IH. f_equal.
  destruct p as [s | name]; cbn [pass bind_piece].
  - symmetry. apply template_of_text.
  - destruct (String.eqb name k); cbn [piece_text template_of];
      now rewrite ?append_nil_r.
Qed.

(** *** Passes over any text *)

Lemma has_pattern_cons (c : ascii) (r : string) :
  has_pattern (String c r) = false -> has_pattern r = false.
Proof. cbn [has_pattern]. intros H. now apply orb_false_elim in H as [_ H]. Qed.

(** A replacement text without replacement pattern is put in as it is. *)
Lemma GetSubstitution_literal (m b a r : string) :
  has_pattern r = false -> GetSubstitution m b a r = r.
Proof.
  induction r as [|c r IH]; [reflexivity |].
  intros H. pose proof (has_pattern_cons _ _ H) as Hr. specialize (IH Hr).
  destruct (Ascii.eqb c "$") eqn:Ec.
  - destruct r as [|d r'].
    + cbn [GetSubstitution]. now rewrite Ec.
    + cbn [has_pattern] in H. rewrite Ec in H. cbn [andb] in H.
      apply orb_false_elim in H as [Hd _].
      apply orb_false_elim in Hd as [Hd H4]. apply orb_false_elim in Hd as [Hd H3].
      apply orb_false_elim in Hd as [H1 H2].
      change (GetSubstitution m b a (String c (String d r')))
        with (if Ascii.eqb c "$"
              then if Ascii.eqb d "$" then String "$" (GetSubstitution m b a r')
                   else if Ascii.eqb d "&" then m ++ GetSubstitution m b a r'
                   else if Ascii.eqb d "`" then b ++ GetSubstitution m b a r'
                   else if Ascii.eqb d "'" then a ++ GetSubstitution m b a r'
                   else String c (GetSubstitution m b a (String d r'))
              else String c (GetSubstitution m b a (String d r'))).
      now rewrite Ec, H1, H2, H3, H4, IH.
  - change (GetSubstitution m b a (String c r))
      with (if Ascii.eqb c "$"
            then match r with
                 | EmptyString => String c EmptyString
                 | String d r' =>
                     if Ascii.eqb d "$" then String "$" (GetSubstitution m b a r')
                     else if Ascii.eqb d "&" then m ++ GetSubstitution m b a r'
                     else if Ascii.eqb d "`" then b ++ GetSubstitution m b a r'
                     else if Ascii.eqb d "'" then a ++ GetSubstitution m b a r'
                     else String c (GetSubstitution m b a r)
                 end
            else String c (GetSubstitution m b a r)).
    now rewrite Ec, IH.
Qed.

Lemma replaceAll_scan_literal (pat r : string) :
  has_pattern r = false ->
  forall s before skip, replaceAll_scan pat r before s skip = subst_scan pat r s skip.
Proof.
  intros Hr. induction s as [|c s IH]; intros before skip; [reflexivity |].
  cbn [replaceAll_scan subst_scan].
  rewrite GetSubstitution_literal by exact Hr.
  destruct skip; now rewrite ?IH.
Qed.

Lemma count_occ_app_ge (p a b : string) :
  (count_occ p b <= count_occ p (a ++ b))%nat.
Proof.
  induction a as [|c a IH]; [rewrite append_nil_l; lia |].
  rewrite append_cons. cbn [count_occ]. lia.
Qed.

(** A text at no place of which the pattern starts is passed as it is. *)
Lemma subst_scan_no_match (p r a b : string) :
  count_occ p (a ++ b) = count_occ p b ->
  subst_scan p r (a ++ b) O = a ++ subst_scan p r b O.
Proof.
  induction a as [|c a IH]; [reflexivity |].
  rewrite !append_cons. cbn [count_occ subst_scan]. intros H.
  pose proof (count_occ_app_ge p a b) as G.
  destruct (String.prefix p (String c (a ++ b))); [lia |].
  f_equal. apply IH. lia.
Qed.

Lemma count_occ_token (c : ascii) (p' b : string) :
  count_occ (String c p') (String c p' ++ b)
  = S (count_occ (String c p') (p' ++ b)).
Proof.
  rewrite append_cons at 1. cbn [count_occ].
  now rewrite <- append_cons, prefix_append_self.
Qed.

Lemma count_holes_le (k : string) (qs : list Piece) :
  (count_holes k qs <= count_occ (placeholder k) (template_of qs))%nat.
Proof.
  induction qs as [|q qs IH]; [cbn; lia |].
  cbn [template_of]. pose proof (count_occ_app_ge (placeholder k) (piece_text q)
                                   (template_of qs)) as G.
  destruct q as [s | k']; unfold count_holes in *; cbn [List.filter]; [lia |].
  destruct (String.eqb k' k) eqn:E; [| lia].
  apply String.eqb_eq in E. subst k'. cbn [List.length piece_text].
  rewrite placeholder_cons, count_occ_token.
  pose proof (count_occ_app_ge (String "{" (String "{" (k ++ "}}")))
                (String "{" (k ++ "}}")) (template_of qs)) as G'.
  rewrite placeholder_cons in IH. lia.
Qed.

(** One pass over pieces among which the token of the key starts at the
    placeholders of the key only. *)
Lemma subst_scan_at_holes (k r : string) (qs : list Piece) :
  count_occ (placeholder k) (template_of qs) = count_holes k qs ->
  subst_scan (placeholder k) r (template_of qs) O = template_of (List.map (pass k r) qs).
Proof.
  induction qs as [|q qs IH]; [reflexivity |].
  cbn [template_of List.map]. intros H.
  pose proof (count_holes_le k qs) as L.
  pose proof (count_occ_app_ge (placeholder k) (piece_text q) (template_of qs)) as G.
  assert (Hole_k : forall k', q = Hole k' -> String.eqb k' k = true ->
            count_occ (placeholder k) (template_of qs) = count_holes k qs
            /\ subst_scan (placeholder k) r (piece_text q ++ template_of qs) O
               = r ++ subst_scan (placeholder k) r (template_of qs) O).
  { intros k' -> E. apply String.eqb_eq in E. subst k'.
    unfold count_holes in H. cbn [List.filter piece_text] in H.
    rewrite String.eqb_refl in H. cbn [List.length] in H. fold (count_holes k qs) in H.
    cbn [piece_text]. rewrite placeholder_cons in *. rewrite count_occ_token in H.
    pose proof (count_occ_app_ge (String "{" (String "{" (k ++ "}}")))
                  (String "{" (k ++ "}}")) (template_of qs)) as G'.
    split; [lia |]. apply subst_scan_match. }
  assert (Other : count_holes k (q :: qs) = count_holes k qs ->
            count_occ (placeholder k) (template_of qs) = count_holes k qs
            /\ subst_scan (placeholder k) r (piece_text q ++ template_of qs) O
               = piece_text q ++ subst_scan (placeholder k) r (template_of qs) O).
  { intros E. rewrite E in H. split; [lia |]. apply subst_scan_no_match. lia. }
  destruct q as [s | k'].
  - destruct (Other eq_refl) as [H' ->]. now rewrite (IH H').
  - cbn [pass]. destruct (String.eqb k' k) eqn:E.
    + destruct (Hole_k k' eq_refl E) as [H' ->]. now rewrite (IH H').
    + assert (E' : count_holes k (Hole k' :: qs) = count_holes k qs).
      { unfold count_holes. cbn [List.filter]. now rewrite E. }
      destruct (Other E') as [H' ->]. now rewrite (IH H').
Qed.

Lemma resolve_text (entries : list (string * list Piece)) (s : string) :
  resolve entries (Text s) = [Text s].
Proof.
  induction entries as [|e entries IH]; [reflexivity |].
  cbn [resolve bind_piece flat_map]. rewrite IH. reflexivity.
Qed.

Lemma resolve_other (entries : list (string * list Piece)) (name : string) :
  existsb (String.eqb name) (List.map fst entries) = false ->
  resolve entries (Hole name) = [Hole name].
Proof.
  induction entries as [|e entries IH]; [reflexivity |].
  cbn [List.map existsb]. intros H. apply orb_false_elim in H as [H1 H2].
  cbn [resolve bind_piece]. rewrite H1. cbn [flat_map]. rewrite (IH H2). reflexivity.
Qed.

Lemma resolve_key (mid : list (string * list Piece)) (k : string) (rs : list Piece)
    (rest : list (string * list Piece)) :
  existsb (String.eqb k) (List.map fst mid) = false ->
  resolve (mid ++ (k, rs) :: rest)%list (Hole k) = flat_map (resolve rest) rs.
Proof.
  induction mid as [|e mid IH].
  - intros _. cbn [app resolve bind_piece fst snd]. now rewrite String.eqb_refl.
  - cbn [List.map existsb]. intros H. apply orb_false_elim in H as [H1 H2].
    cbn [app resolve bind_piece]. rewrite H1. cbn [flat_map].
    rewrite (IH H2). apply app_nil_r.
Qed.

Lemma resolve_cons (e : string * list Piece) (rest : list (string * list Piece))
    (ps : list Piece) :
  flat_map (resolve (e :: rest)) ps
  = flat_map (resolve rest) (flat_map (bind_piece (fst e) (snd e)) ps).
Proof.
  induction ps as [|p ps IH]; [reflexivity |].
  cbn [flat_map]. rewrite flat_map_app, <- IH. reflexivity.
Qed.

(** [render] on a template and values read as pieces, pass after pass. *)
Lemma render_passes (entries : list (string * list Piece)) :
  forallb (fun e => negb (has_pattern (template_of (snd e)))) entries = true ->
  forall ps, tokens_at_holes entries ps = true ->
  render (template_of ps) (List.map entry_of entries)
  = template_of (flat_map (resolve entries) ps).
Proof.
  induction entries as [|e entries IH]; intros Hv ps Ht.
  - cbn [List.map render fold_left]. f_equal. clear Hv Ht.
    induction ps as [|p ps IHps]; [reflexivity |].
    cbn [flat_map resolve app]. f_equal. exact IHps.
  - cbn [forallb] in Hv. apply andb_true_iff in Hv as [He Hv].
    apply negb_true_iff in He.
    cbn [tokens_at_holes] in Ht. apply andb_true_iff in Ht as [Hc Ht].
    apply Nat.eqb_eq in Hc.
    cbn [List.map]. rewrite render_cons. unfold entry_of at 1 2. cbn [fst snd].
    change (value_text (JStr (template_of (snd e)))) with (template_of (snd e)).
    change (replaceAll (template_of ps) (placeholder (fst e)) (template_of (snd e)))
      with (replaceAll_scan (placeholder (fst e)) (template_of (snd e)) EmptyString
              (template_of ps) O).
    rewrite replaceAll_scan_literal by exact He.
    rewrite subst_scan_at_holes by exact Hc.
    rewrite template_of_bind, (IH Hv _ Ht). now rewrite resolve_cons.
Qed.

Lemma render_text_entries (vars : list (string * JsValue)) (t : string) :
  render t (List.map entry_of (List.map text_entry vars)) = render t vars.
Proof.
  revert t. induction vars as [|e vars IH]; intros t; [reflexivity |].
  cbn [List.map]. rewrite !render_cons, IH. unfold entry_of, text_entry. cbn [fst snd].
  change (value_text (JStr (template_of [Text (value_text (snd e))])))
    with (template_of [Text (value_text (snd e))]).
  now rewrite template_of_text.
Qed.

Lemma resolve_fill (vars : list (string * JsValue)) (p : Piece) :
  resolve (List.map text_entry vars) p = [fill vars p].
Proof.
  destruct p as [s | name]; [apply resolve_text |].
  induction vars as [|e vars IH]; [reflexivity |].
  cbn [List.map resolve bind_piece fill lookup_entry].
  change (fst (text_entry e)) with (fst e).
  change (snd (text_entry e)) with [Text (value_text (snd e))].
  destruct (String.eqb name (fst e)).
  - cbn [flat_map]. now rewrite resolve_text.
  - cbn [flat_map]. rewrite IH. reflexivity.
Qed.

(** [render] on values each read as one text. *)
Lemma render_texts (vars : list (string * JsValue)) (ps : list Piece) :
  forallb (fun e => negb (has_pattern (value_text (snd e)))) vars = true ->
  tokens_at_holes (List.map text_entry vars) ps = true ->
  render (template_of ps) vars = substitute vars ps.
Proof.
  intros Hv Ht. rewrite <- render_text_entries.
  rewrite render_passes; [| | exact Ht].
  - unfold substitute. f_equal. clear Ht.
    induction ps as [|p ps IH]; [reflexivity |].
    cbn [flat_map List.map]. rewrite resolve_fill. cbn [app]. f_equal. exact IH.
  - clear Ht. induction vars as [|e vars IH]; [reflexivity |].
    cbn [forallb List.map] in *. apply andb_true_iff in Hv as [He Hv].
    rewrite (IH Hv), andb_true_r.
    change (snd (text_entry e)) with [Text (value_text (snd e))].
    now rewrite template_of_text.
Qed.

(** C4 (as amended).  [render] makes one pass per key, in the order in which
    the mapping gives its keys; a pass does not read again the text it puts
    in, and the passes of the keys that follow do.  With the template and
    every value read as texts and placeholders, for values without
    replacement pattern and when at every pass the token of the key starts
    at the placeholders of the key only, the output is the template with
    every piece resolved: a text stays; a placeholder that names none of
    the keys still to be passed stays; a placeholder of a key becomes the
    pieces of the value of the key, resolved in turn by the passes of the
    keys that follow it, and by these only.  So a token held by the value
    of a key stays in the output when it names the key itself, a key that
    the mapping gives before it or no key, and is replaced by the value of
    its key when the mapping gives that key after. *)
Theorem render_rescans_for_later_keys :
  (forall (ps : list Piece) (entries : list (string * list Piece)),
      forallb (fun e => negb (has_pattern (template_of (snd e)))) entries = true ->
      tokens_at_holes entries ps = true ->
      render (template_of ps) (List.map entry_of entries)
      = template_of (flat_map (resolve entries) ps))
  /\ (forall (s : string) (rest : list (string * list Piece)),
        resolve rest (Text s) = [Text s])
  /\ (forall (name : string) (rest : list (string * list Piece)),
        existsb (String.eqb name) (List.map fst rest) = false ->
        resolve rest (Hole name) = [Hole name])
  /\ (forall (mid : list (string * list Piece)) (k : string) (rs : list Piece)
             (rest : list (string * list Piece)),
        existsb (String.eqb k) (List.map fst mid) = false ->
        resolve (mid ++ (k, rs) :: rest)%list (Hole k) = flat_map (resolve rest) rs).
Proof.
  split; [intros; now apply render_passes |].
  split; [intros; apply resolve_text |].
  split; [intros; now apply resolve_other | intros; now apply resolve_key].
Qed.

Lemma render_rescans_for_later_keys_witness :
  render "<style>p{color:red}</style><h1>{{TITLE}}</h1><p>{{BODY}}</p>{{OTHER}}"
    [("TITLE", JStr "a {b} $5");
     ("BODY", JStr "see {{TITLE}}, {{BODY}}, {{NOTE}} and {{OTHER}}");
     ("NOTE", JStr "n")]
  = "<style>p{color:red}</style><h1>a {b} $5</h1><p>see {{TITLE}}, {{BODY}}, n and {{OTHER}}</p>{{OTHER}}"
  /\ render "{{A}}" [("B", JStr "x"); ("A", JStr "{{B}}")] = "{{B}}"
  /\ render "{{A}}" [("A", JStr "{{B}}"); ("B", JStr "x")] = "x".
Proof.
  split; [| split].
  - apply (proj1 render_rescans_for_later_keys
             [Text "<style>p{color:red}</style><h1>"; Hole "TITLE"; Text "</h1><p>";
              Hole "BODY"; Text "</p>"; Hole "OTHER"]
             [("TITLE", [Text "a {b} $5"]);
              ("BODY", [Text "see "; Hole "TITLE"; Text ", "; Hole "BODY"; Text ", ";
                        Hole "NOTE"; Text " and "; Hole "OTHER"]);
              ("NOTE", [Text "n"])]); reflexivity.
  - apply (proj1 render_rescans_for_later_keys [Hole "A"]
             [("B", [Text "x"]); ("A", [Hole "B"])]); reflexivity.
  - apply (proj1 render_rescans_for_later_keys [Hole "A"]
             [("A", [Hole "B"]); ("B", [Text "x"])]); reflexivity.
Defined.

(** C4, as stated, fails: the value of [A] is the token of [B], which comes
    after [A] in the mapping, and the token does not stay in the output. *)
Lemma render_rescans_substituted_text :
  render "{{A}}" [("A", JStr "{{B}}"); ("B", JStr "x")] = "x"
  /\ count_occ "{{B}}" (render "{{A}}" [("A", JStr "{{B}}"); ("B", JStr "x")]) = O.
Proof. split; reflexivity. Qed.

(** C5 (as amended).  For a template read as texts and placeholders and a
    mapping whose values hold no replacement pattern, when at the pass of
    every key the token of the key starts, in the template with the
    placeholders of the keys before it replaced by their values, at the
    placeholders of the key only, [render] gives the template with every
    placeholder whose name is a key replaced by the string form of the
    value ([null] and [undefined] giving the empty string), at all its
    occurrences, and with every other placeholder and every text as it
    was; with no key at all the template comes back unchanged; and the two
    examples hold. *)
Theorem render_substitutes :
  (forall (ps : list Piece) (vars : list (string * JsValue)),
      forallb (fun e => negb (has_pattern (value_text (snd e)))) vars = true ->
      tokens_at_holes (List.map text_entry vars) ps = true ->
      render (template_of ps) vars = substitute vars ps)
  /\ (forall t : string, render t [] = t)
  /\ render "Hello {{NAME}}, {{NAME}} again" [("NAME", JStr "X")] = "Hello X, X again"
  /\ render "Hello {{NAME}}, {{NAME}} again" [] = "Hello {{NAME}}, {{NAME}} again".
Proof.
  split; [intros; now apply render_texts |]. repeat split.
Qed.

Lemma render_substitutes_witness :
  render
    "<style>p{color:red}</style><h1>{{TITLE}}</h1><p>{{POST_CONTENT}} {{OTHER}}{{SUB}}</p>"
    [("TITLE", JStr "a}b"); ("POST_CONTENT", JStr "a {b} c costs $5, see {{TITLE}}");
     ("SUB", JNull); ("COUNT", JNum 3)]
  = "<style>p{color:red}</style><h1>a}b</h1><p>a {b} c costs $5, see {{TITLE}} {{OTHER}}</p>".
Proof.
  apply (proj1 render_substitutes
           [Text "<style>p{color:red}</style><h1>"; Hole "TITLE"; Text "</h1><p>";
            Hole "POST_CONTENT"; Text " "; Hole "OTHER"; Hole "SUB"; Text "</p>"]
           [("TITLE", JStr "a}b");
            ("POST_CONTENT", JStr "a {b} c costs $5, see {{TITLE}}");
            ("SUB", JNull); ("COUNT", JNum 3)]); reflexivity.
Defined.

(** C5, as stated, fails: the placeholder of [TITLE] does not end as the
    string form of its value, which is the token of [AUTHOR], but as the
    value of [AUTHOR], whose pass comes later. *)
Lemma render_value_replaced_again :
  render "{{TITLE}} by {{AUTHOR}}" [("TITLE", JStr "{{AUTHOR}}"); ("AUTHOR", JStr "me")]
  = "me by me"
  /\ substitute [("TITLE", JStr "{{AUTHOR}}"); ("AUTHOR", JStr "me")]
       [Hole "TITLE"; Text " by "; Hole "AUTHOR"]
     = "{{AUTHOR}} by me".
Proof. split; reflexivity. Qed.

(** The inputs that the two conditions leave out.  A replacement pattern in
    a value is not put in as it is, while a dollar sign that starts no
    pattern is. *)
Example render_dollar :
  render "{{PRICE}}" [("PRICE", JStr "$$5")] = "$5"
  /\ render "<b>{{A}}</b>" [("A", JStr "$&")] = "<b>{{A}}</b>"
  /\ render "{{A}}" [("A", JStr "{{B}}"); ("B", JStr "<$&>")] = "<{{B}}>"
  /\ render "{{PRICE}}" [("PRICE", JStr "$5 or $ 5")] = "$5 or $ 5".
Proof. repeat split. Qed.

(** A value can complete, with the text around its placeholder, the token
    of a key whose pass comes later. *)
Example render_token_across_pieces :
  render "{{X{{A}}}}" [("A", JStr "Y"); ("XY", JStr "z")] = "z"
  /\ tokens_at_holes (List.map text_entry [("A", JStr "Y"); ("XY", JStr "z")])
       [Text "{{X"; Hole "A"; Text "}}"] = false.
Proof. split; reflexivity. Qed.

(* ===================================================================== *)
(** ** Further properties of the template substitution engine *)
(* ===================================================================== *)

(** *** Templates without the token of a key *)

Lemma replaceAll_scan_absent (pat r : string) :
  forall s before, count_occ pat s = O -> replaceAll_scan pat r before s O = s.
Proof.
  induction s as [|c s IH]; intros before H; [reflexivity |].
  cbn [count_occ replaceAll_scan] in *.
  destruct (String.prefix pat (String c s)); [discriminate |].
  now rewrite IH.
Qed.

Lemma replaceAll_absent (s key r : string) :
  count_occ (placeholder key) s = O -> replaceAll s (placeholder key) r = s.
Proof.
  intros H.
  change (replaceAll s (placeholder key) r)
    with (replaceAll_scan (placeholder key) r EmptyString s O).
  now apply replaceAll_scan_absent.
Qed.

Lemma render_absent (t : string) (vars : list (string * JsValue)) :
  Forall (fun e => count_occ (placeholder (fst e)) t = O) vars -> render t vars = t.
Proof.
  induction vars as [|e vars IH]; intros H; [reflexivity |].
  apply Forall_cons_iff in H as [He H].
  rewrite render_cons. unfold value_text. rewrite replaceAll_absent by exact He.
  now apply IH.
Qed.

(** X7.  A template in which the token of no key of the mapping occurs
    comes back unchanged, whatever the values. *)
Theorem render_without_tokens (t : string) (vars : list (string * JsValue)) :
  Forall (fun e => count_occ (placeholder (fst e)) t = O) vars -> render t vars = t.
Proof. apply render_absent. Qed.

Lemma render_without_tokens_witness :
  render "<p>{{BODY}} costs $1</p>" [("TITLE", JStr "$&"); ("Body", JStr "x")]
  = "<p>{{BODY}} costs $1</p>".
Proof.
  apply render_without_tokens. repeat constructor.
Defined.

(** *** What is left of the placeholders *)

Lemma count_occ_text (p' a b : string) :
  has_char "{" a = false ->
  count_occ (String "{" p') (a ++ b) = count_occ (String "{" p') b.
Proof.
  induction a as [|x a IH]; [reflexivity |].
  cbn [has_char]. intros H. apply orb_false_elim in H as [Hx Ha].
  rewrite append_cons. cbn [count_occ]. rewrite prefix_cons, Ascii.eqb_sym, Hx.
  now apply IH.
Qed.

Lemma count_occ_other (k k' b : string) :
  brace_free k = true -> brace_free k' = true -> String.eqb k' k = false ->
  count_occ (placeholder k) (placeholder k' ++ b) = count_occ (placeholder k) b.
Proof.
  intros Hk Hk' Hne. rewrite !placeholder_cons, !append_cons, append_assoc.
  cbn [count_occ].
  rewrite prefix_cons, Ascii.eqb_refl, andb_true_l.
  rewrite prefix_cons, Ascii.eqb_refl, andb_true_l.
  destruct (String.prefix (k ++ "}}") (k' ++ "}}" ++ b)) eqn:E.
  { apply prefix_names in E; [| assumption ..]. subst k'.
    now rewrite String.eqb_refl in Hne. }
  rewrite prefix_cons, Ascii.eqb_refl, andb_true_l.
  rewrite prefix_brace_name by exact Hk'. cbn [Nat.add].
  rewrite <- append_assoc. apply count_occ_text.
  rewrite has_char_append, (brace_free_open _ Hk'). reflexivity.
Qed.

Lemma count_occ_pieces (k : string) (ps : list Piece) :
  brace_free k = true -> forallb wf_piece ps = true -> no_hole k ps = true ->
  count_occ (placeholder k) (template_of ps) = O.
Proof.
  intros Hk. induction ps as [|p ps IH]; [reflexivity |].
  unfold no_hole. cbn [forallb template_of]. intros Hw Hn.
  apply andb_true_iff in Hw as [Hp Hw]. apply andb_true_iff in Hn as [Hq Hn].
  specialize (IH Hw Hn). destruct p as [s | k']; cbn [piece_text wf_piece] in *.
  - apply negb_true_iff in Hp. rewrite placeholder_cons in *.
    now rewrite count_occ_text.
  - apply negb_true_iff in Hq. now rewrite count_occ_other.
Qed.

Lemma lookup_entry_is_key (k : string) (vars : list (string * JsValue)) :
  is_key k vars = true -> exists v, lookup_entry k vars = Some v.
Proof.
  induction vars as [|e vars IH]; [discriminate |].
  unfold is_key. cbn [existsb lookup_entry].
  destruct (String.eqb k (fst e)); [now exists (snd e) | exact IH].
Qed.

Lemma no_hole_fill (k : string) (vars : list (string * JsValue)) (ps : list Piece) :
  is_key k vars = true -> no_hole k (List.map (fill vars) ps) = true.
Proof.
  intros Hk. induction ps as [|p ps IH]; [reflexivity |].
  unfold no_hole in *. cbn [List.map forallb]. rewrite IH, andb_true_r.
  destruct p as [s | name]; [reflexivity |]. cbn [fill].
  destruct (lookup_entry name vars) eqn:E; [reflexivity |].
  apply negb_true_iff, String.eqb_neq. intros ->.
  destruct (lookup_entry_is_key k vars Hk) as [v Hv]. congruence.
Qed.

Lemma lookup_entry_wf (name : string) (vars : list (string * JsValue)) (v : JsValue) :
  forallb wf_entry vars = true -> lookup_entry name vars = Some v ->
  has_char "{" (value_text v) = false.
Proof.
  induction vars as [|e vars IH]; [discriminate |].
  cbn [forallb lookup_entry]. intros H. apply andb_true_iff in H as [He H].
  destruct (String.eqb name (fst e)); [| now apply IH].
  intros [= <-]. now destruct (wf_entry_parts e He) as (_ & Hb & _).
Qed.

Lemma wf_fill (vars : list (string * JsValue)) (ps : list Piece) :
  forallb wf_entry vars = true -> forallb wf_piece ps = true ->
  forallb wf_piece (List.map (fill vars) ps) = true.
Proof.
  intros Hv. induction ps as [|p ps IH]; [reflexivity |].
  cbn [forallb List.map]. intros H. apply andb_true_iff in H as [Hp Hps].
  rewrite (IH Hps), andb_true_r.
  destruct p as [s | name]; cbn [fill]; [exact Hp |].
  destruct (lookup_entry name vars) as [v |] eqn:E; [| exact Hp].
  cbn [wf_piece]. now rewrite (lookup_entry_wf name vars v Hv E).
Qed.

Lemma is_key_wf (k : string) (vars : list (string * JsValue)) :
  forallb wf_entry vars = true -> is_key k vars = true -> brace_free k = true.
Proof.
  induction vars as [|e vars IH]; [discriminate |].
  unfold is_key. cbn [forallb existsb]. intros H. apply andb_true_iff in H as [He H].
  destruct (String.eqb k (fst e)) eqn:E; [| now apply IH].
  intros _. apply String.eqb_eq in E. subst k.
  now destruct (wf_entry_parts e He) as (Hk & _).
Qed.

(** X8.  On a template made of text without an opening brace and of
    placeholders whose names hold no brace, with keys that hold no brace and
    values that hold neither an opening brace nor a dollar sign, the result
    of [render] holds the token of no key of the mapping, and rendering it
    again with the same mapping changes nothing. *)
Theorem render_leaves_no_token (ps : list Piece) (vars : list (string * JsValue)) :
  forallb wf_piece ps = true -> forallb wf_entry vars = true ->
  (forall k, is_key k vars = true ->
             count_occ (placeholder k) (render (template_of ps) vars) = O)
  /\ render (render (template_of ps) vars) vars = render (template_of ps) vars.
Proof.
  intros Hps Hv.
  assert (Hc : forall k, is_key k vars = true ->
                         count_occ (placeholder k) (render (template_of ps) vars) = O).
  { intros k Hk. rewrite render_wf by assumption. unfold substitute.
    apply count_occ_pieces.
    - now apply (is_key_wf k vars).
    - now apply wf_fill.
    - now apply no_hole_fill. }
  split; [exact Hc |].
  apply render_absent. apply Forall_forall. intros e He. apply Hc.
  unfold is_key. apply existsb_exists. exists e. split.
  - now apply list_elem_of_In.
  - apply String.eqb_refl.
Qed.

Lemma render_leaves_no_token_witness :
  count_occ "{{TITLE}}"
    (render "<h1>{{TITLE}}</h1><p>{{TITLE}} {{OTHER}}</p>"
       [("TITLE", JStr "a}b"); ("COUNT", JNum 3)]) = O.
Proof.
  apply (proj1 (render_leaves_no_token
                  [Text "<h1>"; Hole "TITLE"; Text "</h1><p>"; Hole "TITLE"; Text " ";
                   Hole "OTHER"; Text "</p>"]
                  [("TITLE", JStr "a}b"); ("COUNT", JNum 3)] eq_refl eq_refl) "TITLE").
  reflexivity.
Defined.

(* ===================================================================== *)
(** ** Properties of the post loader *)
(* ===================================================================== *)

(** *** The order of the dates *)

Lemma ltb_lt (a b : string) : String.ltb a b = true <-> String_as_OT.lt a b.
Proof.
  rewrite <- String_as_OT.cmp_lt. unfold String.ltb, String_as_OT.cmp.
  destruct (String.compare a b); split; (reflexivity || discriminate).
Qed.

Lemma ltb_trans (a b c : string) :
  String.ltb a b = true -> String.ltb b c = true -> String.ltb a c = true.
Proof. rewrite !ltb_lt. apply String_as_OT.lt_trans. Qed.

Lemma ltb_total (a b : string) :
  a <> b -> String.ltb a b = false -> String.ltb b a = true.
Proof.
  unfold String.ltb. rewrite (String.compare_antisym b a).
  destruct (String.compare a b) eqn:E; intros Hne H; try reflexivity; try discriminate.
  now apply String.compare_eq_iff in E.
Qed.

(** *** The sort *)

Section Sorting.

Context {A : Type} (comparefn : A -> A -> Z).

Lemma insert_sorted_perm (x : A) (l : list A) :
  Permutation (x :: l) (insert_sorted comparefn x l).
Proof.
  induction l as [|t l IH]; [reflexivity |].
  cbn [insert_sorted]. destruct (0 <? comparefn t x)%Z; [| reflexivity].
  rewrite perm_swap. now apply perm_skip.
Qed.

Lemma sort_loop_perm (l acc : list A) :
  Permutation (rev acc ++ l)%list
    (rev (fold_left (fun acc x => insert_sorted comparefn x acc) l acc)).
Proof.
  revert acc. induction l as [|x l IH]; intros acc.
  - now rewrite app_nil_r.
  - cbn [fold_left]. rewrite <- IH.
    etransitivity; [symmetry; apply Permutation_middle |].
    change (x :: rev acc ++ l)%list with ((x :: rev acc) ++ l)%list.
    apply Permutation_app_tail.
    rewrite <- !Permutation_rev. apply insert_sorted_perm.
Qed.

Lemma Array_sort_perm (l : list A) : Permutation l (Array_sort comparefn l).
Proof. exact (sort_loop_perm l []). Qed.

End Sorting.

Lemma insert_sorted_Forall (P : Post -> Prop) (x : Post) (l : list Post) :
  P x -> Forall P l -> Forall P (insert_sorted by_date_desc x l).
Proof.
  intros Hx Hl. eapply Permutation_Forall; [apply insert_sorted_perm |].
  now constructor.
Qed.

Lemma insert_sorted_older (x : Post) (l : list Post) :
  StronglySorted older l -> Forall (fun t => date t <> date x) l ->
  StronglySorted older (insert_sorted by_date_desc x l).
Proof.
  induction l as [|t l IH]; intros Hs Hd.
  - repeat constructor.
  - apply StronglySorted_inv in Hs as [Hs Ht].
    apply Forall_cons_iff in Hd as [Htx Hd].
    cbn [insert_sorted]. unfold by_date_desc at 1.
    destruct (String.ltb (date t) (date x)) eqn:E; cbn [Z.ltb Z.compare].
    + constructor; [now apply IH |].
      now apply insert_sorted_Forall.
    + assert (Hxt : older x t) by now apply ltb_total.
      constructor; [now constructor |].
      constructor; [exact Hxt |].
      eapply Forall_impl; [exact Ht |]. intros u Hu. unfold older in *.
      now apply ltb_trans with (date t).
Qed.

Lemma sort_loop_older (l acc : list Post) :
  StronglySorted older acc -> NoDup (List.map date (acc ++ l)%list) ->
  StronglySorted older (fold_left (fun acc x => insert_sorted by_date_desc x acc) l acc).
Proof.
  revert acc. induction l as [|x l IH]; intros acc Hs Hn; [exact Hs |].
  cbn [fold_left].
  assert (P : Permutation (List.map date (acc ++ x :: l)%list)
                (List.map date (insert_sorted by_date_desc x acc ++ l)%list)).
  { apply Permutation_map.
    etransitivity; [symmetry; apply Permutation_middle |].
    change (x :: acc ++ l)%list with ((x :: acc) ++ l)%list.
    apply Permutation_app_tail, insert_sorted_perm. }
  apply IH; [| now rewrite <- P].
  apply insert_sorted_older; [exact Hs |].
  rewrite List.map_app in Hn. cbn [List.map] in Hn.
  apply NoDup_app in Hn as (_ & Hn & _).
  apply Forall_forall. intros t Ht E.
  apply (Hn (date t)).
  - apply list_elem_of_In, in_map, list_elem_of_In, Ht.
  - rewrite E. apply list_elem_of_here.
Qed.

Lemma StronglySorted_snoc (l : list Post) (t : Post) :
  StronglySorted newer l -> Forall (fun u => newer u t) l ->
  StronglySorted newer (l ++ [t])%list.
Proof.
  induction l as [|u l IH]; intros Hs Hf.
  - repeat constructor.
  - apply StronglySorted_inv in Hs as [Hs Hu].
    apply Forall_cons_iff in Hf as [Hut Hf].
    cbn [app]. constructor; [now apply IH |].
    apply Forall_app. split; [exact Hu | now constructor].
Qed.

Lemma StronglySorted_rev_older (l : list Post) :
  StronglySorted older l -> StronglySorted newer (rev l).
Proof.
  induction l as [|t l IH]; intros Hs; [constructor |].
  apply StronglySorted_inv in Hs as [Hs Ht]. cbn [rev].
  apply StronglySorted_snoc; [now apply IH |].
  apply Forall_forall. intros u Hu.
  apply list_elem_of_In, in_rev, list_elem_of_In in Hu.
  rewrite Forall_forall in Ht. now apply Ht.
Qed.

Lemma Array_sort_newer (l : list Post) :
  NoDup (List.map date l) -> StronglySorted newer (Array_sort by_date_desc l).
Proof.
  intros Hn. unfold Array_sort. apply StronglySorted_rev_older.
  apply sort_loop_older; [constructor | exact Hn].
Qed.

Lemma ltb_irrefl (a : string) : String.ltb a a = false.
Proof.
  unfold String.ltb. pose proof (String.compare_antisym a a) as H.
  destruct (String.compare a a); (reflexivity || discriminate).
Qed.

Lemma newer_asym (a b : Post) : newer a b -> newer b a -> False.
Proof.
  unfold newer. intros H1 H2. pose proof (ltb_trans _ _ _ H1 H2) as H.
  now rewrite ltb_irrefl in H.
Qed.

(** A list has at most one arrangement in strictly descending order of the
    dates: whatever sequence of comparisons an implementation of the sort
    makes, its result on posts of different dates is the one of the model. *)
Lemma sorted_arrangement_unique (l1 l2 : list Post) :
  StronglySorted newer l1 -> StronglySorted newer l2 -> Permutation l1 l2 -> l1 = l2.
Proof.
  revert l2. induction l1 as [|a l1 IH]; intros l2 S1 S2 P.
  - now apply Permutation_nil in P.
  - destruct l2 as [|b l2]; [now apply Permutation_sym, Permutation_nil in P |].
    apply StronglySorted_inv in S1 as [S1 Fa].
    apply StronglySorted_inv in S2 as [S2 Fb].
    rewrite Forall_forall in Fa, Fb.
    assert (E : a = b).
    { assert (Ha : In a (b :: l2)) by (eapply Permutation_in; [exact P | now left]).
      assert (Hb : In b (a :: l1))
        by (eapply Permutation_in; [symmetry; exact P | now left]).
      destruct Ha as [Ha | Ha]; [now symmetry |].
      destruct Hb as [Hb | Hb]; [exact Hb |].
      exfalso. apply (newer_asym a b).
      - apply Fa. now apply list_elem_of_In.
      - apply Fb. now apply list_elem_of_In. }
    subst b. f_equal. apply IH; [assumption .. |].
    now apply Permutation_cons_inv in P.
Qed.

Lemma Array_sort_any_sort (l sorted : list Post) :
  NoDup (List.map date l) -> Permutation l sorted -> StronglySorted newer sorted ->
  sorted = Array_sort by_date_desc l.
Proof.
  intros Hn P S. apply sorted_arrangement_unique; [exact S | now apply Array_sort_newer |].
  rewrite <- P. apply Array_sort_perm.
Qed.

(** *** The loop over the files *)

Section LoaderProperties.

Variable path_join : list string -> string.
Variable CONTENT : string.
Variable blogSlug : string.
Variable matter : string -> Outcome Parsed.

Local Abbreviation dir := (postsDir path_join CONTENT blogSlug).
Local Abbreviation loadFile' fs := (loadFile path_join CONTENT fs blogSlug matter).
Local Abbreviation loadFiles' fs := (loadFiles path_join CONTENT fs blogSlug matter).
Local Abbreviation loadPosts' fs := (loadPosts path_join CONTENT fs blogSlug matter).

Lemma loadFiles_app (fs : gmap string Node) (l1 l2 : list string) (posts : list Post) :
  loadFiles' fs (l1 ++ l2)%list posts
  = (posts' ← loadFiles' fs l1 posts; loadFiles' fs l2 posts').
Proof.
  revert posts. induction l1 as [|f l1 IH]; intros posts; [reflexivity |].
  cbn [app loadFiles]. destruct (loadFile' fs f posts) as [ps | code msg |];
    [apply IH | reflexivity | reflexivity].
Qed.

Lemma missing_fields_nil (fm : gmap string JsValue) :
  truthy (prop fm "title") = true -> truthy (prop fm "date") = true ->
  truthy (prop fm "author") = true -> missing_fields fm = [].
Proof. unfold missing_fields. now intros -> -> ->. Qed.

(** A turn of the loop for a file that is read and parsed. *)
Lemma loadFile_parsed (fs : gmap string Node) (file raw : string) (parsed : Parsed)
    (posts : list Post) :
  endsWith file ".md" = true ->
  readFileSync fs (path_join [dir; file]) = Done raw ->
  matter raw = Done parsed ->
  loadFile' fs file posts
  = match missing_fields (parsed_data parsed) with
    | [] => if truthy (prop (parsed_data parsed) "draft") then Done posts
            else Done (posts ++ [post_of file parsed])%list
    | missing => Exit 1 (missing_message blogSlug file missing)
    end.
Proof.
  intros Hmd Hraw Hp. unfold loadFile. rewrite Hmd, Hraw. cbn [negb mbind Outcome_bind].
  rewrite Hp. cbn [mbind Outcome_bind].
  now destruct (missing_fields (parsed_data parsed)).
Qed.

(** Replacing the listing of the directory changes no file. *)
Lemma readFileSync_relist (fs : gmap string Node) (names names' : list string)
    (p : string) :
  fs !! dir = Some (Dir names) ->
  readFileSync (<[dir := Dir names']> fs) p = readFileSync fs p.
Proof.
  intros Hd. unfold readFileSync. destruct (decide (dir = p)) as [<- | Hne].
  - now rewrite lookup_insert_eq, Hd.
  - now rewrite lookup_insert_ne.
Qed.

Lemma loadFiles_relist (fs : gmap string Node) (names names' files : list string)
    (posts : list Post) :
  fs !! dir = Some (Dir names) ->
  loadFiles' (<[dir := Dir names']> fs) files posts = loadFiles' fs files posts.
Proof.
  intros Hd. revert posts. induction files as [|f files IH]; intros posts; [reflexivity |].
  cbn [loadFiles].
  assert (E : loadFile' (<[dir := Dir names']> fs) f posts = loadFile' fs f posts).
  { unfold loadFile. now rewrite (readFileSync_relist _ _ _ _ Hd). }
  rewrite E. destruct (loadFile' fs f posts); cbn [mbind Outcome_bind];
    [apply IH | reflexivity ..].
Qed.

Lemma loadPosts_listed (fs : gmap string Node) (names : list string) :
  fs !! dir = Some (Dir names) ->
  loadPosts' fs
  = (posts ← loadFiles' fs names []; Done (Array_sort by_date_desc posts)).
Proof.
  intros Hd. unfold loadPosts, existsSync, readdirSync. now rewrite Hd.
Qed.

(** C3 (as amended).  The required fields are checked before the draft
    flag.  An item with a truthy [draft] whose [title], [date] and [author]
    are all truthy is left out without any error: its turn of the loop
    leaves the posts as they were, and the loader returns what it returns
    for the directory without the item.  An item that lacks a required
    field ends the build with the message that names the missing fields,
    whatever its [draft] flag. *)
Theorem draft_skipped_after_validation (fs : gmap string Node) (file raw : string)
    (parsed : Parsed) :
  endsWith file ".md" = true ->
  readFileSync fs (path_join [dir; file]) = Done raw ->
  matter raw = Done parsed ->
  (truthy (prop (parsed_data parsed) "draft") = true ->
   truthy (prop (parsed_data parsed) "title") = true ->
   truthy (prop (parsed_data parsed) "date") = true ->
   truthy (prop (parsed_data parsed) "author") = true ->
   (forall posts, loadFile' fs file posts = Done posts)
   /\ (forall before after,
         fs !! dir = Some (Dir (before ++ file :: after)%list) ->
         loadPosts' fs = loadPosts' (<[dir := Dir (before ++ after)%list]> fs)))
  /\ (missing_fields (parsed_data parsed) <> [] ->
      (forall posts,
          loadFile' fs file posts
          = Exit 1 (missing_message blogSlug file (missing_fields (parsed_data parsed))))
      /\ (forall before after posts,
            fs !! dir = Some (Dir (before ++ file :: after)%list) ->
            loadFiles' fs before [] = Done posts ->
            loadPosts' fs
            = Exit 1 (missing_message blogSlug file (missing_fields (parsed_data parsed))))).
Proof.
  intros Hmd Hraw Hp. split.
  - intros Hd Ht Hda Ha.
    assert (Skip : forall posts, loadFile' fs file posts = Done posts).
    { intros posts. rewrite (loadFile_parsed fs file raw parsed) by assumption.
      now rewrite missing_fields_nil, Hd. }
    split; [exact Skip |].
    intros before after Hdir.
    rewrite (loadPosts_listed fs _ Hdir).
    rewrite (loadPosts_listed (<[dir := Dir (before ++ after)%list]> fs) (before ++ after)%list)
      by apply lookup_insert_eq.
    rewrite (loadFiles_relist fs _ _ _ _ Hdir).
    rewrite !loadFiles_app. cbn [loadFiles].
    destruct (loadFiles' fs before []) as [ps | |]; cbn [mbind Outcome_bind];
      [| reflexivity ..].
    now rewrite Skip.
  - intros Hm.
    assert (Stop : forall posts,
               loadFile' fs file posts
               = Exit 1 (missing_message blogSlug file (missing_fields (parsed_data parsed)))).
    { intros posts. rewrite (loadFile_parsed fs file raw parsed) by assumption.
      now destruct (missing_fields (parsed_data parsed)). }
    split; [exact Stop |].
    intros before after posts Hdir Hb.
    rewrite (loadPosts_listed fs _ Hdir), loadFiles_app, Hb.
    cbn [mbind Outcome_bind loadFiles]. now rewrite Stop.
Qed.

(** C10.  When nothing exists at the path of the posts directory of the
    blog, [loadPosts] returns the empty list: no error is raised and the
    build goes on with a blog of no post. *)
Theorem loadPosts_without_directory (fs : gmap string Node) :
  existsSync fs dir = false -> loadPosts' fs = Done [].
Proof. intros H. unfold loadPosts. now rewrite H. Qed.

(** The loader returns the posts it collected, sorted. *)
Lemma loadPosts_collected (fs : gmap string Node) (files : list string)
    (collected : list Post) :
  fs !! dir = Some (Dir files) ->
  loadFiles' fs files [] = Done collected ->
  loadPosts' fs = Done (Array_sort by_date_desc collected).
Proof. intros Hd Hc. now rewrite (loadPosts_listed fs _ Hd), Hc. Qed.

End LoaderProperties.

(** C6.  When the posts collected from the directory have dates that differ
    from one another, [loadPosts] returns these posts in the strictly
    descending order of their date strings; and the posts dated 2024-01-01,
    2024-03-01 and 2024-02-01 come back in the order 2024-03-01, 2024-02-01,
    2024-01-01. *)
Theorem loadPosts_sorted_by_date :
  (forall (path_join : list string -> string) (CONTENT blogSlug : string)
          (matter : string -> Outcome Parsed) (fs : gmap string Node)
          (files : list string) (collected : list Post),
      fs !! postsDir path_join CONTENT blogSlug = Some (Dir files) ->
      loadFiles path_join CONTENT fs blogSlug matter files [] = Done collected ->
      NoDup (List.map date collected) ->
      exists posts,
        loadPosts path_join CONTENT fs blogSlug matter = Done posts
        /\ Permutation collected posts
        /\ StronglySorted newer posts)
  /\ (exists posts,
        loadPosts join_slash "content" example_fs "moon" example_matter = Done posts
        /\ List.map date posts = ["2024-03-01"; "2024-02-01"; "2024-01-01"]).
Proof.
  split.
  - intros path_join CONTENT blogSlug matter fs files collected Hd Hc Hn.
    exists (Array_sort by_date_desc collected). split; [| split].
    + now apply loadPosts_collected with files.
    + apply Array_sort_perm.
    + now apply Array_sort_newer.
  - eexists. split; reflexivity.
Qed.

Lemma loadPosts_sorted_by_date_witness :
  exists posts,
    loadPosts join_slash "content" example_fs "moon" example_matter = Done posts
    /\ Permutation
         [post_of "a.md" (frontmatter [("title", JStr "First"); ("date", JStr "2024-01-01");
                                       ("author", JStr "mizuki")]);
          post_of "b.md" (frontmatter [("title", JStr "Second"); ("date", JStr "2024-03-01");
                                       ("author", JStr "mizuki"); ("tags", JArr [JStr "moon"])]);
          post_of "c.md" (frontmatter [("title", JStr "Third"); ("date", JStr "2024-02-01");
                                       ("author", JStr "mizuki")])]
         posts
    /\ StronglySorted newer posts.
Proof.
  apply (proj1 loadPosts_sorted_by_date join_slash "content" "moon" example_matter
           example_fs ["a.md"; "b.md"; "c.md"; "notes.txt"]).
  - reflexivity.
  - reflexivity.
  - vm_compute. repeat constructor; rewrite ?list_elem_of_In; simpl; intuition discriminate.
Defined.

Lemma draft_skipped_after_validation_witness :
  loadPosts join_slash "content" example_fs "draft" example_matter
  = loadPosts join_slash "content"
      (<["content/blogs/draft/posts" := Dir ["a.md"; "b.md"]]> example_fs)
      "draft" example_matter
  /\ loadPosts join_slash "content" example_fs "broken" example_matter
     = Exit 1 (missing_message "broken" "e.md" ["author"]).
Proof.
  split.
  - refine (proj2 (proj1 (draft_skipped_after_validation join_slash "content" "draft"
                            example_matter example_fs "d.md" "D" _ _ _ _) _ _ _ _)
              ["a.md"] ["b.md"] _); reflexivity.
  - refine (proj2 (proj2 (draft_skipped_after_validation join_slash "content" "broken"
                            example_matter example_fs "e.md" "E"
                            (frontmatter [("title", JStr "Draft"); ("date", JStr "2024-04-01");
                                          ("draft", JBool true)]) _ _ _) _)
              ["a.md"] [] _ _ _); try reflexivity. discriminate.
Defined.

(** C3, as stated, fails: the draft [e.md] has no author, and the loader
    ends the build instead of leaving the item out. *)
Lemma draft_without_author_aborts :
  (p ← example_matter "E"; Done (truthy (prop (parsed_data p) "draft"))) = Done true
  /\ loadPosts join_slash "content" example_fs "broken" example_matter
     = Exit 1 "❌ Frontmatter必須項目不足: broken/posts/e.md (不足: author)".
Proof. split; reflexivity. Qed.

Lemma loadPosts_without_directory_witness :
  existsSync example_fs (postsDir join_slash "content" "sun") = false
  /\ loadPosts join_slash "content" example_fs "sun" example_matter = Done [].
Proof.
  split; [reflexivity |].
  apply (loadPosts_without_directory join_slash "content" "sun" example_matter example_fs).
  reflexivity.
Defined.

(* ===================================================================== *)
(** ** Further properties of the post loader and of the neighbours of a post *)
(* ===================================================================== *)

(** *** Slugs *)

Lemma strip_md_restore (f : string) :
  endsWith f ".md" = true -> strip_md f ++ ".md" = f.
Proof.
  induction f as [|c f IH]; [discriminate |].
  cbn [endsWith strip_md]. destruct (String.eqb (String c f) ".md") eqn:E.
  - intros _. apply String.eqb_eq in E. now rewrite E.
  - cbn [orb]. intros H. rewrite append_cons. now rewrite (IH H).
Qed.

(** X9.  The slug of a post file followed by [.md] is the name of the
    file, so that two different post files never have the same slug. *)
Theorem slug_of_file (file : string) :
  endsWith file ".md" = true ->
  strip_md file ++ ".md" = file
  /\ forall other, endsWith other ".md" = true ->
                   strip_md other = strip_md file -> other = file.
Proof.
  intros H. split; [now apply strip_md_restore |].
  intros other Ho E.
  rewrite <- (strip_md_restore other Ho), <- (strip_md_restore file H). now rewrite E.
Qed.

Lemma slug_of_file_witness :
  strip_md "2024.md.md" ++ ".md" = "2024.md.md".
Proof. apply (proj1 (slug_of_file "2024.md.md" eq_refl)). Defined.

(** *** What the loop collects *)

Section LoaderInvariants.

Variable path_join : list string -> string.
Variable CONTENT : string.
Variable blogSlug : string.
Variable matter : string -> Outcome Parsed.

Local Abbreviation dir := (postsDir path_join CONTENT blogSlug).
Local Abbreviation loadFile' fs := (loadFile path_join CONTENT fs blogSlug matter).
Local Abbreviation loadFiles' fs := (loadFiles path_join CONTENT fs blogSlug matter).
Local Abbreviation loadPosts' fs := (loadPosts path_join CONTENT fs blogSlug matter).
Local Abbreviation posts_of' fs := (posts_of_file path_join CONTENT fs blogSlug matter).
Local Abbreviation ok' fs := (file_ok path_join CONTENT fs blogSlug matter).

Lemma missing_fields_truthy (fm : gmap string JsValue) :
  missing_fields fm = [] ->
  truthy (prop fm "title") = true /\ truthy (prop fm "date") = true
  /\ truthy (prop fm "author") = true.
Proof.
  unfold missing_fields.
  destruct (truthy (prop fm "title")); [| discriminate].
  destruct (truthy (prop fm "date")); [| discriminate].
  destruct (truthy (prop fm "author")); [| discriminate]. now intros _.
Qed.

(** What a turn of the loop that ends well does to the posts. *)
Lemma loadFile_Done (fs : gmap string Node) (file : string) (posts out : list Post) :
  loadFile' fs file posts = Done out ->
  out = posts
  \/ exists raw parsed,
       endsWith file ".md" = true
       /\ readFileSync fs (path_join [dir; file]) = Done raw
       /\ matter raw = Done parsed
       /\ missing_fields (parsed_data parsed) = []
       /\ truthy (prop (parsed_data parsed) "draft") = false
       /\ out = (posts ++ [post_of file parsed])%list.
Proof.
  unfold loadFile. destruct (endsWith file ".md") eqn:Hmd; cbn [negb];
    [| intros [= <-]; now left].
  destruct (readFileSync fs (path_join [dir; file])) as [raw | |] eqn:Hraw;
    cbn [mbind Outcome_bind]; [| discriminate ..].
  destruct (matter raw) as [parsed | |] eqn:Hp; cbn [mbind Outcome_bind];
    [| discriminate ..].
  destruct (missing_fields (parsed_data parsed)) eqn:Hm; cbn [List.length Nat.eqb negb];
    [| discriminate].
  destruct (truthy (prop (parsed_data parsed) "draft")) eqn:Hd.
  - intros [= <-]. now left.
  - intros [= <-]. right. now exists raw, parsed.
Qed.

(** The posts already collected play no part in a turn of the loop. *)
Lemma loadFile_from (fs : gmap string Node) (file : string) (posts : list Post) :
  loadFile' fs file posts
  = (more ← loadFile' fs file []; Done (posts ++ more)%list).
Proof.
  unfold loadFile. destruct (negb (endsWith file ".md")); cbn [mbind Outcome_bind];
    [now rewrite app_nil_r |].
  destruct (readFileSync fs (path_join [dir; file])) as [raw | |];
    cbn [mbind Outcome_bind]; [| reflexivity ..].
  destruct (matter raw) as [parsed | |]; cbn [mbind Outcome_bind]; [| reflexivity ..].
  destruct (negb (Nat.eqb (List.length (missing_fields (parsed_data parsed))) 0));
    [reflexivity |].
  destruct (truthy (prop (parsed_data parsed) "draft")); cbn [mbind Outcome_bind];
    now rewrite ?app_nil_r.
Qed.

(** The loop ends well exactly when every turn does, and then collects the
    posts of the files in the order of the files. *)
Lemma loadFiles_Done (fs : gmap string Node) (files : list string) (posts out : list Post) :
  loadFiles' fs files posts = Done out
  <-> Forall (ok' fs) files /\ out = (posts ++ flat_map (posts_of' fs) files)%list.
Proof.
  revert posts. induction files as [|f files IH]; intros posts.
  - cbn [loadFiles flat_map]. rewrite app_nil_r. split.
    + intros [= <-]. now split.
    + now intros [_ ->].
  - cbn [loadFiles flat_map]. rewrite loadFile_from. unfold posts_of_file at 1.
    rewrite Forall_cons_iff. unfold file_ok at 1.
    destruct (loadFile' fs f []) as [more | code msg |] eqn:E; cbn [mbind Outcome_bind].
    + rewrite IH, app_assoc. split.
      * intros [H ->]. split; [split; [now exists more | exact H] | reflexivity].
      * intros [[_ H] ->]. now split.
    + split; [discriminate | intros [[[ps Hps] _] _]; discriminate].
    + split; [discriminate | intros [[[ps Hps] _] _]; discriminate].
Qed.

Lemma posts_of_file_cases (fs : gmap string Node) (file : string) (p : Post) :
  In p (posts_of' fs file) ->
  exists parsed,
    endsWith file ".md" = true
    /\ missing_fields (parsed_data parsed) = []
    /\ p = post_of file parsed.
Proof.
  unfold posts_of_file. destruct (loadFile' fs file []) as [c | |] eqn:E; [| intros [] ..].
  apply loadFile_Done in E as [-> | (raw & parsed & Hmd & _ & _ & Hm & _ & ->)];
    [intros [] |].
  intros [<- | []]. now exists parsed.
Qed.

(** X10.  Every post that [loadPosts] returns has a truthy title and a
    truthy author, and comes from a file of the directory whose name ends
    with [.md] and is the slug of the post followed by [.md]. *)
Theorem loaded_posts_come_from_files (fs : gmap string Node) (names : list string)
    (posts : list Post) :
  fs !! dir = Some (Dir names) ->
  loadPosts' fs = Done posts ->
  Forall (fun p => truthy (title p) = true /\ truthy (author p) = true
                   /\ In (slug p ++ ".md") names
                   /\ endsWith (slug p ++ ".md") ".md" = true) posts.
Proof.
  intros Hd H. rewrite (loadPosts_listed _ _ _ _ fs names Hd) in H.
  destruct (loadFiles' fs names []) as [collected | |] eqn:E; [| discriminate ..].
  cbn [mbind Outcome_bind] in H. injection H as <-.
  apply loadFiles_Done in E as [_ ->]. cbn [app].
  apply Forall_forall. intros p Hp. apply list_elem_of_In in Hp.
  apply (Permutation_in _ (Permutation_sym (Array_sort_perm by_date_desc _))) in Hp.
  apply in_flat_map in Hp as (file & Hf & Hp).
  apply posts_of_file_cases in Hp as (parsed & Hmd & Hm & ->).
  destruct (missing_fields_truthy _ Hm) as (Ht & _ & Ha).
  unfold post_of. cbn [title author slug]. rewrite (strip_md_restore file Hmd).
  now repeat split.
Qed.

(** X11.  A name of the directory that does not end with [.md] plays no
    part: the file is not read, and the loader returns what it returns for
    the directory without it. *)
Theorem other_files_ignored (fs : gmap string Node) (before after : list string)
    (file : string) :
  endsWith file ".md" = false ->
  fs !! dir = Some (Dir (before ++ file :: after)%list) ->
  loadPosts' fs = loadPosts' (<[dir := Dir (before ++ after)%list]> fs).
Proof.
  intros Hmd Hdir.
  assert (Skip : forall posts, loadFile' fs file posts = Done posts).
  { intros posts. unfold loadFile. now rewrite Hmd. }
  rewrite (loadPosts_listed _ _ _ _ fs _ Hdir).
  rewrite (loadPosts_listed _ _ _ _ (<[dir := Dir (before ++ after)%list]> fs)
             (before ++ after)%list) by apply lookup_insert_eq.
  rewrite (loadFiles_relist _ _ _ _ fs _ _ _ _ Hdir).
  rewrite !loadFiles_app. cbn [loadFiles].
  destruct (loadFiles' fs before []) as [ps | |]; cbn [mbind Outcome_bind];
    [| reflexivity ..].
  now rewrite Skip.
Qed.

(** X12.  When the loader returns posts of different dates, it returns the
    same list for the same files listed in any other order. *)
Theorem listing_order_irrelevant (fs : gmap string Node) (names names' : list string)
    (posts : list Post) :
  fs !! dir = Some (Dir names) ->
  Permutation names names' ->
  loadPosts' fs = Done posts ->
  NoDup (List.map date posts) ->
  loadPosts' (<[dir := Dir names']> fs) = Done posts.
Proof.
  intros Hd Hperm H Hn. rewrite (loadPosts_listed _ _ _ _ fs names Hd) in H.
  destruct (loadFiles' fs names []) as [collected | |] eqn:E; [| discriminate ..].
  cbn [mbind Outcome_bind] in H. injection H as <-.
  apply loadFiles_Done in E as [Hok ->]. cbn [app] in *.
  rewrite (loadPosts_listed _ _ _ _ (<[dir := Dir names']> fs) names')
    by apply lookup_insert_eq.
  rewrite (loadFiles_relist _ _ _ _ fs _ _ _ _ Hd).
  assert (E' : loadFiles' fs names' [] = Done (flat_map (posts_of' fs) names')).
  { apply loadFiles_Done. split; [now rewrite <- Hperm | reflexivity]. }
  rewrite E'. cbn [mbind Outcome_bind]. f_equal.
  set (collected := flat_map (posts_of' fs) names) in *.
  set (collected' := flat_map (posts_of' fs) names').
  assert (P : Permutation collected collected').
  { unfold collected, collected'. clear -Hperm.
    induction Hperm; cbn [flat_map].
    - reflexivity.
    - now apply Permutation_app_head.
    - rewrite !app_assoc. apply Permutation_app_tail, Permutation_app_comm.
    - etransitivity; eassumption. }
  assert (Hn0 : NoDup (List.map date collected)).
  { apply (NoDup_Permutation_proper _ _ (Permutation_map date (Array_sort_perm by_date_desc collected))).
    exact Hn. }
  assert (Hn' : NoDup (List.map date collected')).
  { apply (NoDup_Permutation_proper _ _ (Permutation_map date P)). exact Hn0. }
  apply sorted_arrangement_unique.
  - now apply Array_sort_newer.
  - now apply Array_sort_newer.
  - rewrite <- (Array_sort_perm by_date_desc collected').
    now rewrite <- (Array_sort_perm by_date_desc collected).
Qed.

End LoaderInvariants.

Lemma loaded_posts_come_from_files_witness :
  exists posts,
    loadPosts join_slash "content" example_fs "moon" example_matter = Done posts
    /\ Forall (fun p => truthy (title p) = true /\ truthy (author p) = true
                        /\ In (slug p ++ ".md") ["a.md"; "b.md"; "c.md"; "notes.txt"]
                        /\ endsWith (slug p ++ ".md") ".md" = true) posts.
Proof.
  eexists. split; [reflexivity |].
  apply (loaded_posts_come_from_files join_slash "content" "moon" example_matter
           example_fs); reflexivity.
Defined.

Lemma other_files_ignored_witness :
  loadPosts join_slash "content" example_fs "moon" example_matter
  = loadPosts join_slash "content"
      (<["content/blogs/moon/posts" := Dir ["a.md"; "b.md"; "c.md"]]> example_fs)
      "moon" example_matter.
Proof.
  apply (other_files_ignored join_slash "content" "moon" example_matter example_fs
           ["a.md"; "b.md"; "c.md"] [] "notes.txt"); reflexivity.
Defined.

Lemma listing_order_irrelevant_witness :
  exists posts,
    loadPosts join_slash "content" example_fs "moon" example_matter = Done posts
    /\ loadPosts join_slash "content"
         (<["content/blogs/moon/posts" := Dir ["notes.txt"; "c.md"; "a.md"; "b.md"]]>
            example_fs)
         "moon" example_matter = Done posts.
Proof.
  eexists. split; [reflexivity |].
  apply (listing_order_irrelevant join_slash "content" "moon" example_matter example_fs
           ["a.md"; "b.md"; "c.md"; "notes.txt"]).
  - reflexivity.
  - etransitivity;
      [exact (Permutation_app_comm ["a.md"; "b.md"; "c.md"] ["notes.txt"]) |].
    apply perm_skip. exact (Permutation_app_comm ["a.md"; "b.md"] ["c.md"]).
  - reflexivity.
  - vm_compute. repeat constructor; rewrite ?list_elem_of_In; simpl; intuition discriminate.
Defined.

(** *** The neighbours of a post *)

Lemma sorted_lookup (posts : list Post) (i j : nat) (a b : Post) :
  StronglySorted newer posts -> posts !! i = Some a -> posts !! j = Some b ->
  (i < j)%nat -> newer a b.
Proof.
  intros S. revert i j. induction S as [| x l S IH F]; intros i j Ha Hb Hij.
  - discriminate.
  - destruct j as [|j]; [lia |]. cbn in Hb.
    destruct i as [|i].
    + injection Ha as <-. rewrite Forall_forall in F.
      apply F. eapply list_elem_of_lookup_2. exact Hb.
    + cbn in Ha. apply (IH i j Ha Hb). lia.
Qed.

Lemma prevPost_Some (posts : list Post) (i : nat) (nb : Post) :
  prevPost posts i = Some nb <-> posts !! S i = Some nb.
Proof.
  unfold prevPost. replace (i + 1)%nat with (S i) by lia.
  destruct (Z.ltb_spec (Z.of_nat i) (Z.of_nat (List.length posts) - 1)) as [H | H].
  - reflexivity.
  - split; [discriminate |]. intros Hq. apply lookup_lt_Some in Hq.
    change (length posts) with (List.length posts) in Hq. lia.
Qed.

Lemma nextPost_Some (posts : list Post) (i : nat) (nb : Post) :
  nextPost posts i = Some nb <-> exists j, i = S j /\ posts !! j = Some nb.
Proof.
  unfold nextPost. destruct i as [|i].
  - cbn. split; [discriminate | intros (j & Hj & _); discriminate].
  - replace (0 <? Z.of_nat (S i))%Z with true by (symmetry; apply Z.ltb_lt; lia).
    replace (S i - 1)%nat with i by lia. split.
    + intros H. now exists i.
    + intros (j & Hj & H). now injection Hj as ->.
Qed.

(** X13.  In a list of posts in descending order of date, the previous
    post of a post is the newest of the posts older than it, and its next
    post is the oldest of the posts newer than it; only the last post has
    no previous post and only the first has no next post. *)
Theorem neighbours_adjacent_in_time (posts : list Post) (i : nat) (p : Post) :
  StronglySorted newer posts ->
  posts !! i = Some p ->
  (forall nb, prevPost posts i = Some nb ->
     newer p nb /\ forall r, In r posts -> newer p r -> r = nb \/ newer nb r)
  /\ (forall nb, nextPost posts i = Some nb ->
     newer nb p /\ forall r, In r posts -> newer r p -> r = nb \/ newer r nb)
  /\ (prevPost posts i = None <-> S i = List.length posts)
  /\ (nextPost posts i = None <-> i = O).
Proof.
  intros Hs Hp. repeat split.
  - apply prevPost_Some in H. apply (sorted_lookup posts i (S i) p nb Hs Hp H). lia.
  - apply prevPost_Some in H. intros r Hr Hpr.
    apply list_elem_of_In, list_elem_of_lookup_1 in Hr as [j Hj].
    destruct (Nat.lt_total j (S i)) as [Hlt | [-> | Hgt]].
    + exfalso. destruct (Nat.eq_dec j i) as [-> | Hne].
      * rewrite Hp in Hj. injection Hj as <-. exact (newer_asym _ _ Hpr Hpr).
      * apply (newer_asym _ _ Hpr).
        apply (sorted_lookup posts j i r p Hs Hj Hp). lia.
    + left. rewrite H in Hj. now injection Hj.
    + right. exact (sorted_lookup posts (S i) j nb r Hs H Hj Hgt).
  - apply nextPost_Some in H as (j & -> & H).
    apply (sorted_lookup posts j (S j) nb p Hs H Hp). lia.
  - apply nextPost_Some in H as (j & -> & H). intros r Hr Hrp.
    apply list_elem_of_In, list_elem_of_lookup_1 in Hr as [k Hk].
    destruct (Nat.lt_total k j) as [Hlt | [-> | Hgt]].
    + right. exact (sorted_lookup posts k j r nb Hs Hk H Hlt).
    + left. rewrite H in Hk. now injection Hk.
    + exfalso. destruct (Nat.eq_dec k (S j)) as [-> | Hne].
      * rewrite Hp in Hk. injection Hk as <-. exact (newer_asym _ _ Hrp Hrp).
      * apply (newer_asym _ _ Hrp).
        apply (sorted_lookup posts (S j) k p r Hs Hp Hk). lia.
  - intros H. apply lookup_lt_Some in Hp.
    change (length posts) with (List.length posts) in Hp.
    destruct (Nat.eq_dec (S i) (List.length posts)) as [E | E]; [exact E |].
    destruct (lookup_lt_is_Some_2 posts (S i)) as [nb Hq].
    { change (length posts) with (List.length posts). lia. }
    apply prevPost_Some in Hq. congruence.
  - intros E. destruct (prevPost posts i) as [nb |] eqn:H; [| reflexivity].
    apply prevPost_Some, lookup_lt_Some in H.
    change (length posts) with (List.length posts) in H. lia.
  - intros H. destruct i as [|i]; [reflexivity |].
    apply lookup_lt_Some in Hp.
    destruct (lookup_lt_is_Some_2 posts i) as [nb Hq]; [lia |].
    assert (nextPost posts (S i) = Some nb) by (apply nextPost_Some; now exists i).
    congruence.
  - now intros ->.
Qed.

Lemma neighbours_adjacent_in_time_witness :
  StronglySorted newer [dated "c" "2024-03-01"; dated "b" "2024-02-01";
                        dated "a" "2024-01-01"]
  /\ prevPost [dated "c" "2024-03-01"; dated "b" "2024-02-01";
               dated "a" "2024-01-01"] 1 = Some (dated "a" "2024-01-01")
  /\ newer (dated "b" "2024-02-01") (dated "a" "2024-01-01").
Proof.
  assert (S : StronglySorted newer
                [dated "c" "2024-03-01"; dated "b" "2024-02-01";
                 dated "a" "2024-01-01"]).
  { repeat constructor. }
  split; [exact S |]. split; [reflexivity |].
  destruct (neighbours_adjacent_in_time _ 1 (dated "b" "2024-02-01") S eq_refl)
    as (Hprev & _).
  exact (proj1 (Hprev (dated "a" "2024-01-01") eq_refl)).
Defined.

(** X14.  Going to the previous post and from there to the next post
    leads back: when the post of index [i] has a previous post, that post
    is the post of index [i + 1], and its next post is the post of index
    [i]. *)
Theorem previous_then_next (posts : list Post) (i : nat) (p nb : Post) :
  posts !! i = Some p ->
  prevPost posts i = Some nb ->
  posts !! (i + 1)%nat = Some nb /\ nextPost posts (i + 1) = Some p.
Proof.
  intros Hp Hq. apply prevPost_Some in Hq.
  replace (i + 1)%nat with (S i) by lia. split; [exact Hq |].
  apply nextPost_Some. now exists i.
Qed.

Lemma previous_then_next_witness :
  nextPost [dated "c" "2024-03-01"; dated "b" "2024-02-01"] (0 + 1)
  = Some (dated "c" "2024-03-01").
Proof.
  exact (proj2 (previous_then_next
                  [dated "c" "2024-03-01"; dated "b" "2024-02-01"] 0
                  _ _ eq_refl eq_refl)).
Defined.

(* ===================================================================== *)
(** ** Properties of the theme fragment builders *)
(* ===================================================================== *)

(** *** The dispatch on the theme *)

Lemma unknown_theme_branches (theme : JsValue) :
  known_theme theme = false ->
  Forall (fun name => is_theme theme name = false) named_themes.
Proof.
  unfold known_theme. intros H. apply Forall_forall. intros name Hin.
  apply list_elem_of_In in Hin.
  destruct (is_theme theme name) eqn:E; [| reflexivity].
  rewrite <- H. symmetry. apply existsb_exists. now exists name.
Qed.

Ltac theme_branches H :=
  apply unknown_theme_branches in H; unfold named_themes in H;
  repeat (apply Forall_cons_iff in H as [? H]).

Lemma postCard_fallback (theme : JsValue) (post : Post) :
  known_theme theme = false -> postCard theme post = postCard default_theme post.
Proof.
  intros H. theme_branches H. unfold postCard.
  repeat match goal with E : is_theme theme _ = false |- _ => rewrite E; clear E end.
  reflexivity.
Qed.

(** C7.  For a theme that is none of the themes with a branch of their own,
    each of the four builders, which are total functions, returns on every
    input what it returns on this input for the default theme. *)
Theorem unknown_theme_as_default (theme : JsValue) :
  known_theme theme = false ->
  (forall posts blogSlug,
      buildPostListHtml posts blogSlug theme = buildPostListHtml posts blogSlug default_theme)
  /\ (forall posts, buildTagFilterHtml posts theme = buildTagFilterHtml posts default_theme)
  /\ (forall post label blogSlug,
        buildNavCard post label blogSlug theme
        = buildNavCard post label blogSlug default_theme)
  /\ (forall tags, buildTagsHtml tags theme = buildTagsHtml tags default_theme).
Proof.
  intros H. split; [| split; [| split]].
  - intros posts blogSlug. unfold buildPostListHtml.
    destruct (Nat.eqb (List.length posts) 0); [reflexivity |].
    f_equal. apply List.map_ext. intros post. now apply postCard_fallback.
  - intros posts. theme_branches H. unfold buildTagFilterHtml.
    repeat match goal with E : is_theme theme _ = false |- _ => rewrite E; clear E end.
    reflexivity.
  - intros [post |] label blogSlug; [| reflexivity]. theme_branches H. unfold buildNavCard.
    repeat match goal with E : is_theme theme _ = false |- _ => rewrite E; clear E end.
    reflexivity.
  - intros tags. theme_branches H. unfold buildTagsHtml.
    repeat match goal with E : is_theme theme _ = false |- _ => rewrite E; clear E end.
    reflexivity.
Qed.

Lemma unknown_theme_as_default_witness :
  known_theme (JStr "moon-base") = false
  /\ buildTagsHtml [JStr "moon"] (JStr "moon-base") = q "<span class='word-tag'>#moon</span>"
  /\ buildNavCard None "next" "b" JUndefined = buildNavCard None "next" "b" default_theme.
Proof.
  split; [reflexivity |]. split.
  - rewrite (proj2 (proj2 (proj2 (unknown_theme_as_default (JStr "moon-base") eq_refl)))).
    reflexivity.
  - apply (proj1 (proj2 (proj2 (unknown_theme_as_default JUndefined eq_refl)))).
Defined.

(* ===================================================================== *)
(** ** Properties of the tag filter *)
(* ===================================================================== *)

(** *** The click on a filter button *)

(** After a click the cards shown are those whose list of tags holds the
    tag of the button, or all the cards when the button is the one for all
    posts. *)
Lemma click_shows_matching_cards (doc : Document) (i : nat) (btn : Button) :
  tagButtons doc !! i = Some btn ->
  Forall2
    (fun card card' =>
       data_post_tags card' = data_post_tags card
       /\ shown card'
          = (String.eqb (data_tag_btn btn) "__all__"
             || includes (split_on "," (data_post_tags card)) (data_tag_btn btn)))
    (postCards doc) (postCards (click doc i)).
Proof.
  intros H. unfold click. rewrite H. cbn [postCards].
  induction (postCards doc) as [|card cards IH]; constructor; [| exact IH].
  split; [now destruct (_ || _) |].
  now destruct (String.eqb (data_tag_btn btn) "__all__"
                || includes (split_on "," (data_post_tags card)) (data_tag_btn btn)).
Qed.

Lemma classList_add_contains (c : string) (b : Button) :
  classList_contains (classList_add c b) c = true.
Proof.
  unfold classList_add. destruct (classList_contains b c) eqn:E; [exact E |].
  unfold classList_contains. cbn [classList]. rewrite existsb_app. cbn [existsb].
  now rewrite String.eqb_refl, orb_true_r.
Qed.

(** After a click the clicked button carries the class that the handler
    chose for it. *)
Lemma click_marks_clicked_button (doc : Document) (i : nat) (btn : Button) :
  tagButtons doc !! i = Some btn ->
  exists btn',
    tagButtons (click doc i) !! i = Some btn'
    /\ data_tag_btn btn' = data_tag_btn btn
    /\ classList_contains btn' (active_class btn') = true.
Proof.
  intros H. unfold click. rewrite H. cbn [tagButtons].
  set (cleared := List.map _ (tagButtons doc)).
  assert (Hc : cleared !! i
               = Some (classList_remove
                         ["word-tag-active"; "cosmic-tag-active"; "term-tag-active"] btn)).
  { unfold cleared. change (List.map ?f ?l) with (f <$> l).
    now rewrite list_lookup_fmap, H. }
  set (b := classList_remove _ btn) in Hc.
  exists (classList_add (active_class b) b). split; [| split].
  - rewrite list_lookup_alter_eq, Hc. reflexivity.
  - unfold classList_add. now destruct (classList_contains b (active_class b)).
  - assert (E : active_class (classList_add (active_class b) b) = active_class b).
    { unfold active_class at 1 3.
      unfold classList_add. destruct (classList_contains b (active_class b)) eqn:Ec;
        [reflexivity |].
      unfold classList_contains. cbn [classList]. rewrite !existsb_app. cbn [existsb].
      unfold classList_contains in Ec. unfold active_class.
      fold (classList_contains b "cosmic-tag"). fold (classList_contains b "term-tag").
      destruct (classList_contains b "cosmic-tag"); [reflexivity |].
      destruct (classList_contains b "term-tag"); reflexivity. }
    rewrite E. apply classList_add_contains.
Qed.

(** The buttons of a page of a theme whose active class the handler does
    not know, after a click on the button of a tag. *)
Lemma click_unknown_active_class (base active : string) (allTags : list JsValue)
    (cards : list Card) (i : nat) (btn : Button) :
  existsb (String.eqb base) ["cosmic-tag"; "term-tag"] = false ->
  existsb (String.eqb active) ["word-tag-active"; "cosmic-tag-active"; "term-tag-active"]
  = false ->
  existsb (String.eqb base) ["word-tag-active"; "cosmic-tag-active"; "term-tag-active"]
  = false ->
  let buttons :=
    mkButton "__all__" [base; active]
    :: List.map (fun t => mkButton (written_text t) [base]) allTags in
  buttons !! S i = Some btn ->
  tagButtons (click (mkDocument buttons cards) (S i)) !! 0%nat
  = Some (mkButton "__all__" [base; active])
  /\ tagButtons (click (mkDocument buttons cards) (S i)) !! S i
     = Some (mkButton (data_tag_btn btn) [base; "word-tag-active"]).
Proof.
  intros Hbase Hact Hbase' buttons Hb. unfold click. cbn [tagButtons].
  rewrite Hb. cbn [tagButtons].
  set (rm := classList_remove ["word-tag-active"; "cosmic-tag-active"; "term-tag-active"]).
  assert (Hrm : forall tag, rm (mkButton tag [base]) = mkButton tag [base]).
  { intros tag. unfold rm, classList_remove. cbn [classList data_tag_btn List.filter].
    now rewrite Hbase'. }
  assert (Hrm0 : rm (mkButton "__all__" [base; active]) = mkButton "__all__" [base; active]).
  { unfold rm, classList_remove. cbn [classList data_tag_btn List.filter].
    now rewrite Hbase', Hact. }
  assert (Hcleared : List.map rm buttons = buttons).
  { unfold buttons. cbn [List.map]. rewrite Hrm0. f_equal.
    rewrite List.map_map. apply List.map_ext. intros t. apply Hrm. }
  rewrite Hcleared. split; [reflexivity |].
  rewrite list_lookup_alter_eq, Hb. cbn [fmap option_fmap option_map]. f_equal.
  assert (Hb' : ((fun t => mkButton (written_text t) [base]) <$> allTags) !! i = Some btn)
    by exact Hb.
  rewrite list_lookup_fmap in Hb'.
  destruct (allTags !! i) as [t |]; [| discriminate]. injection Hb' as <-.
  unfold active_class, classList_add, classList_contains. cbn [classList data_tag_btn existsb].
  cbn [existsb] in Hbase. apply orb_false_elim in Hbase as [Hc Ht].
  rewrite orb_false_r in Ht.
  rewrite (String.eqb_sym "cosmic-tag" base), (String.eqb_sym "term-tag" base), Hc, Ht.
  cbn [orb existsb]. cbn [existsb] in Hbase'. apply orb_false_elim in Hbase' as [Hw _].
  now rewrite (String.eqb_sym "word-tag-active" base), Hw.
Qed.

(** C8, where it fails.  On the page of a blog of theme [kawase-blog] or
    [sake-modern], whose markup gives the button for all posts the active
    class of the theme, a click on the button of a tag removes no class of
    the first button, which keeps the active class, and gives the clicked
    button the class [word-tag-active], not the active class of the theme. *)
Theorem active_class_not_moved (posts : list Post) (i : nat) (btn : Button) :
  (tagButtons (page_document posts (JStr "kawase-blog")) !! S i = Some btn ->
   tagButtons (click (page_document posts (JStr "kawase-blog")) (S i)) !! 0%nat
   = Some (mkButton "__all__" ["kawase-tag"; "kawase-tag-active"])
   /\ tagButtons (click (page_document posts (JStr "kawase-blog")) (S i)) !! S i
      = Some (mkButton (data_tag_btn btn) ["kawase-tag"; "word-tag-active"]))
  /\ (tagButtons (page_document posts (JStr "sake-modern")) !! S i = Some btn ->
      tagButtons (click (page_document posts (JStr "sake-modern")) (S i)) !! 0%nat
      = Some (mkButton "__all__" ["sake-tag"; "sake-tag-active"])
      /\ tagButtons (click (page_document posts (JStr "sake-modern")) (S i)) !! S i
         = Some (mkButton (data_tag_btn btn) ["sake-tag"; "word-tag-active"])).
Proof.
  unfold page_document. set (allTags := uniq [] (flat_map tags posts)).
  destruct (Nat.eqb (List.length allTags) 0); [split; discriminate |].
  split; intros H.
  - now apply (click_unknown_active_class "kawase-tag" "kawase-tag-active").
  - now apply (click_unknown_active_class "sake-tag" "sake-tag-active").
Qed.

Lemma active_class_not_moved_witness :
  tagButtons (click (page_document [moon_post] (JStr "kawase-blog")) 1)
  = [mkButton "__all__" ["kawase-tag"; "kawase-tag-active"];
     mkButton "moon" ["kawase-tag"; "word-tag-active"]].
Proof.
  destruct (proj1 (active_class_not_moved [moon_post] 0 (mkButton "moon" ["kawase-tag"]))
              eq_refl) as [H0 H1].
  apply list_eq. intros [|[|j]]; [exact H0 | exact H1 | reflexivity].
Defined.

(** The markup and the document of the page of one post tagged [moon], and
    the document after a click on the button of the tag. *)
Example kawase_page_after_click :
  buildTagFilterHtml [moon_post] (JStr "kawase-blog")
  = q "<div class='kawase-tag-filter'>
  <div class='kawase-tag-filter-heading'>✦ タグで絞り込み</div>
  <div class='kawase-tag-filter-wrap'><button data-tag-btn='__all__' class='kawase-tag kawase-tag-active'>すべて</button><button data-tag-btn='moon' class='kawase-tag'>#moon</button></div>
</div>"
  /\ tagButtons (page_document [moon_post] (JStr "kawase-blog"))
     = [mkButton "__all__" ["kawase-tag"; "kawase-tag-active"];
        mkButton "moon" ["kawase-tag"]]
  /\ tagButtons (click (page_document [moon_post] (JStr "kawase-blog")) 1)
     = [mkButton "__all__" ["kawase-tag"; "kawase-tag-active"];
        mkButton "moon" ["kawase-tag"; "word-tag-active"]]
  /\ postCards (click (page_document [moon_post] (JStr "kawase-blog")) 1)
     = [mkCard "moon" EmptyString].
Proof. repeat split. Qed.

(** The same click on the page of a theme that the handler knows. *)
Example cosmic_active_class_moved :
  tagButtons (page_document [moon_post] (JStr "retro-cosmic"))
  = [mkButton "__all__" ["cosmic-tag"; "cosmic-tag-active"]; mkButton "moon" ["cosmic-tag"]]
  /\ tagButtons (click (page_document [moon_post] (JStr "retro-cosmic")) 1)
     = [mkButton "__all__" ["cosmic-tag"];
        mkButton "moon" ["cosmic-tag"; "cosmic-tag-active"]].
Proof. split; reflexivity. Qed.

(** *** The document and the markup *)

Lemma esc_written (v : JsValue) : esc v = escape_chars (written_text v).
Proof.
  unfold written_text. destruct (negb (truthy v) && negb (is_zero v)) eqn:E.
  - unfold esc. now rewrite E.
  - now apply esc_truthy.
Qed.

Lemma occurs_middle (x pre mid post r : string) :
  mid = x ++ r -> occurs x (pre ++ mid ++ post).
Proof. intros ->. exists pre, (r ++ post). now rewrite append_assoc. Qed.

Lemma occurs_append_r (x a b : string) : occurs x b -> occurs x (a ++ b).
Proof.
  intros (pre & post & ->). exists (a ++ pre), post. now rewrite append_assoc.
Qed.

Lemma occurs_append_l (x a b : string) : occurs x a -> occurs x (a ++ b).
Proof.
  intros (pre & post & ->). exists pre, (post ++ b). now rewrite !append_assoc.
Qed.

Lemma occurs_join (sep x : string) (l : list string) :
  (exists y, In y l /\ occurs x y) -> occurs x (join sep l).
Proof.
  intros (y & Hin & Hy). induction l as [|z l IH]; [destruct Hin |].
  destruct l as [|z' l].
  - destruct Hin as [-> | []]. exact Hy.
  - change (join sep (z :: z' :: l)) with (z ++ sep ++ join sep (z' :: l)).
    destruct Hin as [-> | Hin].
    + now apply occurs_append_l.
    + now apply occurs_append_r, occurs_append_r, IH.
Qed.

Ltac theme_cases theme :=
  destruct (is_theme theme "retro-cosmic");
  [| destruct (is_theme theme "gym-log");
     [| destruct (is_theme theme "love-column");
        [| destruct (is_theme theme "izakaya");
           [| destruct (is_theme theme "onsen-cosmos");
              [| destruct (is_theme theme "comedy-zine");
                 [| destruct (is_theme theme "academy-log");
                    [| destruct (is_theme theme "terminal");
                       [| destruct (is_theme theme "kawase-blog");
                          [| destruct (is_theme theme "sake-modern")]]]]]]]]].

(** X25.  The markup of the filter declares every button of the document,
    with its tag and its classes. *)
Lemma filter_markup_declares_buttons (posts : list Post) (theme : JsValue) (b : Button) :
  In b (tagButtons (page_document posts theme)) ->
  occurs (button_markup b) (buildTagFilterHtml posts theme).
Proof.
  unfold page_document, buildTagFilterHtml. cbn [tagButtons].
  set (allTags := uniq [] (flat_map tags posts)).
  destruct (Nat.eqb (List.length allTags) 0); [intros [] |].
  unfold all_button_classes, tag_button_classes.
  theme_cases theme; cbv zeta; intros [<- | Hb];
    try (eapply occurs_middle; cbv; reflexivity);
    apply in_map_iff in Hb as (t & <- & Ht);
    apply occurs_append_r, occurs_append_r, occurs_append_l, occurs_join;
    eexists; (split; [apply in_map_iff; exists t; split; [reflexivity | exact Ht] |]);
    rewrite (esc_written t); unfold button_markup; cbn [data_tag_btn classList join];
    exists EmptyString; eexists; rewrite !append_assoc; cbv [q]; reflexivity.
Qed.

(** A text that occurs between two constant texts, the first ending with
    [x] and the second starting with [y]. *)
Lemma occurs_between (x y e a a' lit1 lit2 rest : string) :
  String.eqb lit1 (take_chars (String.length lit1 - String.length x) lit1 ++ x) = true ->
  String.prefix y lit2 = true ->
  occurs (x ++ e ++ y) (a ++ a' ++ lit1 ++ e ++ lit2 ++ rest).
Proof.
  intros H1 H2. apply String.eqb_eq in H1.
  set (pre := take_chars (String.length lit1 - String.length x) lit1) in H1.
  assert (E2 : lit2 = y ++ drop_chars (String.length y) lit2).
  { clear -H2. revert lit2 H2. induction y as [|c y IH]; intros lit2 H2; [reflexivity |].
    destruct lit2 as [|d lit2]; [discriminate |].
    rewrite prefix_cons in H2. apply andb_true_iff in H2 as [Hc H2].
    apply Ascii.eqb_eq in Hc. subst d. cbn [String.length drop_chars].
    rewrite append_cons. f_equal. now apply IH. }
  exists (a ++ a' ++ pre), (drop_chars (String.length y) lit2 ++ rest).
  rewrite H1 at 1. rewrite E2 at 1. now rewrite !append_assoc.
Qed.

(** X26.  The markup of the list of posts declares every card of the
    document, with its tags. *)
Lemma list_markup_declares_cards (posts : list Post) (blogSlug : string)
    (theme : JsValue) (card : Card) :
  In card (postCards (page_document posts theme)) ->
  occurs (card_markup card) (buildPostListHtml posts blogSlug theme).
Proof.
  unfold page_document, buildPostListHtml. cbn [postCards]. intros H.
  apply in_map_iff in H as (post & <- & Hp).
  destruct posts as [|p0 posts]; [destruct Hp |]. cbn [List.length Nat.eqb].
  apply occurs_join. exists (postCard theme post). split; [now apply in_map |].
  unfold card_markup. cbn [data_post_tags]. rewrite <- esc_written.
  unfold postCard. cbv zeta.
  theme_cases theme;
    apply (occurs_between (q " data-post-tags='") dq
             (esc (JStr (Array_join "," (tags post))))); reflexivity.
Qed.

(* ===================================================================== *)
(** ** The markup of the theme fragment builders *)
(* ===================================================================== *)

(** *** Escaped text inside the markup *)

Lemma delimiters_append (a b : string) :
  delimiters (a ++ b) = delimiters a ++ delimiters b.
Proof.
  induction a as [|c a IH]; [reflexivity |].
  rewrite append_cons. cbn [delimiters]. rewrite IH.
  now destruct (is_delimiter c).
Qed.

Lemma delimiters_entity (c : ascii) : delimiters (entity c) = EmptyString.
Proof.
  unfold entity.
  destruct (Ascii.eqb c "&") eqn:E1; [reflexivity |].
  destruct (Ascii.eqb c "<") eqn:E2; [reflexivity |].
  destruct (Ascii.eqb c ">") eqn:E3; [reflexivity |].
  destruct (Ascii.eqb c DQ) eqn:E4; [reflexivity |].
  cbn [delimiters]. unfold is_delimiter. now rewrite E2, E3, E4.
Qed.

Lemma delimiters_escape_chars (s : string) : delimiters (escape_chars s) = EmptyString.
Proof.
  induction s as [|c s IH]; [reflexivity |].
  cbn [escape_chars]. now rewrite delimiters_append, delimiters_entity, IH.
Qed.

Lemma delimiters_esc (v : JsValue) : delimiters (esc v) = EmptyString.
Proof. rewrite esc_written. apply delimiters_escape_chars. Qed.

Lemma delimiters_join (A : Type) (f : A -> string) (sep : string) (l l' : list A) :
  Forall2 (fun x y => delimiters (f x) = delimiters (f y)) l l' ->
  delimiters (join sep (List.map f l)) = delimiters (join sep (List.map f l')).
Proof.
  induction 1 as [| x y l l' Hxy Hl IH]; [reflexivity |].
  destruct Hl as [| x' y' l l' Hxy' Hl].
  - exact Hxy.
  - change (join sep (List.map f (x :: x' :: l)))
      with (f x ++ sep ++ join sep (List.map f (x' :: l))).
    change (join sep (List.map f (y :: y' :: l')))
      with (f y ++ sep ++ join sep (List.map f (y' :: l'))).
    rewrite !delimiters_append. now rewrite Hxy, IH.
Qed.

Lemma delimiters_join_tags (a b sep : string) (l l' : list JsValue) :
  List.length l = List.length l' ->
  delimiters (join sep (List.map (fun t => a ++ esc t ++ b) l))
  = delimiters (join sep (List.map (fun t => a ++ esc t ++ b) l')).
Proof.
  intros H. apply delimiters_join. revert l' H.
  induction l as [|x l IH]; intros [|y l'] H; try discriminate; constructor.
  - now rewrite !delimiters_append, !delimiters_esc.
  - apply IH. now injection H.
Qed.

Lemma delimiters_join_const (A : Type) (f : A -> string) (sep : string) (l l' : list A) :
  (forall x y, delimiters (f x) = delimiters (f y)) ->
  List.length l = List.length l' ->
  delimiters (join sep (List.map f l)) = delimiters (join sep (List.map f l')).
Proof.
  intros Hf H. apply delimiters_join. revert l' H.
  induction l as [|x l IH]; intros [|y l'] H; try discriminate; constructor.
  - apply Hf.
  - apply IH. now injection H.
Qed.

Ltac same_delimiters Hlen :=
  rewrite !delimiters_append, !delimiters_esc;
  repeat first [ reflexivity
               | apply delimiters_join_tags; exact Hlen
               | apply (f_equal2 String.append) ].

Lemma postCard_delimiters (theme : JsValue) (p p' : Post) :
  List.length (tags p) = List.length (tags p') ->
  delimiters (postCard theme p) = delimiters (postCard theme p').
Proof.
  intros Hlen. unfold postCard. cbv zeta.
  theme_cases theme; same_delimiters Hlen.
Qed.

(** X15.  What [esc] returns holds no [<], no [>] and no double quote,
    whatever it is given. *)
Theorem esc_writes_no_delimiter (v : JsValue) :
  has_char "<" (esc v) = false /\ has_char ">" (esc v) = false
  /\ has_char DQ (esc v) = false.
Proof.
  pose proof (delimiters_esc v) as H. revert H.
  generalize (esc v) as s. intros s.
  induction s as [|c s IH]; [now repeat split |].
  cbn [delimiters has_char]. unfold is_delimiter.
  rewrite !(Ascii.eqb_sym c).
  destruct (Ascii.eqb "<" c); [discriminate |].
  destruct (Ascii.eqb ">" c); [discriminate |].
  destruct (Ascii.eqb DQ c); [discriminate |].
  exact IH.
Qed.

(** X16.  The tags and the attribute values of the list of posts do not
    depend on the texts of the posts: two lists of as many posts, with as
    many tags each, give markup with the same [<], [>] and double quotes
    in the same order. *)
Theorem post_list_markup_fixed (posts posts' : list Post) (blogSlug blogSlug' : string)
    (theme : JsValue) :
  Forall2 (fun p p' => List.length (tags p) = List.length (tags p')) posts posts' ->
  delimiters (buildPostListHtml posts blogSlug theme)
  = delimiters (buildPostListHtml posts' blogSlug' theme).
Proof.
  intros H. unfold buildPostListHtml.
  rewrite <- (Forall2_length _ _ _ H).
  destruct (Nat.eqb (List.length posts) 0); [reflexivity |].
  apply delimiters_join.
  induction H as [| p p' l l' Hp Hl IH]; constructor; [| exact IH].
  now apply postCard_delimiters.
Qed.

(** X17.  The markup of a link to a neighbour post has the same [<], [>]
    and double quotes in the same order for every post and every label. *)
Theorem nav_card_markup_fixed (p p' : Post) (label label' blogSlug blogSlug' : string)
    (theme : JsValue) :
  delimiters (buildNavCard (Some p) label blogSlug theme)
  = delimiters (buildNavCard (Some p') label' blogSlug' theme).
Proof.
  unfold buildNavCard. theme_cases theme;
    rewrite !delimiters_append, !delimiters_esc; reflexivity.
Qed.

(** X18.  The markup of the tags of a post has the same [<], [>] and
    double quotes in the same order for any two lists of as many tags. *)
Theorem tags_markup_fixed (tags tags' : list JsValue) (theme : JsValue) :
  List.length tags = List.length tags' ->
  delimiters (buildTagsHtml tags theme) = delimiters (buildTagsHtml tags' theme).
Proof.
  intros Hlen. unfold buildTagsHtml. rewrite <- Hlen.
  destruct (Nat.eqb (List.length tags) 0); [reflexivity |].
  repeat match goal with
         | |- context [is_theme theme ?n] => destruct (is_theme theme n)
         end;
    apply delimiters_join_tags; exact Hlen.
Qed.

Lemma post_list_markup_fixed_witness :
  delimiters (buildPostListHtml [moon_post] "moon" default_theme)
  = delimiters
      (buildPostListHtml
         [mkPost "a<b" (JStr "<script>") "<2024>" (JStr "<i>") (JStr EmptyString)
            [JStr "</a><a>"] "body"]
         "sun" default_theme).
Proof.
  apply post_list_markup_fixed. repeat constructor.
Defined.

Lemma tags_markup_fixed_witness :
  delimiters (buildTagsHtml [JStr "moon"; JStr "sea"] (JStr "terminal"))
  = delimiters (buildTagsHtml [JStr "</span>"; JNum 0] (JStr "terminal")).
Proof. apply tags_markup_fixed. reflexivity. Defined.

(** *** The filter and the tags of the posts *)

Lemma flat_map_tags_nil (posts : list Post) :
  flat_map tags posts = [] <-> Forall (fun p => tags p = []) posts.
Proof.
  induction posts as [|p posts IH]; cbn [flat_map].
  - split; [constructor | reflexivity].
  - split.
    + intros H. apply app_eq_nil in H as [Hp H]. constructor; [exact Hp | now apply IH].
    + intros H. apply Forall_cons in H as [-> H]. now apply IH.
Qed.

Lemma append_eq_nil (a b : string) : a ++ b = EmptyString -> a = EmptyString.
Proof. destruct a; [reflexivity |]. rewrite append_cons. discriminate. Qed.

(** X19.  The filter is the empty text exactly when no post has a tag;
    any tag at all, even one that is written as the empty text, gives
    the markup of the filter. *)
Theorem tag_filter_empty_iff (posts : list Post) (theme : JsValue) :
  buildTagFilterHtml posts theme = EmptyString
  <-> Forall (fun p => tags p = []) posts.
Proof.
  rewrite <- flat_map_tags_nil. unfold buildTagFilterHtml. cbv zeta.
  destruct (flat_map tags posts) as [|x l] eqn:E.
  - now split.
  - cbn [uniq existsb List.length Nat.eqb]. split; [| discriminate].
    theme_cases theme; intros H; apply append_eq_nil in H; discriminate.
Qed.

(** X20.  The markup of the filter has the same [<], [>] and double quotes
    in the same order for any posts with as many different tags. *)
Theorem tag_filter_markup_fixed (posts posts' : list Post) (theme : JsValue) :
  List.length (uniq [] (flat_map tags posts))
  = List.length (uniq [] (flat_map tags posts')) ->
  delimiters (buildTagFilterHtml posts theme)
  = delimiters (buildTagFilterHtml posts' theme).
Proof.
  intros Hlen. unfold buildTagFilterHtml. cbv zeta. rewrite <- Hlen.
  destruct (Nat.eqb (List.length (uniq [] (flat_map tags posts))) 0); [reflexivity |].
  theme_cases theme;
    rewrite !delimiters_append;
    repeat first [ reflexivity
                 | apply delimiters_join_const;
                   [ intros; rewrite !delimiters_append, !delimiters_esc; reflexivity
                   | exact Hlen ]
                 | apply (f_equal2 String.append) ].
Qed.

Lemma tag_filter_markup_fixed_witness :
  delimiters (buildTagFilterHtml [moon_post] (JStr "izakaya"))
  = delimiters
      (buildTagFilterHtml
         [dated "a" "2024-01-01";
          mkPost "b" (JStr "B") "2024-01-02" (JStr "mizuki") (JStr EmptyString)
            [JStr "<b>"; JStr "<b>"] "body"]
         (JStr "izakaya")).
Proof. apply tag_filter_markup_fixed. reflexivity. Defined.

(* ===================================================================== *)
(** ** Further properties of the tag filter *)
(* ===================================================================== *)

(** *** Clicks one after another *)

Lemma handler_class_filter_idem (cs : list string) :
  List.filter (fun c => negb (existsb (String.eqb c) handler_classes))
    (List.filter (fun c => negb (existsb (String.eqb c) handler_classes)) cs)
  = List.filter (fun c => negb (existsb (String.eqb c) handler_classes)) cs.
Proof.
  induction cs as [|c cs IH]; [reflexivity |].
  cbn [List.filter]. destruct (negb (existsb (String.eqb c) handler_classes)) eqn:E;
    [| exact IH].
  cbn [List.filter]. now rewrite E, IH.
Qed.

Lemma existsb_filter_other (c : string) (f : string -> bool) (cs : list string) :
  f c = true ->
  existsb (String.eqb c) (List.filter f cs) = existsb (String.eqb c) cs.
Proof.
  intros Hc. induction cs as [|d cs IH]; [reflexivity |].
  cbn [List.filter existsb]. destruct (String.eqb c d) eqn:E.
  - apply String.eqb_eq in E. subst d. rewrite Hc. cbn [existsb].
    now rewrite String.eqb_refl.
  - destruct (f d); [cbn [existsb]; now rewrite E |]. exact IH.
Qed.

Lemma active_class_cleared (b : Button) :
  active_class (classList_remove handler_classes b) = active_class b.
Proof.
  unfold active_class, classList_contains, classList_remove. cbn [classList].
  now rewrite !existsb_filter_other by reflexivity.
Qed.

Lemma active_class_handler (b : Button) :
  existsb (String.eqb (active_class b)) handler_classes = true.
Proof.
  unfold active_class.
  destruct (classList_contains b "cosmic-tag"); [reflexivity |].
  now destruct (classList_contains b "term-tag").
Qed.

Lemma cleared_twice (b : Button) :
  classList_remove handler_classes (classList_remove handler_classes b)
  = classList_remove handler_classes b.
Proof.
  unfold classList_remove. cbn [classList data_tag_btn].
  now rewrite handler_class_filter_idem.
Qed.

Lemma cleared_has_no_handler_class (b : Button) (c : string) :
  existsb (String.eqb c) handler_classes = true ->
  classList_contains (classList_remove handler_classes b) c = false.
Proof.
  intros Hc. unfold classList_contains, classList_remove. cbn [classList].
  induction (classList b) as [|d cs IH]; [reflexivity |].
  cbn [List.filter]. destruct (negb (existsb (String.eqb d) handler_classes)) eqn:E;
    [| exact IH].
  cbn [existsb]. rewrite IH, orb_false_r.
  destruct (String.eqb c d) eqn:Ecd; [| reflexivity].
  apply String.eqb_eq in Ecd. subst d. now rewrite Hc in E.
Qed.

Lemma cleared_after_add (b : Button) (c : string) :
  existsb (String.eqb c) handler_classes = true ->
  classList_remove handler_classes (classList_add c (classList_remove handler_classes b))
  = classList_remove handler_classes b.
Proof.
  intros Hc. unfold classList_add.
  rewrite (cleared_has_no_handler_class b c Hc).
  unfold classList_remove. cbn [classList data_tag_btn].
  rewrite List.filter_app. cbn [List.filter]. rewrite Hc. cbn [negb].
  now rewrite app_nil_r, handler_class_filter_idem.
Qed.

Lemma data_tag_btn_add (c : string) (b : Button) :
  data_tag_btn (classList_add c b) = data_tag_btn b.
Proof. unfold classList_add. now destruct (classList_contains b c). Qed.

Lemma click_buttons (doc : Document) (i : nat) (btn : Button) :
  tagButtons doc !! i = Some btn ->
  tagButtons (click doc i)
  = alter (fun b => classList_add (active_class b) b) i
      (List.map (classList_remove handler_classes) (tagButtons doc)).
Proof. intros H. unfold click. now rewrite H. Qed.

Lemma click_cards (doc : Document) (i : nat) (btn : Button) :
  tagButtons doc !! i = Some btn ->
  postCards (click doc i)
  = List.map
      (fun card =>
         if String.eqb (data_tag_btn btn) "__all__"
            || includes (split_on "," (data_post_tags card)) (data_tag_btn btn)
         then mkCard (data_post_tags card) EmptyString
         else mkCard (data_post_tags card) "none")
      (postCards doc).
Proof. intros H. unfold click. now rewrite H. Qed.

Lemma click_button_at (doc : Document) (i j : nat) (btn b : Button) :
  tagButtons doc !! i = Some btn ->
  tagButtons doc !! j = Some b ->
  tagButtons (click doc i) !! j
  = Some (if Nat.eqb j i
          then classList_add (active_class b) (classList_remove handler_classes b)
          else classList_remove handler_classes b).
Proof.
  intros Hi Hj. rewrite (click_buttons doc i btn Hi).
  assert (Hc : List.map (classList_remove handler_classes) (tagButtons doc) !! j
               = Some (classList_remove handler_classes b)).
  { change (List.map ?f ?l) with (f <$> l). now rewrite list_lookup_fmap, Hj. }
  destruct (Nat.eqb_spec j i) as [-> | Hne].
  - rewrite list_lookup_alter_eq, Hc. cbn [fmap option_fmap option_map].
    now rewrite active_class_cleared.
  - rewrite list_lookup_alter_ne by congruence. exact Hc.
Qed.

(** X21.  The page after a click on a button does not depend on the
    clicks before it: a click on the button [i] after a click on any
    button gives the page that the click on [i] alone gives; a second
    click on the same button changes nothing. *)
Theorem click_forgets_earlier_clicks (doc : Document) (i j : nat) (btn : Button) :
  tagButtons doc !! i = Some btn ->
  click (click doc j) i = click doc i.
Proof.
  intros Hi. destruct (tagButtons doc !! j) as [bj |] eqn:Hj;
    [| unfold click at 2; now rewrite Hj].
  pose proof (click_button_at doc j i bj btn Hj Hi) as Hi'.
  set (btn' := if Nat.eqb i j then _ else _) in Hi'.
  assert (Htag : data_tag_btn btn' = data_tag_btn btn).
  { unfold btn'. destruct (Nat.eqb i j); [rewrite data_tag_btn_add |]; reflexivity. }
  assert (Eb : tagButtons (click (click doc j) i) = tagButtons (click doc i)).
  { rewrite (click_buttons _ i btn' Hi'), (click_buttons doc i btn Hi).
    f_equal. rewrite (click_buttons doc j bj Hj).
    apply list_eq. intros k.
    change (List.map ?f ?l) with (f <$> l). rewrite !list_lookup_fmap.
    destruct (Nat.eq_dec k j) as [-> | Hne].
    - rewrite list_lookup_alter_eq, list_lookup_fmap, Hj.
      cbn [fmap option_fmap option_map]. f_equal.
      rewrite active_class_cleared. apply cleared_after_add, active_class_handler.
    - rewrite list_lookup_alter_ne by congruence. rewrite list_lookup_fmap.
      destruct (tagButtons doc !! k) as [bk |]; [| reflexivity].
      cbn [fmap option_fmap option_map]. now rewrite cleared_twice. }
  assert (Ec : postCards (click (click doc j) i) = postCards (click doc i)).
  { rewrite (click_cards _ i btn' Hi'), (click_cards doc i btn Hi),
      (click_cards doc j bj Hj), Htag.
    rewrite List.map_map. apply List.map_ext. intros card.
    destruct (String.eqb (data_tag_btn bj) "__all__"
              || includes (split_on "," (data_post_tags card)) (data_tag_btn bj));
      reflexivity. }
  destruct (click (click doc j) i) as [bs cs], (click doc i) as [bs' cs'].
  cbn [tagButtons postCards] in Eb, Ec. now subst.
Qed.

Lemma click_forgets_earlier_clicks_witness :
  click (click (page_document [moon_post] (JStr "terminal")) 0) 1
  = click (page_document [moon_post] (JStr "terminal")) 1
  /\ click (click (page_document [moon_post] (JStr "terminal")) 1) 1
     = click (page_document [moon_post] (JStr "terminal")) 1.
Proof.
  split;
    apply (click_forgets_earlier_clicks _ 1 _ (mkButton "moon" ["term-tag"])); reflexivity.
Defined.

(** X22.  After a click, of the three classes that the handler removes,
    the clicked button has one, the one that the handler chose for it from
    its other classes, and no other button has any. *)
Theorem click_leaves_one_marked_button (doc : Document) (i j : nat) (btn b b' : Button) :
  tagButtons doc !! i = Some btn ->
  tagButtons doc !! j = Some b ->
  tagButtons (click doc i) !! j = Some b' ->
  data_tag_btn b' = data_tag_btn b
  /\ handler_classes_of b' = (if Nat.eqb j i then [active_class b] else []).
Proof.
  intros Hi Hj Hj'. rewrite (click_button_at doc i j btn b Hi Hj) in Hj'.
  injection Hj' as <-.
  assert (Hnone : handler_classes_of (classList_remove handler_classes b) = []).
  { unfold handler_classes_of, classList_remove. cbn [classList].
    induction (classList b) as [|c cs IH]; [reflexivity |].
    cbn [List.filter]. destruct (existsb (String.eqb c) handler_classes) eqn:E;
      cbn [negb]; [exact IH |].
    cbn [List.filter]. now rewrite E. }
  destruct (Nat.eqb j i).
  - split; [now rewrite data_tag_btn_add |].
    unfold classList_add.
    rewrite (cleared_has_no_handler_class b _ (active_class_handler b)).
    unfold handler_classes_of. cbn [classList]. rewrite List.filter_app.
    fold (handler_classes_of (classList_remove handler_classes b)). rewrite Hnone.
    cbn [List.filter app]. now rewrite active_class_handler.
  - split; [reflexivity | exact Hnone].
Qed.

Lemma click_leaves_one_marked_button_witness :
  handler_classes_of (mkButton "__all__" ["cosmic-tag"])  = []
  /\ handler_classes_of (mkButton "moon" ["cosmic-tag"; "cosmic-tag-active"])
     = ["cosmic-tag-active"].
Proof.
  split.
  - exact (proj2 (click_leaves_one_marked_button
                    (page_document [moon_post] (JStr "retro-cosmic")) 1 0
                    (mkButton "moon" ["cosmic-tag"])
                    (mkButton "__all__" ["cosmic-tag"; "cosmic-tag-active"])
                    (mkButton "__all__" ["cosmic-tag"])
                    eq_refl eq_refl eq_refl)).
  - exact (proj2 (click_leaves_one_marked_button
                    (page_document [moon_post] (JStr "retro-cosmic")) 1 1
                    (mkButton "moon" ["cosmic-tag"])
                    (mkButton "moon" ["cosmic-tag"])
                    (mkButton "moon" ["cosmic-tag"; "cosmic-tag-active"])
                    eq_refl eq_refl eq_refl)).
Defined.

(** *** The themes whose active class the handler knows *)

Lemma moved_active_class_cases (theme : JsValue) (active : string) :
  moved_active_class theme = Some active ->
  exists base,
    all_button_classes theme = [base; active]
    /\ tag_button_classes theme = [base]
    /\ List.In (base, active)
         [("cosmic-tag", "cosmic-tag-active"); ("term-tag", "term-tag-active");
          ("word-tag", "word-tag-active")].
Proof.
  unfold moved_active_class. intros Hm.
  destruct (is_theme theme "retro-cosmic") eqn:E1.
  - injection Hm as <-. exists "cosmic-tag".
    unfold all_button_classes, tag_button_classes. rewrite E1. repeat split; try reflexivity; cbn; auto.
  - destruct (is_theme theme "terminal") eqn:E2.
    + injection Hm as <-. exists "term-tag".
      destruct theme; try discriminate. apply String.eqb_eq in E2. subst.
      repeat split; try reflexivity; cbn; auto.
    + destruct (existsb (is_theme theme) named_themes) eqn:E3; [discriminate |].
      injection Hm as <-. exists "word-tag".
      fold (known_theme theme) in E3. theme_branches E3.
      unfold all_button_classes, tag_button_classes.
      repeat match goal with E : is_theme theme _ = false |- _ => rewrite E; clear E end.
      repeat split; try reflexivity; cbn; auto.
Qed.

(** X23.  In a document whose filter buttons carry the classes that
    [buildTagFilterHtml] writes for a theme among [retro-cosmic],
    [terminal] and the themes without a branch of their own (those of the
    button for all posts, with the active class, or those of the button of
    a tag), after a click the active class of the theme is on the clicked
    button and on no other, however many buttons carried it before. *)
Theorem known_active_class_moves (doc : Document) (theme : JsValue) (active : string)
    (i j : nat) (btn b' : Button) :
  moved_active_class theme = Some active ->
  Forall (fun b => classList b = all_button_classes theme
                   \/ classList b = tag_button_classes theme) (tagButtons doc) ->
  tagButtons doc !! i = Some btn ->
  tagButtons (click doc i) !! j = Some b' ->
  classList_contains b' active = Nat.eqb j i.
Proof.
  intros Hm Hall Hi Hj'.
  destruct (tagButtons doc !! j) as [b |] eqn:Hj.
  - rewrite (click_button_at doc i j btn b Hi Hj) in Hj'. injection Hj' as <-.
    pose proof (Forall_lookup_1 _ _ _ _ Hall Hj) as Hb. cbn beta in Hb.
    apply moved_active_class_cases in Hm as (base & Ha & Ht & Hin).
    rewrite Ha, Ht in Hb. clear Hall Hj Hi Ha Ht.
    destruct b as [tag cl]. cbn [classList] in Hb.
    destruct Hin as [E | [E | [E | []]]]; injection E as <- <-;
      destruct Hb as [-> | ->]; destruct (Nat.eqb j i); reflexivity.
  - exfalso. rewrite (click_buttons doc i btn Hi) in Hj'.
    apply lookup_lt_Some in Hj'. rewrite length_alter in Hj'.
    change (List.map ?f ?l) with (f <$> l) in Hj'. rewrite length_fmap in Hj'.
    apply lookup_ge_None in Hj. lia.
Qed.

Lemma known_active_class_moves_witness :
  classList_contains (mkButton "__all__" ["term-tag"]) "term-tag-active" = false
  /\ classList_contains (mkButton "moon" ["term-tag"; "term-tag-active"]) "term-tag-active"
     = true.
Proof.
  split.
  - apply (known_active_class_moves
             (mkDocument [mkButton "__all__" ["term-tag"; "term-tag-active"];
                          mkButton "moon" ["term-tag"]] [])
             (JStr "terminal") "term-tag-active" 1 0 (mkButton "moon" ["term-tag"])
             (mkButton "__all__" ["term-tag"])).
    + reflexivity.
    + constructor; [left; reflexivity | constructor; [right; reflexivity | constructor]].
    + reflexivity.
    + reflexivity.
  - apply (known_active_class_moves
             (mkDocument [mkButton "__all__" ["term-tag"; "term-tag-active"];
                          mkButton "moon" ["term-tag"]] [])
             (JStr "terminal") "term-tag-active" 1 1 (mkButton "moon" ["term-tag"])
             (mkButton "moon" ["term-tag"; "term-tag-active"])).
    + reflexivity.
    + constructor; [left; reflexivity | constructor; [right; reflexivity | constructor]].
    + reflexivity.
    + reflexivity.
Defined.

(** *** From the tags listed by a card to the cards shown *)

Lemma split_on_plain (sep : ascii) (s : string) :
  has_char sep s = false -> split_on sep s = [s].
Proof.
  induction s as [|c s IH]; [reflexivity |].
  cbn [has_char split_on]. rewrite (Ascii.eqb_sym c sep).
  destruct (Ascii.eqb sep c); [discriminate |].
  intros H. now rewrite (IH H).
Qed.

Lemma split_on_join (sep : ascii) (l : list string) :
  l <> [] -> Forall (fun s => has_char sep s = false) l ->
  split_on sep (join (String sep EmptyString) l) = l.
Proof.
  induction l as [|x l IH]; [congruence |]. intros _ H.
  apply Forall_cons in H as [Hx Hl].
  destruct l as [|y l]; [now apply split_on_plain |].
  change (join (String sep EmptyString) (x :: y :: l))
    with (x ++ String sep EmptyString ++ join (String sep EmptyString) (y :: l)).
  rewrite append_cons, append_nil_l, split_on_append_sep, split_on_plain by exact Hx.
  rewrite IH by (congruence || exact Hl). reflexivity.
Qed.

Lemma includes_joined (l : list string) (tag : string) :
  Forall (fun s => has_char "," s = false) l -> tag <> EmptyString ->
  includes (split_on "," (join "," l)) tag = includes l tag.
Proof.
  intros Hl Hne. destruct l as [|x l].
  - cbn. destruct (String.eqb_spec tag EmptyString); [contradiction | reflexivity].
  - change ","%string with (String ","%char EmptyString).
    rewrite split_on_join; [reflexivity | discriminate | exact Hl].
Qed.

(** X24.  In a document in which the [data-post-tags] attribute of every
    card reads as texts without a comma joined by commas, a click on a
    button whose tag is not the empty text leaves shown the cards whose
    texts include the tag of the button, and no other; the button of the
    tag [__all__] leaves every card shown, and a card that lists no text
    is shown by that button only. *)
Theorem click_shows_cards_listing_tag (doc : Document) (i : nat) (btn : Button)
    (listed : list (list string)) :
  tagButtons doc !! i = Some btn ->
  data_tag_btn btn <> EmptyString ->
  Forall (Forall (fun s => has_char "," s = false)) listed ->
  Forall2 (fun tags card => data_post_tags card = join "," tags) listed (postCards doc) ->
  Forall2
    (fun tags card =>
       shown card
       = (String.eqb (data_tag_btn btn) "__all__" || includes tags (data_tag_btn btn)))
    listed (postCards (click doc i)).
Proof.
  intros Hi Hne Hc Hd. rewrite (click_cards doc i btn Hi).
  induction Hd as [| tags card listed cards Hcard Hd IH]; [constructor |].
  apply Forall_cons in Hc as [Htags Hc].
  cbn [List.map]. constructor; [| now apply IH].
  rewrite Hcard, (includes_joined tags _ Htags Hne).
  now destruct (String.eqb (data_tag_btn btn) "__all__" || includes tags (data_tag_btn btn)).
Qed.

Lemma click_shows_cards_listing_tag_witness :
  Forall2 (fun tags card => shown card = includes tags "moon")
    [["moon"; "sea"]; []; ["moonlight"]]
    (postCards
       (click (mkDocument [mkButton "__all__" ["word-tag"]; mkButton "moon" ["word-tag"]]
                 [mkCard "moon,sea" EmptyString; mkCard EmptyString EmptyString;
                  mkCard "moonlight" EmptyString]) 1)).
Proof.
  apply (click_shows_cards_listing_tag
           (mkDocument [mkButton "__all__" ["word-tag"]; mkButton "moon" ["word-tag"]]
              [mkCard "moon,sea" EmptyString; mkCard EmptyString EmptyString;
               mkCard "moonlight" EmptyString])
           1 (mkButton "moon" ["word-tag"]) [["moon"; "sea"]; []; ["moonlight"]]).
  - reflexivity.
  - discriminate.
  - repeat constructor.
  - repeat constructor.
Defined.

(** *** The markup behind the document *)

Lemma filter_markup_declares_buttons_witness :
  occurs (q "<button data-tag-btn='a&amp;b' class='zine-tag'")
    (buildTagFilterHtml
       [mkPost "p" (JStr "P") "2024-01-01" (JStr "mizuki") (JStr EmptyString)
          [JStr "a&b"] "body"]
       (JStr "comedy-zine")).
Proof.
  apply (filter_markup_declares_buttons
           [mkPost "p" (JStr "P") "2024-01-01" (JStr "mizuki") (JStr EmptyString)
              [JStr "a&b"] "body"]
           (JStr "comedy-zine") (mkButton "a&b" ["zine-tag"])).
  right. left. reflexivity.
Defined.

Lemma list_markup_declares_cards_witness :
  occurs (q " data-post-tags='moon,a&lt;b'")
    (buildPostListHtml
       [mkPost "p" (JStr "P") "2024-01-01" (JStr "mizuki") (JStr EmptyString)
          [JStr "moon"; JStr "a<b"] "body"]
       "moon" (JStr "izakaya")).
Proof.
  apply (list_markup_declares_cards
           [mkPost "p" (JStr "P") "2024-01-01" (JStr "mizuki") (JStr EmptyString)
              [JStr "moon"; JStr "a<b"] "body"]
           "moon" (JStr "izakaya") (mkCard "moon,a<b" EmptyString)).
  left. reflexivity.
Defined.
